(** * genai-model-evaluator: the evaluation pipeline, embedded and verified

    A shallow embedding of the parts of the repository that price a model
    call ([pricing_calculator.py]), extract tagged regions from a grader's
    reply and aggregate nine rubric scores ([evaluation_steps.py]), and run
    the per-model loop ([orchestrator.py]).

    Conventions.
    - A Python [str] is a [string]; each [ascii] is read as one code point
      in U+0000..U+00FF.
    - A Python [float] is a primitive binary64 float; a Python [int] is a [Z].
    - A Python exception is a value of [exn]; code that may raise returns
      [res A]. *)

From Stdlib Require Import ZArith Lia List Bool Ascii String Floats.
From stdpp Require Import base option list sorting gmap strings.

Set Default Proof Using "Type".
#[local] Set Warnings "-inexact-float".

Local Open Scope string_scope.
Local Open Scope Z_scope.

(* ===================================================================== *)
(** ** Exceptions and fallible computations *)

Inductive exn : Type :=
  | ValueError          (* int() of a malformed literal *)
  | OverflowError       (* an int too large for a float *)
  | ZeroDivisionError   (* division by zero *)
  | IndexError          (* a list index out of range *)
  | ClientError         (* a vendor or the PDF reader rejected a call *)
  | KeyError            (* a label that is not a column of a table *)
  | OSError.            (* a file that cannot be written *)

Definition res (A : Type) : Type := exn + A.

Definition ret {A} (a : A) : res A := inr a.
Definition raise {A} (e : exn) : res A := inl e.
Definition bind {A B} (m : res A) (f : A -> res B) : res B :=
  match m with inl e => inl e | inr a => f a end.

Declare Scope res_scope.
Delimit Scope res_scope with res.
Notation "'let*' x ':=' m 'in' k" := (bind m (fun x => k))
  (at level 20, x name, m at level 100, k at level 200) : res_scope.
Notation "'let*' ' p ':=' m 'in' k" := (bind m (fun x => let 'p := x in k))
  (at level 20, p pattern, m at level 100, k at level 200) : res_scope.

(* ===================================================================== *)
(** ** Python numbers *)

Module PyNum.

(** binary64: 53 bits of precision, infinities at exponent 1024. *)
Definition prec : Z := 53.
Definition emax : Z := 1024.

Definition is_finite (x : spec_float) : bool :=
  match x with S754_infinity _ | S754_nan => false | _ => true end.

(** The double nearest to [(-1)^s * a / b] for [0 <= a], [0 < b] (ties to
    even); an infinity when the quotient is out of range. *)
Definition SF_of_quot (s : bool) (a b : Z) : spec_float :=
  let '(q, e, l) := SFdiv_core_binary prec emax a 0 b 0 in
  binary_round_aux prec emax s q e l.

(** [float(n)] for an int. *)
Definition float_of_int (n : Z) : res float :=
  let x := binary_normalize prec emax n 0 false in
  if is_finite x then ret (SF2Prim x) else raise OverflowError.

(** [a / b] on two ints: the correctly rounded quotient. *)
Definition int_truediv (a b : Z) : res float :=
  if b =? 0 then raise ZeroDivisionError
  else
    let x := SF_of_quot (xorb (a <? 0) (b <? 0)) (Z.abs a) (Z.abs b) in
    if is_finite x then ret (SF2Prim x) else raise OverflowError.

(** [x / y] on two floats. *)
Definition float_truediv (x y : float) : res float :=
  if PrimFloat.eqb y 0 then raise ZeroDivisionError else ret (x / y)%float.

(** An int or a float, as the price functions return either. *)
Inductive num : Type :=
  | Int (n : Z)
  | Float (x : float).

Definition to_float (a : num) : res float :=
  match a with Int n => float_of_int n | Float x => ret x end.

Definition add (a b : num) : res num :=
  match a, b with
  | Int m, Int n => ret (Int (m + n))
  | _, _ =>
      (let* x := to_float a in let* y := to_float b in
       ret (Float (x + y)%float))%res
  end.

Definition mul (a b : num) : res num :=
  match a, b with
  | Int m, Int n => ret (Int (m * n))
  | _, _ =>
      (let* x := to_float a in let* y := to_float b in
       ret (Float (x * y)%float))%res
  end.

Definition truediv (a b : num) : res num :=
  match a, b with
  | Int m, Int n => (let* q := int_truediv m n in ret (Float q))%res
  | _, _ =>
      (let* x := to_float a in let* y := to_float b in
       let* q := float_truediv x y in ret (Float q))%res
  end.

(** Round half to even of the rational [a / b], [0 <= a], [0 < b]. *)
Definition round_half_even (a b : Z) : Z :=
  let q := a / b in
  let r := a mod b in
  match 2 * r ?= b with
  | Lt => q
  | Gt => q + 1
  | Eq => if Z.even q then q else q + 1
  end.

(** Beyond this many decimals every double rounds to itself. *)
Definition NDIGITS_MAX : Z := 323.

(** [round(x, ndigits)] on a float, for [0 <= ndigits]: infinities and
    NaN round to themselves; on a finite [x] the exact binary value is
    rounded half-even to [ndigits] decimals and the decimal is read back as
    the nearest double, keeping the sign of [x].  (With [0 <= ndigits] the
    rounded decimal is never larger in magnitude than the largest double,
    so the interpreter's overflow check on the way back cannot fire.) *)
Definition float_round (x : float) (ndigits : Z) : float :=
  match Prim2SF x with
  | S754_finite s m e =>
      if NDIGITS_MAX <? ndigits then x
      else
        let p := 10 ^ ndigits in
        (* |x| * 10^ndigits = (m * 2^e) * p, rounded to an integer k *)
        let k :=
          if 0 <=? e then Zpos m * 2 ^ e * p
          else round_half_even (Zpos m * p) (2 ^ (- e)) in
        SF2Prim (if k =? 0 then S754_zero s else SF_of_quot s k p)
  | _ => x
  end.

(** [round(a, ndigits)] with [0 <= ndigits]: an int rounds to itself. *)
Definition round (a : num) (ndigits : Z) : num :=
  match a with
  | Int n => Int n
  | Float x => Float (float_round x ndigits)
  end.

End PyNum.

(* ===================================================================== *)
(** ** Python strings *)

Module PyStr.

Definition chars (s : string) : list ascii := list_ascii_of_string s.
Definition str (l : list ascii) : string := string_of_list_ascii l.

Definition code (c : ascii) : nat := nat_of_ascii c.

(** [c.isspace()] on U+0000..U+00FF: TAB..CR, FS..US, SPACE, NEL, NBSP. *)
Definition is_space (c : ascii) : bool :=
  let n := code c in
  ((9 <=? n) && (n <=? 13) || (28 <=? n) && (n <=? 32)
   || (n =? 133) || (n =? 160))%nat.

Fixpoint drop_while (p : ascii -> bool) (l : list ascii) : list ascii :=
  match l with
  | c :: l' => if p c then drop_while p l' else l
  | [] => []
  end.

Definition lstrip_chars (l : list ascii) : list ascii :=
  drop_while is_space l.

Definition rstrip_chars (l : list ascii) : list ascii :=
  rev (lstrip_chars (rev l)).

Definition strip_chars (l : list ascii) : list ascii :=
  rstrip_chars (lstrip_chars l).

(** [s.strip()] *)
Definition strip (s : string) : string := str (strip_chars (chars s)).

(** [sep.join(parts)] *)
Fixpoint join_chars (sep : list ascii) (parts : list (list ascii))
    : list ascii :=
  match parts with
  | [] => []
  | [p] => p
  | p :: ps => p ++ sep ++ join_chars sep ps
  end.

Definition join (sep : string) (parts : list string) : string :=
  str (join_chars (chars sep) (map chars parts)).

(** [len(s)] *)
Definition len (s : string) : Z := Z.of_nat (String.length s).

Definition nl : string := String "010"%char EmptyString.

(** The lines of a text, each but the last followed by a newline. *)
Fixpoint unlines (ls : list string) : string :=
  match ls with
  | [] => EmptyString
  | [l] => l
  | l :: ls' => l ++ nl ++ unlines ls'
  end.

Fixpoint is_prefix (p l : list ascii) : bool :=
  match p, l with
  | [], _ => true
  | a :: p', b :: l' => if decide (a = b) then is_prefix p' l' else false
  | _ :: _, [] => false
  end.

Fixpoint occurs (needle hay : list ascii) : bool :=
  is_prefix needle hay
  || match hay with [] => false | _ :: hay' => occurs needle hay' end.

(** [needle in hay] *)
Definition contains (needle hay : string) : bool :=
  occurs (chars needle) (chars hay).

Definition digit_val (c : ascii) : option Z :=
  let n := code c in
  if ((48 <=? n) && (n <=? 57))%nat then Some (Z.of_nat n - 48) else None.

(** The digits of a decimal literal after a first digit of value [acc]:
    digits, each optionally preceded by one underscore. *)
Fixpoint int_digits (acc : Z) (l : list ascii) : option Z :=
  match l with
  | [] => Some acc
  | c :: l' =>
      match digit_val c with
      | Some d => int_digits (10 * acc + d) l'
      | None =>
          if decide (c = "_"%char) then
            match l' with
            | c' :: l'' =>
                match digit_val c' with
                | Some d => int_digits (10 * acc + d) l''
                | None => None
                end
            | [] => None
            end
          else None
      end
  end.

Definition int_unsigned (l : list ascii) : option Z :=
  match l with
  | c :: l' =>
      match digit_val c with
      | Some d => int_digits d l'
      | None => None
      end
  | [] => None
  end.

(** The whitespace [int] drops around a literal: TAB..CR, SPACE, NEL and
    NBSP (FS..US are whitespace for [strip] and not for [int]). *)
Definition is_int_space (c : ascii) : bool :=
  let n := code c in
  ((9 <=? n) && (n <=? 13) || (n =? 32) || (n =? 133) || (n =? 160))%nat.

(** [int(s)] in base 10: surrounding whitespace is dropped, then an
    optional sign and a decimal literal; [None] stands for the
    [ValueError] of a malformed literal.  (The interpreter's optional cap
    on the number of digits is not modelled.) *)
Definition int_of_chars (l : list ascii) : option Z :=
  match rev (drop_while is_int_space (rev (drop_while is_int_space l))) with
  | c :: l' =>
      if decide (c = "-"%char) then Z.opp <$> int_unsigned l'
      else if decide (c = "+"%char) then int_unsigned l'
      else int_unsigned (c :: l')
  | [] => None
  end.

Definition int (s : string) : res Z :=
  match int_of_chars (chars s) with
  | Some n => ret n
  | None => raise ValueError
  end.

End PyStr.

(* ===================================================================== *)
(** ** The fragment of [re] that [parse_xml] uses

    A backtracking matcher in continuation-passing style: alternatives are
    tried left to right, a lazy repeat tries its continuation before taking
    one more character, and a greedy group repeat tries one more round
    before its continuation.  Flags: DOTALL, no MULTILINE. *)

Module Re.
Import PyStr.

(** One-character items. *)
Inductive item : Type :=
  | Chr (c : ascii)        (* the literal c *)
  | NotChr (c : ascii)     (* [^c] *)
  | Dot.                   (* . under DOTALL *)

Definition item_ok (i : item) (c : ascii) : bool :=
  match i with
  | Chr a => bool_decide (c = a)
  | NotChr a => negb (bool_decide (c = a))
  | Dot => true
  end.

Inductive regex : Type :=
  | Lit (l : list ascii)   (* a run of literal characters *)
  | One (i : item)
  | Lazy (i : item)        (* i*? *)
  | Cat (r1 r2 : regex)
  | Alt (r1 r2 : regex)    (* r1|r2 *)
  | Plus (r : regex)       (* (?:r)+ *)
  | Bol                    (* ^ *)
  | Eol.                   (* $ *)

Definition cont (A : Type) : Type := list ascii -> option A.

Definition orelse {A} (x y : option A) : option A :=
  match x with Some a => Some a | None => y end.

Definition m_lit {A} (l s : list ascii) (k : cont A) : option A :=
  if is_prefix l s then k (drop (length l) s) else None.

Definition m_one {A} (i : item) (s : list ascii) (k : cont A) : option A :=
  match s with
  | c :: s' => if item_ok i c then k s' else None
  | [] => None
  end.

Fixpoint m_lazy {A} (i : item) (s : list ascii) (k : cont A) : option A :=
  orelse (k s)
    match s with
    | c :: s' => if item_ok i c then m_lazy i s' k else None
    | [] => None
    end.

(** After a round of a greedy repeat has ended at [s1]: try one more round
    and, failing that, the continuation.  A round that ends where it
    started is not followed by another one.  [n] bounds the length of
    [s1]. *)
Fixpoint m_until {A} (body : list ascii -> cont A -> option A) (k : cont A)
    (n : nat) (s1 : list ascii) : option A :=
  orelse
    (body s1 (fun s2 =>
       match n with
       | S n' =>
           if (length s2 <? length s1)%nat then m_until body k n' s2
           else k s2
       | O => k s2
       end))
    (k s1).

Definition m_plus {A} (body : list ascii -> cont A -> option A)
    (s : list ascii) (k : cont A) : option A :=
  body s (fun s1 => m_until body k (length s1) s1).

(** [m len r s k]: match [r] at the front of [s], the rest of a subject of
    [len] characters, and hand what is left to [k]. *)
Fixpoint m {A} (len : nat) (r : regex) : list ascii -> cont A -> option A :=
  match r with
  | Lit l => m_lit l
  | One i => m_one i
  | Lazy i => m_lazy i
  | Cat r1 r2 => fun s k => m len r1 s (fun s' => m len r2 s' k)
  | Alt r1 r2 => fun s k => orelse (m len r1 s k) (m len r2 s k)
  | Plus r => m_plus (m len r)
  | Bol => fun s k => if (length s =? len)%nat then k s else None
  | Eol => fun s k =>
      match s with
      | [] => k s
      | [c] => if bool_decide (c = "010"%char) then k s else None
      | _ => None
      end
  end.

(** A match of [r] at the front of [s]: the number of characters taken. *)
Definition match_at (len : nat) (r : regex) (s : list ascii) : option nat :=
  (fun s' => length s - length s')%nat <$> m len r s Some.

(** [re.findall(r, subject)] for a pattern without groups: scan left to
    right; [skip] counts the characters of the last match still to pass.
    (A match of no character is recorded and the scan moves on by one.) *)
Fixpoint scan_all (len : nat) (r : regex) (s : list ascii) (skip : nat)
    : list (list ascii) :=
  match skip with
  | S j => match s with [] => [] | _ :: t => scan_all len r t j end
  | O =>
      match match_at len r s with
      | Some w =>
          take w s ::
          match s with [] => [] | _ :: t => scan_all len r t (w - 1) end
      | None => match s with [] => [] | _ :: t => scan_all len r t 0 end
      end
  end.

Definition findall (r : regex) (subject : list ascii) : list (list ascii) :=
  scan_all (length subject) r subject 0.

(** [re.sub(r, '', subject)]: the subject without its matches. *)
Fixpoint scan_del (len : nat) (r : regex) (s : list ascii) (skip : nat)
    : list ascii :=
  match skip with
  | S j => match s with [] => [] | _ :: t => scan_del len r t j end
  | O =>
      match match_at len r s with
      | Some (S w) => match s with [] => [] | _ :: t => scan_del len r t w end
      | _ => match s with [] => [] | c :: t => c :: scan_del len r t 0 end
      end
  end.

Definition sub_empty (r : regex) (subject : list ascii) : list ascii :=
  scan_del (length subject) r subject 0.

End Re.

(* ===================================================================== *)
(** ** evaluation_steps.py: parse_xml *)

Module Xml.
Import PyStr Re.

Definition open_tag (tag : list ascii) : list ascii :=
  ["<"%char] ++ tag ++ [">"%char].
Definition close_tag (tag : list ascii) : list ascii :=
  ["<"%char; "/"%char] ++ tag ++ [">"%char].

(** Characters with a meaning of their own in a pattern.  The tag is
    spliced into the pattern as it is, so it stands for itself exactly
    when it has none of them. *)
Definition special (c : ascii) : bool :=
  bool_decide (c ∈ chars ".^$*+?{}[]\|()").

Definition plain (tag : string) : bool :=
  forallb (fun c => negb (special c)) (chars tag).

(** [<[^/]*?>.*?</[^>]*?>] *)
Definition element : regex :=
  Cat (One (Chr "<")) (Cat (Lazy (NotChr "/")) (Cat (One (Chr ">"))
  (Cat (Lazy Dot) (Cat (Lit (chars "</"))
  (Cat (Lazy (NotChr ">")) (One (Chr ">"))))))).

(** [[^<]*?] *)
Definition text : regex := Lazy (NotChr "<").

(** [<{tag}>(?:<[^/]*?>.*?</[^>]*?>|[^<]*?)+</{tag}>], for a plain tag. *)
Definition pattern (tag : list ascii) : regex :=
  Cat (Lit (open_tag tag))
    (Cat (Plus (Alt element text)) (Lit (close_tag tag))).

(** [^<{tag}>|</{tag}>$], for a plain tag. *)
Definition outer (tag : list ascii) : regex :=
  Alt (Cat Bol (Lit (open_tag tag))) (Cat (Lit (close_tag tag)) Eol).

Definition parse_xml_chars (xml tag : list ascii) : list ascii :=
  let matches := findall (pattern tag) xml in
  match matches with
  | [] => []
  | _ :: _ =>
      let clean_matches := map (sub_empty (outer tag)) matches in
      strip_chars (join_chars [" "%char] clean_matches)
  end.

(** [parse_xml(xml, tag)], for a plain tag (the pattern then compiles, and
    the handler of [re.error] is never entered). *)
Definition parse_xml (xml tag : string) : string :=
  str (parse_xml_chars (chars xml) (chars tag)).

(** *** Texts to state properties on *)

Definition lt_char : ascii := "<"%char.

(** No character of [l] is [<]. *)
Definition flat (l : list ascii) : Prop := Forall (fun c => c <> lt_char) l.

(** A content between the two delimiters of a tag. *)
Definition wrap (tag c : list ascii) : list ascii :=
  (open_tag tag ++ c ++ close_tag tag)%list.

(** A text made of tagged regions: before each region a gap, after the
    last one a tail. *)
Fixpoint document (tag : list ascii) (segs : list (list ascii * list ascii))
    (tail : list ascii) : list ascii :=
  match segs with
  | [] => tail
  | (gap, c) :: segs' => (gap ++ wrap tag c ++ document tag segs' tail)%list
  end.

(** The same on strings. *)
Definition no_lt (s : string) : bool :=
  forallb (fun c => negb (bool_decide (c = lt_char))) (chars s).

Definition region (tag c : string) : string :=
  "<" ++ tag ++ ">" ++ c ++ "</" ++ tag ++ ">".

Fixpoint text_with (tag : string) (regions : list (string * string))
    (tail : string) : string :=
  match regions with
  | [] => tail
  | (gap, c) :: regions' => gap ++ region tag c ++ text_with tag regions' tail
  end.

End Xml.

(* ===================================================================== *)
(** ** pricing_calculator.py *)

Module Pricing.
Import PyNum.

(** Prices per 1000 input tokens, as the dictionary literal lists them. *)
Definition input_price_items : list (string * float) :=
    [ ("amazon.titan-text-lite-v1", 0.0003%float);
      ("amazon.titan-text-express-v1", 0.0075%float);
      ("ai21.j2-mid-v1", 0.0125%float);
      ("ai21.j2-ultra-v1", 0.0188%float);
      ("anthropic.claude-instant-v1", 0.00080%float);
      ("anthropic.claude-v2", 0.00800%float);
      ("anthropic.claude-v2:1", 0.00800%float);
      ("anthropic.claude-3-sonnet-20240229-v1:0", 0.00300%float);
      ("anthropic.claude-3-haiku-20240307-v1:0", 0.0002500%float);
      ("cohere.command-text-v14", 0.0015%float);
      ("cohere.command-light-text-v14", 0.0003%float);
      ("meta.llama2-13b-chat-v1", 0.00075%float);
      ("meta.llama2-70b-chat-v1", 0.00195%float);
      ("meta.llama3-8b-instruct-v1:0", 0.0004%float);
      ("meta.llama3-70b-instruct-v1:0", 0.00265%float);
      ("mistral.mistral-large-2402-v1:0", 0.008%float);
      ("mistral.mistral-7b-instruct-v0:2", 0.00015%float);
      ("mistral.mixtral-8x7b-instruct-v0:1", 0.00045%float);
      ("gpt-4-0125-preview", 0.01%float);
      ("gpt-4-32k", 0.06%float) ].

Definition model_input_token_prices : gmap string float :=
  list_to_map input_price_items.

(** Prices per 1000 output tokens, as the dictionary literal lists them. *)
Definition output_price_items : list (string * float) :=
    [ ("amazon.titan-text-lite-v1", 0.0004%float);
      ("amazon.titan-text-express-v1", 0.0016%float);
      ("ai21.j2-mid-v1", 0.0125%float);
      ("ai21.j2-ultra-v1", 0.0188%float);
      ("anthropic.claude-instant-v1", 0.00240%float);
      ("anthropic.claude-v2", 0.02400%float);
      ("anthropic.claude-v2:1", 0.02400%float);
      ("anthropic.claude-3-sonnet-20240229-v1:0", 0.01500%float);
      ("anthropic.claude-3-haiku-20240307-v1:0", 0.0012500%float);
      ("cohere.command-text-v14", 0.00200%float);
      ("cohere.command-light-text-v14", 0.00060%float);
      ("meta.llama2-13b-chat-v1", 0.00100%float);
      ("meta.llama2-70b-chat-v1", 0.00256%float);
      ("meta.llama3-8b-instruct-v1:0", 0.0006%float);
      ("meta.llama3-70b-instruct-v1:0", 0.0035%float);
      ("mistral.mistral-large-2402-v1:0", 0.024%float);
      ("mistral.mistral-7b-instruct-v0:2", 0.00020%float);
      ("mistral.mixtral-8x7b-instruct-v0:1", 0.00070%float);
      ("gpt-4-0125-preview", 0.03%float);
      ("gpt-4-32k", 0.12%float) ].

Definition model_output_token_prices : gmap string float :=
  list_to_map output_price_items.

(** The body shared by the two price functions: look the model up; when it
    is there, [round((token_number / 1000) * price, 8)]; otherwise the
    int [0]. *)
Definition price_of (table : gmap string float)
    (token_number : Z) (model_id : string) : res num :=
  match table !! model_id with
  | Some price_per_1000_tokens =>
      (let* q := truediv (Int token_number) (Int 1000) in
       let* cost := mul q (Float price_per_1000_tokens) in
       ret (round cost 8))%res
  | None => ret (Int 0)
  end.

Definition calculate_input_price (token_number : Z) (model_id : string)
    : res num :=
  price_of model_input_token_prices token_number model_id.

Definition calculate_output_price (token_number : Z) (model_id : string)
    : res num :=
  price_of model_output_token_prices token_number model_id.

Definition calculate_total_price (input_tokens output_tokens : Z)
    (model : string) : res (num * num * num * num) :=
  (let* input_cost := calculate_input_price input_tokens model in
   let* output_cost := calculate_output_price output_tokens model in
   let* sum := add input_cost output_cost in
   let total_cost := round sum 6 in
   let* scaled := mul total_cost (Int 1000) in
   let total_cost_1000 := round scaled 6 in
   ret (input_cost, output_cost, total_cost, total_cost_1000))%res.

End Pricing.



(* ===================================================================== *)
(** ** The outside world

    Every call that leaves the process is an [event]; a run threads the
    log of the events so far, and the world answers each call from the
    log at that moment. *)

Module World.

(** The nine graders of [evaluation_steps.py]; the ninth carries the task
    and the generated criteria and grading scale. *)
Inductive grader : Type :=
  | eval_model_accuracy
  | eval_model_completeness
  | eval_model_flow
  | eval_model_structure
  | eval_model_conciseness
  | eval_model_clarity
  | eval_model_objectivity
  | eval_model_tone
  | eval_model_task (task evaluation_criteria evaluation_grading : string).

(** The six vendor adapters of [text_extractor_and_summarizer.py]. *)
Inductive adapter : Type :=
  | invoke_anthropic
  | invoke_mistral
  | invoke_meta
  | invoke_cohere
  | invoke_amazon
  | invoke_AI21.

Inductive event : Type :=
  | ExtractText (pdf_path : string)
  | GenerateRubric (task : string)
  | ReadTimer
  | InvokeModel (a : adapter) (model_id prompt prompt_context max_tokens : string)
  | Grade (g : grader) (model summary source_text : string).

Definition log : Type := list event.

Record world : Type := {
  (** the text of the PDF at a path *)
  pdf_text : log -> string -> res string;
  (** the scoring model's reply to the rubric-generation prompt *)
  rubric_reply : log -> string -> res string;
  (** the reading of [timeit.default_timer] *)
  clock : log -> float;
  (** a vendor's answer: output text, input tokens, output tokens *)
  vendor : log -> adapter -> string -> string -> string -> string
           -> res (string * Z * Z);
  (** the scoring model's reply to one grading prompt *)
  judge_reply : log -> grader -> string -> string -> string -> res string;
  (** the order in which the graders started now will complete: each
      entry picks, modulo their number, one of those still running *)
  completion : log -> list nat
}.

(** A computation that talks to the world. *)
Definition M (A : Type) : Type := log -> log * res A.

Definition mret {A} (a : A) : M A := fun l => (l, inr a).
Definition mbind {A B} (c : M A) (f : A -> M B) : M B :=
  fun l => match c l with
           | (l', inr a) => f a l'
           | (l', inl e) => (l', inl e)
           end.
Definition lift {A} (r : res A) : M A := fun l => (l, r).
Definition call {A} (ev : event) (answer : log -> res A) : M A :=
  fun l => ((l ++ [ev])%list, answer l).
Definition ask {A} (f : log -> A) : M A := fun l => (l, inr (f l)).

Declare Scope M_scope.
Delimit Scope M_scope with M.
Notation "'let*' x ':=' c 'in' k" := (mbind c (fun x => k))
  (at level 20, x name, c at level 100, k at level 200) : M_scope.
Notation "'let*' ' p ':=' c 'in' k" := (mbind c (fun x => let 'p := x in k))
  (at level 20, p pattern, c at level 100, k at level 200) : M_scope.

Fixpoint foldM {A B} (f : B -> A -> M B) (b : B) (l : list A) : M B :=
  match l with
  | [] => mret b
  | a :: l' => mbind (f b a) (fun b' => foldM f b' l')
  end.

(** [place i a l] puts the result [a] of the call at position [i] into
    the results so far, kept in the order of the positions. *)
Fixpoint place {A} (i : nat) (a : A) (l : list (nat * A)) : list (nat * A) :=
  match l with
  | [] => [(i, a)]
  | (j, b) :: l' => if (i <? j)%nat then (i, a) :: l else (j, b) :: place i a l'
  end.

(** The calls still running complete one at a time in the order [picks]
    gives; the first one that fails ends the whole. *)
Fixpoint complete {A} (n : nat) (running : list (nat * M A))
    (picks : list nat) (results : list (nat * A)) : M (list (nat * A)) :=
  match n with
  | O => mret results
  | S n' =>
      let i := (hd 0 picks mod length running)%nat in
      match running !! i with
      | Some (pos, c) =>
          mbind c (fun a =>
            complete n' (delete i running) (tl picks) (place pos a results))
      | None => mret results
      end
  end.

(** [await asyncio.gather] of the calls: the results of the calls in the order
    the calls were given, whatever the order they complete in. *)
Definition gather {A} (picks : log -> list nat) (calls : list (M A))
    : M (list A) :=
  mbind (ask picks) (fun order =>
  mbind (complete (length calls) (imap (fun i c => (i, c)) calls) order [])
    (fun results => mret (map snd results))).

End World.

(* ===================================================================== *)
(** ** evaluation_steps.py: grading and aggregation *)

Module Eval.
Import PyStr PyNum Xml World.

Section Graders.
Variable E : world.

(** One grader: its prompt goes to the scoring model, and the score and
    the rationale are read from the tagged regions of the reply.  (The
    nine [eval_model_*] coroutines differ in the rubric text of their
    prompt, which the [grader] stands for, and all end in
    [model_execution].) *)
Definition model_execution (g : grader) (model summary source_text : string)
    : M (string * string) :=
  (let* output_text :=
     call (Grade g model summary source_text)
          (fun l => judge_reply E l g model summary source_text) in
   let score := strip (parse_xml output_text "score") in
   let evaluation_summary := strip (parse_xml output_text "thoughts") in
   mret (score, evaluation_summary))%M.

Definition dynamic_grading_criteria (task : string) : M (string * string) :=
  (let* response :=
     call (GenerateRubric task) (fun l => rubric_reply E l task) in
   let eval_criteria := strip (parse_xml response "evaluation_criteria") in
   let eval_grading := strip (parse_xml response "evaluation_grading") in
   mret (eval_criteria, eval_grading))%M.

End Graders.

(** [l[i]] *)
Definition index {A} (l : list A) (i : nat) : res A :=
  match l !! i with
  | Some a => ret a
  | None => raise IndexError
  end.

(** The sum of a list of scores. *)
Definition total (ns : list Z) : Z := foldr Z.add 0 ns.

Definition divider : string :=
  "---------------------------------------------------------------------".
Definition last_divider : string :=
  "------------------------------------------------------------------------------------------------------------------------------------------------------------".

(** The part of [evaluate_model_output_orchestrator] after the graders
    have answered: unpack the nine results, build the score map, compute
    the final score, and write the narrative. *)
Definition score_results (model_name model_summary : string)
    (result : list (string * string))
    : res (num * string * list (string * string)) :=
  (let* '(model_accuracy_score, model_accuracy_summary) := index result 0 in
   let* '(model_completeness_score, model_completeness_summary) := index result 1 in
   let* '(model_flow_score, model_flow_summary) := index result 2 in
   let* '(model_structure_score, model_structure_summary) := index result 3 in
   let* '(model_conciseness_score, model_conciseness_summary) := index result 4 in
   let* '(model_clarity_score, model_clarity_summary) := index result 5 in
   let* '(model_objectivity_score, model_objectivity_summary) := index result 6 in
   let* '(model_tone_score, model_tone_summary) := index result 7 in
   let* '(model_task_score, model_task_summary) := index result 8 in
   let final_score_rubric :=
     [ ("model_name", model_name);
       ("model_completeness_score", model_completeness_score);
       ("model_accuracy_score", model_accuracy_score);
       ("model_flow_score", model_flow_score);
       ("model_structure_score", model_structure_score);
       ("model_conciseness_score", model_conciseness_score);
       ("model_clarity_score", model_clarity_score);
       ("model_objectivity_score", model_objectivity_score);
       ("model_tone_score", model_tone_score);
       ("model_task_score", model_task_score) ] in
   let* completeness := int model_completeness_score in
   let* accuracy := int model_accuracy_score in
   let* flow := int model_flow_score in
   let* structure := int model_structure_score in
   let* conciseness := int model_conciseness_score in
   let* clarity := int model_clarity_score in
   let* objectivity := int model_objectivity_score in
   let* tone := int model_tone_score in
   let* task := int model_task_score in
   let* final_score :=
     truediv (Int (completeness + accuracy + flow + structure + conciseness
                   + clarity + objectivity + tone + task))
             (Float 9.0) in
   let final_summary :=
     unlines
       [ "";
         "Full Summary:";
         model_summary;
         divider;
         "";
         "Model Completeness: ";
         "Score: " ++ model_completeness_score;
         "Summary: " ++ model_completeness_summary;
         divider;
         "";
         "Model Accuracy: ";
         "Score: " ++ model_accuracy_score;
         "Summary: " ++ model_accuracy_summary;
         divider;
         "";
         "Model Flow Summary: ";
         "Score: " ++ model_flow_score;
         "Summary: " ++ model_flow_summary;
         divider;
         "";
         "Model Structure: ";
         "Score: " ++ model_structure_score;
         "Summary: " ++ model_structure_summary;
         divider;
         "";
         "Model Conciseness: ";
         "Score: " ++ model_conciseness_score;
         "Summary: " ++ model_conciseness_summary;
         divider;
         "";
         "Model Clarity Summary: ";
         "Score: " ++ model_clarity_score;
         "Summary: " ++ model_clarity_summary;
         divider;
         "";
         "Model Objectivity:";
         "Score: " ++ model_objectivity_score;
         "Summary: " ++ model_objectivity_summary;
         "";
         divider;
         "";
         "Model Tone:";
         "Score: " ++ model_tone_score;
         "Summary: " ++ model_tone_summary;
         divider;
         "";
         "Model Task:";
         "Score: " ++ model_task_score;
         "Summary: " ++ model_task_summary;
         last_divider;
         "    " ] in
   ret (final_score, final_summary, final_score_rubric))%res.

Section Orchestrator.
Variable E : world.

(** The nine grading coroutines, in the order they are handed to
    [asyncio.gather]. *)
Definition graders
    (source_text_data model_name model_summary task
     dynamic_evaluation_criteria scale : string)
    : list (M (string * string)) :=
  [ model_execution E eval_model_accuracy model_name model_summary source_text_data;
    model_execution E eval_model_completeness model_name model_summary source_text_data;
    model_execution E eval_model_flow model_name model_summary source_text_data;
    model_execution E eval_model_structure model_name model_summary source_text_data;
    model_execution E eval_model_conciseness model_name model_summary source_text_data;
    model_execution E eval_model_clarity model_name model_summary source_text_data;
    model_execution E eval_model_objectivity model_name model_summary source_text_data;
    model_execution E eval_model_tone model_name model_summary source_text_data;
    model_execution E
      (eval_model_task task dynamic_evaluation_criteria scale)
      model_name model_summary source_text_data ].

Definition evaluate_model_output_orchestrator
    (source_text_data model_name model_summary task
     dynamic_evaluation_criteria scale : string)
    : M (num * string * list (string * string)) :=
  (let* result :=
     gather (completion E)
       (graders source_text_data model_name model_summary task
          dynamic_evaluation_criteria scale) in
   lift (score_results model_name model_summary result))%M.

End Orchestrator.

End Eval.

(* ===================================================================== *)
(** ** orchestration_helper.py *)

Module Helper.
Import PyStr PyNum.

Record OrchestrationHelper : Type := {
  model : string;
  time_length : float;
  character_count : Z;
  char_process_time : num;
  input_cost : num;
  output_cost : num;
  total_cost : num;
  total_cost_1000 : num;
  final_score : num;
  summary_invoke_response : string;
  final_summary : string
}.

(** The dictionary [format] returns, one field per key. *)
Record row : Type := {
  Model : string;
  Time_Length : float;
  Character_Count : Z;
  Char_Process_Time : num;
  Input_Cost : num;
  Output_Cost : num;
  Total_Cost : num;
  Total_Cost_1000 : num;
  Summary_Score : num;
  Invoke_Response : string
}.

Definition format (self : OrchestrationHelper) : row :=
  {| Model := model self;
     Time_Length := time_length self;
     Character_Count := character_count self;
     Char_Process_Time := char_process_time self;
     Input_Cost := input_cost self;
     Output_Cost := output_cost self;
     Total_Cost := total_cost self;
     Total_Cost_1000 := total_cost_1000 self;
     Summary_Score := final_score self;
     Invoke_Response := summary_invoke_response self |}.

Definition evaluation_results (self : OrchestrationHelper) : string :=
  unlines
    [ "";
      "                    The final summary for " ++ model self ++ " is:";
      "";
      "                    " ++ final_summary self;
      "                    " ].

End Helper.

(* ===================================================================== *)
(** ** orchestrator.py *)

Module Orchestrator.
Import PyStr PyNum Pricing World Eval Helper.

(** What the model loop accumulates. *)
Record acc : Type := {
  results_list : list row;
  evaluation_results : string;
  score_rubric_list : list (list (string * string))
}.

(** The six blocks of the loop body, in their order: the family name
    looked for in the identifier, and the adapter the block calls. *)
Definition blocks : list (string * adapter) :=
  [ ("anthropic", invoke_anthropic);
    ("mistral", invoke_mistral);
    ("meta", invoke_meta);
    ("cohere", invoke_cohere);
    ("amazon", invoke_amazon);
    ("ai21", invoke_AI21) ].

(** The test that makes the loop pass over an identifier. *)
Definition skipped (model : string) : bool :=
  contains "stability" model || contains "embed" model.

(** The blocks whose family name occurs in an identifier. *)
Definition named_blocks (model : string) : list (string * adapter) :=
  List.filter (fun b => contains b.1 model) blocks.

(** An identifier that is not passed over and names a family. *)
Definition evaluated (model : string) : bool :=
  negb (skipped model) && (0 <? length (named_blocks model))%nat.

(** The rows an identifier gets, by the identifier in their [Model]
    field: one per block that names a family of it, unless passed over. *)
Definition rows_of (model : string) : list string :=
  if skipped model then [] else replicate (length (named_blocks model)) model.

(** The accumulators before the first identifier. *)
Definition no_rows : acc :=
  {| results_list := []; evaluation_results := ""; score_rubric_list := [] |}.

(** What a run may do once the rubric is generated: read the timer, call
    a vendor, and grade, the task grader with the given task, criteria
    and grading scale. *)
Definition after_rubric (task criteria grading : string) (ev : event) : Prop :=
  match ev with
  | ExtractText _ | GenerateRubric _ => False
  | Grade (eval_model_task t c g) _ _ _ =>
      t = task /\ c = criteria /\ g = grading
  | _ => True
  end.

Section Run.
Variable E : world.

Definition text_extraction (pdf_path : string) : M string :=
  call (ExtractText pdf_path) (fun l => pdf_text E l pdf_path).

Definition timer : M float :=
  call ReadTimer (fun l => ret (clock E l)).

Definition invoke (a : adapter) (model_id prompt prompt_context max_tokens : string)
    : M (string * Z * Z) :=
  call (InvokeModel a model_id prompt prompt_context max_tokens)
       (fun l => vendor E l a model_id prompt prompt_context max_tokens).

Section Loop.
Variables (input_text_data prompt max_tokens : string).
Variables (dynamic_evaluation_criteria dynamic_grading_scale : string).

(** The body of one block (the six are the same but for the adapter). *)
Definition block_body (a : adapter) (model : string) (st : acc) : M acc :=
  let character_count := len input_text_data in
  (let* start := timer in
   let* '(summary_invoke_response, input_token_count, output_token_count) :=
     invoke a model prompt input_text_data max_tokens in
   let* end_ := timer in
   let time_length := float_round (end_ - start)%float 2 in
   let* char_process_time :=
     lift (truediv (Int character_count) (Float time_length)) in
   let* '(input_cost, output_cost, total_cost, total_cost_1000) :=
     lift (calculate_total_price input_token_count output_token_count model) in
   let* '(final_score, final_summary, final_score_rubric) :=
     evaluate_model_output_orchestrator E input_text_data model
       summary_invoke_response prompt
       dynamic_evaluation_criteria dynamic_grading_scale in
   let result :=
     {| Helper.model := model;
        time_length := time_length;
        character_count := character_count;
        char_process_time := char_process_time;
        input_cost := input_cost;
        output_cost := output_cost;
        total_cost := total_cost;
        total_cost_1000 := total_cost_1000;
        final_score := final_score;
        summary_invoke_response := summary_invoke_response;
        final_summary := final_summary |} in
   mret
     {| results_list := (results_list st ++ [format result])%list;
        evaluation_results :=
          evaluation_results st ++ Helper.evaluation_results result;
        score_rubric_list :=
          (score_rubric_list st ++ [final_score_rubric])%list |})%M.

(** One [if "family" in model:] block. *)
Definition block (model : string) (st : acc) (b : string * adapter) : M acc :=
  if contains (fst b) model then block_body (snd b) model st else mret st.

(** The body of [for model in models:]. *)
Definition loop_body (st : acc) (model : string) : M acc :=
  if contains "stability" model || contains "embed" model then mret st
  else foldM (block model) st blocks.

End Loop.

(** [final_evaluator] from its first line to the end of
    [for model in models:] (lines 31 to 259): the extraction, the rubric
    and the model loop, which leave the three accumulators.  What follows
    in the source works on them; it is [Report.final_evaluator]. *)
Definition model_loop (pdf_path : string) (models : list string)
    (task_prompt max_tokens : string) : M acc :=
  (let* input_text_data := text_extraction pdf_path in
   let prompt := task_prompt in
   let* '(dynamic_evaluation_criteria, dynamic_grading_scale) :=
     dynamic_grading_criteria E prompt in
   foldM (loop_body input_text_data prompt max_tokens
            dynamic_evaluation_criteria dynamic_grading_scale)
         {| results_list := []; evaluation_results := "";
            score_rubric_list := [] |}
         models)%M.


End Run.

End Orchestrator.

(* ===================================================================== *)
(** ** The specification's vocabulary, and worlds to run the code in *)

Module Sample.
Import PyStr PyNum World.

(** The nine dimension names as the specification lists them. *)
Definition spec_dimension_names : list string :=
  [ "completeness"; "accuracy"; "flow"; "structure"; "conciseness";
    "clarity"; "objectivity"; "tone"; "task" ].

(** The keys of the score map, as [evaluate_model_output_orchestrator]
    writes them. *)
Definition score_map_keys : list string :=
  [ "model_name"; "model_completeness_score"; "model_accuracy_score";
    "model_flow_score"; "model_structure_score";
    "model_conciseness_score"; "model_clarity_score";
    "model_objectivity_score"; "model_tone_score"; "model_task_score" ].

(** [n] nines in a row: a decimal literal of [n] digits. *)
Fixpoint nines (n : nat) : string :=
  match n with
  | O => EmptyString
  | S n' => String "9"%char (nines n')
  end.

(** A float from a short natural number. *)
Definition float_of_nat (n : nat) : float :=
  PrimFloat.of_uint63 (Uint63.of_Z (Z.of_nat n)).

(** A world that always answers: a short document, a rubric in its two
    tagged regions, a clock that advances half a second per event,
    vendors that return a summary with 1000 and 200 tokens, and a
    scoring model that grades 5 everywhere but 4 on the task. *)
Definition steady : world :=
  {| pdf_text := fun _ _ => inr "A short document.";
     rubric_reply := fun _ _ =>
       inr "<evaluation_criteria>crit</evaluation_criteria> and <evaluation_grading>scale</evaluation_grading>";
     clock := fun l => (float_of_nat (length l) / 2)%float;
     vendor := fun _ _ _ _ _ _ => inr ("A summary.", 1000, 200);
     judge_reply := fun _ g _ _ _ =>
       inr match g with
           | eval_model_task _ _ _ => "<thoughts>fine</thoughts><score>4</score>"
           | _ => "<thoughts>good</thoughts> <score>5</score>"
           end;
     completion := fun _ => [3; 1; 4; 1; 5; 9; 2; 6; 5]%nat |}.

(** The same world with a scoring model that leaves the score out of its
    reply on the task. *)
Definition silent : world :=
  {| pdf_text := pdf_text steady;
     rubric_reply := rubric_reply steady;
     clock := clock steady;
     vendor := vendor steady;
     judge_reply := fun _ g _ _ _ =>
       inr match g with
           | eval_model_task _ _ _ => "<thoughts>unsure</thoughts>"
           | _ => "<thoughts>good</thoughts> <score>5</score>"
           end;
     completion := fun _ => [8; 7; 6; 5; 4; 3; 2; 1; 0]%nat |}.


End Sample.

(* ===================================================================== *)
(** ** Counting the calls of a run *)

Module Calls.
Import World Orchestrator.

(** The graders in the order [evaluate_model_output_orchestrator] hands
    them to [asyncio.gather]. *)
Definition nine_graders (task criteria grading : string) : list grader :=
  [ eval_model_accuracy; eval_model_completeness; eval_model_flow;
    eval_model_structure; eval_model_conciseness; eval_model_clarity;
    eval_model_objectivity; eval_model_tone;
    eval_model_task task criteria grading ].

Definition is_invoke (ev : event) : bool :=
  match ev with InvokeModel _ _ _ _ _ => true | _ => false end.
Definition is_grade (ev : event) : bool :=
  match ev with Grade _ _ _ _ => true | _ => false end.
Definition is_timer (ev : event) : bool :=
  match ev with ReadTimer => true | _ => false end.

(** The number of events of a kind in a log. *)
Definition count (p : event -> bool) (l : log) : nat :=
  length (List.filter p l).

(** A call that answers [a] whatever the log. *)
Definition answers {A} (c : M A) (a : A) : Prop :=
  forall l, (c l).2 = inr a.

(** The results are kept in the order of the positions of their calls. *)
Definition before {A} (x y : nat * A) : Prop := (x.1 < y.1)%nat.

(** What a loop adds to the log, per row it adds. *)
Definition in_step (st st' : acc) (l l' : log) : Prop :=
  let rows := (length (results_list st') - length (results_list st))%nat in
  (length (results_list st) <= length (results_list st'))%nat
  /\ count is_invoke l' = (count is_invoke l + rows)%nat
  /\ count is_grade l' = (count is_grade l + 9 * rows)%nat
  /\ count is_timer l' = (count is_timer l + 2 * rows)%nat
  /\ length l' = (length l + 12 * rows)%nat.

End Calls.

(* ===================================================================== *)
(** ** app.py *)

Module Ui.

(** The identifiers the model selection box offers. *)
Definition model_options : list string :=
  [ "anthropic.claude-instant-v1"; "anthropic.claude-v2";
    "anthropic.claude-v2:1";
    "anthropic.claude-3-haiku-20240307-v1:0";
    "anthropic.claude-3-sonnet-20240229-v1:0";
    "mistral.mistral-7b-instruct-v0:2";
    "mistral.mixtral-8x7b-instruct-v0:1";
    "mistral.mistral-large-2402-v1:0";
    "meta.llama2-13b-chat-v1";
    "meta.llama2-70b-chat-v1";
    "meta.llama3-8b-instruct-v1:0";
    "meta.llama3-70b-instruct-v1:0";
    "cohere.command-text-v14";
    "cohere.command-light-text-v14";
    "amazon.titan-text-lite-v1";
    "amazon.titan-text-express-v1";
    "ai21.j2-mid-v1";
    "ai21.j2-ultra-v1" ].

End Ui.

(* ===================================================================== *)
(** ** plotting_and_reporting.py: the column checks *)

Module Plots.

(** [required_columns] of [plot_model_performance_comparisons]. *)
Definition performance_columns : list string :=
  [ "model_name"; "model_completeness_score"; "model_flow_score";
    "model_structure_score"; "model_conciseness_score";
    "model_clarity_score"; "model_objectivity_score";
    "model_tone_score"; "model_task_score" ].

(** The columns of [pd.DataFrame(rows)] for a list of dictionaries: the
    keys, each once, in the order they first appear. *)
Definition columns (rows : list (list (string * string))) : list string :=
  remove_dups (concat (map (map fst) rows)).

(** [required_columns - set(results_df.columns)] *)
Definition missing_cols (required cols : list string) : list string :=
  List.filter (fun c => negb (bool_decide (c ∈ cols))) required.

(** The check both plot functions open with:
    [if not required_columns.issubset(results_df.columns): raise ValueError]. *)
Definition check_columns (required cols : list string) : res unit :=
  if forallb (fun c => bool_decide (c ∈ cols)) required then ret tt
  else raise ValueError.

(** [metrics = list(required_columns - {'model_name'})], as a set. *)
Definition metrics : list string :=
  List.filter (fun c => negb (String.eqb c "model_name")) performance_columns.

End Plots.

(* ===================================================================== *)
(** ** The two tables of a run *)

Module Tables.
Import PyStr PyNum Pricing Eval Helper Orchestrator Sample.

(** The nine score strings of a score map, in the order of its keys. *)
Definition scores_of (score_map : list (string * string)) : list string :=
  (drop 1 score_map).*2.

(** A row of the results table and a row of the score table that are
    about the same evaluation: the score map has the ten keys, names the
    model of the row, and the row's [Summary Score] is the sum of the
    nine scores of the map, as a float, over [9.0]. *)
Definition agree (r : row) (score_map : list (string * string)) : Prop :=
  score_map.*1 = score_map_keys
  /\ score_map !! 0%nat = Some ("model_name", Model r)
  /\ exists ns f,
       Forall2 (fun s n => int s = inr n) (scores_of score_map) ns
       /\ float_of_int (total ns) = inr f
       /\ Summary_Score r = Float (f / 9).

(** The columns of a row that are computed from the text and from the
    vendor call are consistent with each other. *)
Definition consistent (text : string) (r : row) : Prop :=
  Character_Count r = len text
  /\ PrimFloat.eqb (Time_Length r) 0 = false
  /\ truediv (Int (Character_Count r)) (Float (Time_Length r))
     = inr (Char_Process_Time r)
  /\ exists input_tokens output_tokens,
       calculate_total_price input_tokens output_tokens (Model r)
       = inr (Input_Cost r, Output_Cost r, Total_Cost r, Total_Cost_1000 r).

(** What is checked of an identifier the front end offers: it is not
    passed over, one block names its family, and both tables price
    it. *)
Definition offered_ok (m : string) : bool :=
  negb (skipped m) && (length (named_blocks m) =? 1)%nat
  && bool_decide (is_Some (model_input_token_prices !! m))
  && bool_decide (is_Some (model_output_token_prices !! m)).

(** A score on the scale the grading prompts ask for. *)
Definition in_scale (n : Z) : Prop := 0 <= n <= 5.

(** What is checked of the final score for a sum [t] of nine scores: it
    is a float between 0 and 5, 5 only for 45 and 0 only for 0. *)
Definition scale_ok (t : Z) : bool :=
  match float_of_int t with
  | inr x =>
      let f := (x / 9)%float in
      PrimFloat.leb 0 f && PrimFloat.leb f 5
      && Bool.eqb (PrimFloat.eqb f 5) (t =? 45)
      && Bool.eqb (PrimFloat.eqb f 0) (t =? 0)
  | inl _ => false
  end.

(** What is checked of the final scores for two sums: they compare as
    the sums do. *)
Definition rank_ok (t1 t2 : Z) : bool :=
  match float_of_int t1, float_of_int t2 with
  | inr x1, inr x2 =>
      Bool.eqb (PrimFloat.ltb (x1 / 9) (x2 / 9)) (t1 <? t2)
      && Bool.eqb (PrimFloat.eqb (x1 / 9) (x2 / 9)) (t1 =? t2)
  | _, _ => false
  end.

(** The sums nine scores on the scale can have. *)
Definition sums : list Z := map Z.of_nat (seq 0 46).

(** In a task grading call the criteria and the grading scale are
    empty. *)
Definition task_unguided (ev : World.event) : Prop :=
  match ev with
  | World.Grade (World.eval_model_task _ c g) _ _ _ =>
      c = EmptyString /\ g = EmptyString
  | _ => True
  end.

End Tables.

(* ===================================================================== *)
(** ** orchestrator.py: the report after the model loop *)

Module Report.
Import PyStr PyNum World Helper Orchestrator Plots.

(** The keys of the dictionary [format] returns. *)
Definition format_keys : list string :=
  [ "Model"; "Time Length"; "Character Count"; "Char Process Time";
    "Input Cost"; "Output Cost"; "Total Cost"; "Total Cost(1000)";
    "Summary Score"; "Invoke Response" ].

(** The columns of [pd.DataFrame(results_list)]: the keys of the rows,
    and none when there is no row. *)
Definition results_columns (rows : list row) : list string :=
  match rows with [] => [] | _ :: _ => format_keys end.

(** [df[[label, ...]]]: [KeyError] when a label is not a column. *)
Definition select_columns (cols labels : list string) : res unit :=
  if forallb (fun c => bool_decide (c ∈ cols)) labels then ret tt
  else raise KeyError.

Definition is_int (a : num) : bool :=
  match a with Int _ => true | Float _ => false end.

Definition float64 (a : num) : float :=
  match a with
  | Int n => SF2Prim (binary_normalize prec emax n 0 false)
  | Float x => x
  end.

(** A value of a numeric column as the table holds it: the column is of
    ints when every value is an int ([all_int]), and of floats
    otherwise.  (The int costs of a run are 0; an int beyond the range of
    a float, which no run produces, is not what this describes.) *)
Definition held (all_int : bool) (a : num) : num :=
  if all_int then a else Float (float64 a).

Definition all_int (f : row -> num) (rows : list row) : bool :=
  forallb (fun r => is_int (f r)) rows.

(** [pd.DataFrame(results_list)] *)
Definition DataFrame (rows : list row) : list row :=
  map (fun r =>
         {| Model := Model r;
            Time_Length := Time_Length r;
            Character_Count := Character_Count r;
            Char_Process_Time :=
              held (all_int Char_Process_Time rows) (Char_Process_Time r);
            Input_Cost := held (all_int Input_Cost rows) (Input_Cost r);
            Output_Cost := held (all_int Output_Cost rows) (Output_Cost r);
            Total_Cost := held (all_int Total_Cost rows) (Total_Cost r);
            Total_Cost_1000 :=
              held (all_int Total_Cost_1000 rows) (Total_Cost_1000 r);
            Summary_Score :=
              held (all_int Summary_Score rows) (Summary_Score r);
            Invoke_Response := Invoke_Response r |})
      rows.

Definition times_1000 (a : num) : num :=
  match a with
  | Int n => Int (n * 1000)
  | Float x => Float (x * 1000)
  end.

(** [results_df['Total Cost'] *= 1000] *)
Definition scale_total_cost (df : list row) : list row :=
  map (fun r =>
         {| Model := Model r;
            Time_Length := Time_Length r;
            Character_Count := Character_Count r;
            Char_Process_Time := Char_Process_Time r;
            Input_Cost := Input_Cost r;
            Output_Cost := Output_Cost r;
            Total_Cost := times_1000 (Total_Cost r);
            Total_Cost_1000 := Total_Cost_1000 r;
            Summary_Score := Summary_Score r;
            Invoke_Response := Invoke_Response r |})
      df.

(** [required_columns] of [plot_model_comparisons]. *)
Definition comparison_columns : list string :=
  [ "Model"; "Total Cost(1000)"; "Time Length"; "Summary Score" ].

(** What the report needs from outside the process; each answers or
    raises.  The CSV text sent to the scoring model is a rendering of
    the table, so the reply is asked for the table. *)
Record reporter : Type := {
  (* results_df.to_csv(file_path, index=False) *)
  to_csv : list row -> res unit;
  (* the answer of the scoring model in evaluate_model_performance *)
  performance_reply : list row -> string -> res string;
  (* the three bar charts of plot_model_comparisons and their file *)
  draw_comparisons : list row -> res unit;
  (* the grouped bar chart of plot_model_performance_comparisons *)
  draw_performance : list (list (string * string)) -> res unit;
  (* the file of write_evaluation_results: the text, the eval_name *)
  write_file : string -> string -> res unit
}.

Section Report.
Variable R : reporter.

Definition evaluate_model_performance (df : list row) (model_id : string)
    : res string :=
  performance_reply R df model_id.

Definition plot_model_comparisons (results_df : list row) : res unit :=
  (let* _ := check_columns comparison_columns (results_columns results_df) in
   draw_comparisons R results_df)%res.

Definition plot_model_performance_comparisons
    (results_df : list (list (string * string))) : res unit :=
  (let* _ := check_columns performance_columns (columns results_df) in
   draw_performance R results_df)%res.

Definition write_evaluation_results (evaluation_results eval_name : string)
    : res unit :=
  write_file R evaluation_results eval_name.

(** [final_evaluator] from the end of the model loop to its [return]
    (lines 260 to 295). *)
Definition report (st : acc)
    : res (list row * string * string * list (list (string * string))) :=
  (let score_rubric_df := score_rubric_list st in
   let results_df := DataFrame (results_list st) in
   let* _ :=
     select_columns (results_columns results_df)
       [ "Model"; "Time Length"; "Total Cost"; "Summary Score" ] in
   let results_df := scale_total_cost results_df in
   let* _ := to_csv R results_df in
   let* invoke_costs_eval_response :=
     evaluate_model_performance results_df
       "anthropic.claude-3-sonnet-20240229-v1:0" in
   let* _ := plot_model_comparisons results_df in
   let* _ := plot_model_performance_comparisons score_rubric_df in
   let* _ :=
     write_evaluation_results (Orchestrator.evaluation_results st) "summary" in
   let* _ := write_evaluation_results invoke_costs_eval_response "cost" in
   ret (results_df, Orchestrator.evaluation_results st,
        invoke_costs_eval_response, score_rubric_df))%res.

(** [final_evaluator(pdf_path, models, task_prompt, max_tokens)] *)
Definition final_evaluator (E : world) (pdf_path : string)
    (models : list string) (task_prompt max_tokens : string)
    : M (list row * string * string * list (list (string * string))) :=
  (let* st := model_loop E pdf_path models task_prompt max_tokens in
   lift (report st))%M.

End Report.

(** A reporter for which every file is written, every chart drawn, and
    the scoring model answers. *)
Definition obliging : reporter :=
  {| to_csv := fun _ => ret tt;
     performance_reply := fun _ _ => ret "The models compare as follows.";
     draw_comparisons := fun _ => ret tt;
     draw_performance := fun _ => ret tt;
     write_file := fun _ _ => ret tt |}.

End Report.

(* ===================================================================== *)
(** ** More worlds to run in *)

Module Cases.
Import World Sample.

(** The steady world with a scoring model that answers the rubric
    request in prose, without the two elements. *)
Definition untagged : world :=
  {| pdf_text := pdf_text steady;
     rubric_reply := fun _ _ => inr "Judge the summary on its merits.";
     clock := clock steady;
     vendor := vendor steady;
     judge_reply := judge_reply steady;
     completion := completion steady |}.

End Cases.

(* ===================================================================== *)
(** ** Contents with elements inside, and the reply of a grader *)

Module Nested.
Import PyStr Xml.

(** A piece of a content: a text without [<], or an element
    [<u>v</x>]. *)
Inductive piece : Type :=
  | Txt (t : string)
  | Elem (u v x : string).

Definition render (p : piece) : string :=
  match p with
  | Txt t => t
  | Elem u v x => "<" ++ u ++ ">" ++ v ++ "</" ++ x ++ ">"
  end.

(** No character of [s] is [c]. *)
Definition lacks (c : ascii) (s : string) : bool :=
  forallb (fun a => negb (bool_decide (a = c))) (chars s).

(** The pieces the pattern of [parse_xml] takes in one round each: a
    text without [<]; an element whose opening holds no [/] and no [>],
    whose text holds no [<] and whose closing holds no [>]. *)
Definition piece_ok (p : piece) : bool :=
  match p with
  | Txt t => no_lt t
  | Elem u v x => lacks "/" u && lacks ">" u && no_lt v && lacks ">" x
  end.

Fixpoint content (ps : list piece) : string :=
  match ps with
  | [] => EmptyString
  | p :: ps' => render p ++ content ps'
  end.

(** The characters of an element. *)
Definition elem_chars (u v x : list ascii) : list ascii :=
  (lt_char :: u ++ ">"%char :: v ++ lt_char :: "/"%char :: x ++ [">"%char])%list.

(** The characters of a piece and of a content. *)
Definition piece_chars (p : piece) : list ascii :=
  match p with
  | Txt t => chars t
  | Elem u v x => elem_chars (chars u) (chars v) (chars x)
  end.

(** With [b] rounds to go at least, the repeat of the pattern of
    [parse_xml], started at [s], ends at the closing delimiter before
    [rest]. *)
Definition done_from (len : nat) (tag rest : list ascii) (b : nat)
    (s : list ascii) : Prop :=
  forall n, (b <= n)%nat ->
    Re.m_until (Re.m (A:=list ascii) len (Re.Alt element text))
      (fun s => Re.m_lit (close_tag tag) s Some) n s = Some rest.

(** What follows a gap: nothing, or a text that starts with [<]. *)
Definition opens (s : list ascii) : Prop :=
  s = [] \/ exists s', s = lt_char :: s'.

(** The contents of the regions of a text. *)
Definition contents_of (segs : list (list ascii * list piece))
    : list (list ascii) :=
  map (fun gp => concat (map piece_chars gp.2)) segs.

(** The regions of a text, with the contents written out. *)
Definition regions_of (regions : list (string * list piece))
    : list (string * string) :=
  map (fun gp => (gp.1, content gp.2)) regions.

(** A reply with the thoughts and then the score, each in its
    element. *)
Definition reply (pre thoughts mid score post : string) : string :=
  pre ++ "<thoughts>" ++ thoughts ++ "</thoughts>" ++ mid
  ++ "<score>" ++ score ++ "</score>" ++ post.

End Nested.

(* ===================================================================== *)
(** ** A [<] that opens nothing *)

Module Stray.
Import PyStr Xml.

(** What is left of a region at a [<] that opens nothing: the [<], a
    text [b], the closing delimiter and the rest. *)
Definition stuck (tag b tail : list ascii) : list ascii :=
  (lt_char :: b ++ close_tag tag ++ tail)%list.

(** A region whose content holds such a [<], in a text. *)
Definition stray (tag gap a b tail : string) : string :=
  gap ++ "<" ++ tag ++ ">" ++ a ++ "<" ++ b ++ "</" ++ tag ++ ">" ++ tail.

End Stray.

(* ===================================================================== *)
(** * Properties *)

(* ===================================================================== *)
(** ** Strings *)

Module PyStrFacts.
Import PyStr.

Lemma chars_str l : chars (str l) = l.
Proof. apply list_ascii_of_string_of_list_ascii. Qed.

Lemma str_chars s : str (chars s) = s.
Proof. apply string_of_list_ascii_of_string. Qed.

Lemma chars_app s t : chars (s ++ t) = (chars s ++ chars t)%list.
Proof. induction s as [|c s IH]; simpl; [done|]. by rewrite IH. Qed.

Lemma is_prefix_spec p l : is_prefix p l = true <-> exists r, l = (p ++ r)%list.
Proof.
  revert l. induction p as [|a p IH]; intros l; simpl.
  - split; [eauto|done].
  - destruct l as [|b l].
    + split; [done|]. by intros [r Hr].
    + destruct (decide (a = b)) as [->|Hab].
      * rewrite IH. split; intros [r Hr]; exists r; simpl in *; congruence.
      * split; [done|]. intros [r Hr]. simpl in Hr. congruence.
Qed.

Lemma is_prefix_app p r : is_prefix p (p ++ r) = true.
Proof. apply is_prefix_spec. eauto. Qed.

Lemma occurs_spec n h :
  occurs n h = true <-> exists a b, h = (a ++ n ++ b)%list.
Proof.
  induction h as [|c h IH]; simpl.
  - rewrite orb_false_r, is_prefix_spec. split.
    + intros [r Hr]. exists [], r. done.
    + intros (a & b & Hab). symmetry in Hab.
      apply app_eq_nil in Hab as [-> Hab]. apply app_eq_nil in Hab as [-> ->].
      by exists [].
  - rewrite orb_true_iff, IH, is_prefix_spec. split.
    + intros [[r Hr]|(a & b & Hab)].
      * exists [], r. done.
      * exists (c :: a), b. simpl. congruence.
    + intros (a & b & Hab). destruct a as [|c' a]; simpl in Hab.
      * left. eauto.
      * right. exists a, b. congruence.
Qed.

Lemma str_app l1 l2 : str (l1 ++ l2) = str l1 ++ str l2.
Proof. induction l1 as [|c l1 IH]; simpl; [done|]. by rewrite IH. Qed.

(** [needle in hay], read on the strings themselves. *)
Lemma contains_spec needle hay :
  contains needle hay = true <-> exists a b, hay = a ++ needle ++ b.
Proof.
  unfold contains. rewrite occurs_spec. split.
  - intros (a & b & Hab). exists (str a), (str b).
    by rewrite <- (str_chars hay), Hab, !str_app, str_chars.
  - intros (a & b & ->). exists (chars a), (chars b).
    by rewrite !chars_app.
Qed.

Lemma occurs_false_tail n c h : occurs n (c :: h) = false -> occurs n h = false.
Proof. simpl. intros H. apply orb_false_iff in H. tauto. Qed.

Lemma occurs_false_prefix n h : occurs n h = false -> is_prefix n h = false.
Proof. destruct h; simpl; intros H; apply orb_false_iff in H; tauto. Qed.

End PyStrFacts.

(* ===================================================================== *)
(** ** The matcher on the patterns of [parse_xml] *)

Module XmlFacts.
Import PyStr PyStrFacts Re Xml.
Local Open Scope list_scope.

Lemma m_lit_app {A} l s (k : cont A) : m_lit l (l ++ s) k = k s.
Proof. unfold m_lit. by rewrite is_prefix_app, drop_app_length. Qed.

Lemma m_lit_fail {A} l s (k : cont A) :
  is_prefix l s = false -> m_lit l s k = None.
Proof. unfold m_lit. by intros ->. Qed.

Lemma close_tag_cons tag :
  close_tag tag = lt_char :: "/"%char :: (tag ++ [">"%char])%list.
Proof. done. Qed.

Lemma open_tag_cons tag : open_tag tag = lt_char :: (tag ++ [">"%char])%list.
Proof. done. Qed.

Lemma is_prefix_head a b p l : a <> b -> is_prefix (a :: p) (b :: l) = false.
Proof. intros Hab. simpl. by destruct (decide (a = b)). Qed.

(** An element cannot start at the closing delimiter... *)
Lemma element_fail_close {A} len tag rest (k : cont A) :
  m len element (close_tag tag ++ rest) k = None.
Proof. done. Qed.

(** ... nor at a character other than [<]. *)
Lemma element_fail_other {A} len a s (k : cont A) :
  a <> lt_char -> m len element (a :: s) k = None.
Proof.
  intros Ha. unfold element. simpl. unfold m_one. simpl.
  by rewrite bool_decide_eq_false_2.
Qed.

Lemma m_until_eq {A} (body : list ascii -> cont A -> option A) k n s1 :
  m_until body k n s1 =
  orelse
    (body s1 (fun s2 =>
       match n with
       | S n' =>
           if (length s2 <? length s1)%nat then m_until body k n' s2
           else k s2
       | O => k s2
       end))
    (k s1).
Proof. by destruct n. Qed.

Lemma m_lazy_eq {A} i s (k : cont A) :
  m_lazy i s k =
  orelse (k s)
    match s with
    | c :: s' => if item_ok i c then m_lazy i s' k else None
    | [] => None
    end.
Proof. by destruct s. Qed.

Lemma m_alt_eq {A} len r1 r2 s (k : cont A) :
  m len (Alt r1 r2) s k = orelse (m len r1 s k) (m len r2 s k).
Proof. done. Qed.

(** A match hands to its continuation a suffix of what it was given. *)
Lemma m_until_sound {A} (body : list ascii -> cont A -> option A)
    (k : cont A) x :
  (forall s k', body s k' = Some x ->
                exists s', s' `suffix_of` s /\ k' s' = Some x) ->
  forall n s1, m_until body k n s1 = Some x ->
               exists s', s' `suffix_of` s1 /\ k s' = Some x.
Proof.
  intros Hbody n. induction n as [|n IH]; intros s1; rewrite m_until_eq;
    (destruct (body s1 _) as [y|] eqn:Hb; cbn [orelse];
     [intros [= ->]|by intros Hk; exists s1]);
    apply Hbody in Hb as (s2 & Hs2 & Hk).
  - by exists s2.
  - destruct (length s2 <? length s1)%nat.
    + apply IH in Hk as (s' & Hs' & Hk). exists s'. split; [|done].
      by etrans.
    + by exists s2.
Qed.

Lemma m_sound {A} len r s (k : cont A) x :
  m len r s k = Some x -> exists s', s' `suffix_of` s /\ k s' = Some x.
Proof.
  revert s k. induction r as [l|i|i|r1 IH1 r2 IH2|r1 IH1 r2 IH2|r IH| |];
    intros s k; cbn [m].
  - unfold m_lit. destruct (is_prefix l s); [|done].
    intros Hk. eexists. split; [apply suffix_drop|done].
  - destruct s as [|c s]; [done|]. cbn [m_one].
    destruct (item_ok i c); [|done]. intros Hk. exists s.
    split; [by apply suffix_cons_r|done].
  - induction s as [|c s IHs]; rewrite m_lazy_eq;
      (destruct (k _) as [y|] eqn:Hk; cbn [orelse];
       [intros [= ->]; by eexists|]); [done|].
    destruct (item_ok i c); [|done]. intros H.
    apply IHs in H as (s' & Hs' & H). exists s'.
    split; [by apply suffix_cons_r|done].
  - intros H. apply IH1 in H as (s1 & Hs1 & H).
    apply IH2 in H as (s2 & Hs2 & H). exists s2. split; [by etrans|done].
  - destruct (m len r1 s k) as [y|] eqn:H1; cbn [orelse].
    + intros [= ->]. by apply IH1.
    + apply IH2.
  - unfold m_plus. intros H. apply IH in H as (s1 & Hs1 & H).
    apply m_until_sound in H as (s2 & Hs2 & H); [|by intros; apply IH].
    exists s2. split; [by etrans|done].
  - destruct (_ =? _)%nat; [|done]. by exists s.
  - destruct s as [|c [|c' s]]; [by exists []| |done].
    destruct (bool_decide _); [|done]. by eexists.
Qed.

Lemma m_fail {A} len r s (k : cont A) :
  (forall s', s' `suffix_of` s -> k s' = None) -> m len r s k = None.
Proof.
  intros Hk. destruct (m len r s k) as [x|] eqn:Hm; [|done].
  apply m_sound in Hm as (s' & Hs' & Hm). by rewrite Hk in Hm.
Qed.

Section Body.
Context (len : nat) (tag rest : list ascii).

Let body : list ascii -> cont (list ascii) -> option (list ascii) :=
  m len (Alt element text).
Let k : cont (list ascii) := fun s => m_lit (close_tag tag) s Some.

Lemma k_close : k (close_tag tag ++ rest) = Some rest.
Proof. unfold k. by rewrite m_lit_app. Qed.

Lemma k_other a s : a <> lt_char -> k (a :: s) = None.
Proof.
  intros Ha. unfold k. apply m_lit_fail. rewrite close_tag_cons.
  apply is_prefix_head. done.
Qed.

(** After any round, a flat text up to the closing delimiter is taken one
    character per round, and the closing delimiter ends the repeat. *)
Lemma until_flat c n :
  flat c -> (length c <= n)%nat ->
  m_until body k n (c ++ close_tag tag ++ rest) = Some rest.
Proof.
  intros Hc. revert n. induction Hc as [|a c Ha Hc IH]; intros n Hn.
  - rewrite m_until_eq. unfold body at 1. rewrite m_alt_eq.
    change ([] ++ close_tag tag ++ rest) with (close_tag tag ++ rest).
    rewrite element_fail_close. unfold text, m. rewrite m_lazy_eq.
    rewrite Nat.ltb_irrefl. 
    assert (Hk : k (close_tag tag ++ rest) = Some rest) by apply k_close.
    destruct n; rewrite Hk; done.
  - destruct n as [|n]; [simpl in Hn; lia|].
    change ((a :: c) ++ close_tag tag ++ rest)
      with (a :: (c ++ close_tag tag ++ rest)).
    set (s := c ++ close_tag tag ++ rest) in *.
    rewrite m_until_eq. unfold body at 1. rewrite m_alt_eq.
    rewrite element_fail_other by done. unfold text, m.
    rewrite m_lazy_eq, Nat.ltb_irrefl, k_other by done.
    unfold item_ok. unfold lt_char in Ha.
    rewrite bool_decide_eq_false_2 by done.
    rewrite m_lazy_eq.
    replace (length s <? length (a :: s))%nat with true
      by (symmetry; apply Nat.ltb_lt; simpl; lia).
    rewrite IH by (simpl in Hn; lia). done.
Qed.

Lemma plus_flat c :
  flat c ->
  m_plus body (c ++ close_tag tag ++ rest) k = Some rest.
Proof.
  intros Hc. unfold m_plus. unfold body at 1. rewrite m_alt_eq.
  assert (Hel : m len element (c ++ close_tag tag ++ rest)
                  (fun s1 => m_until body k (length s1) s1) = None).
  { destruct Hc as [|a c Ha Hc]; [apply element_fail_close|].
    by apply element_fail_other. }
  rewrite Hel. unfold text, m. rewrite m_lazy_eq.
  rewrite until_flat; [done..|]. rewrite !length_app. lia.
Qed.

End Body.

#[local] Arguments open_tag : simpl never.
#[local] Arguments close_tag : simpl never.
#[local] Arguments wrap : simpl never.

Lemma pattern_eq {A} len tag s (k : cont A) :
  m len (pattern tag) s k =
  m_lit (open_tag tag) s (fun s1 =>
    m_plus (m len (Alt element text)) s1 (fun s2 =>
      m_lit (close_tag tag) s2 k)).
Proof. done. Qed.

(** The pattern matches a flat content with its two delimiters, whole. *)
Lemma match_at_wrap len tag c rest :
  flat c ->
  match_at len (pattern tag) (wrap tag c ++ rest)
  = Some (length (wrap tag c)).
Proof.
  intros Hc. unfold match_at, wrap. rewrite pattern_eq.
  rewrite <- !app_assoc, m_lit_app, plus_flat by done.
  cbn [fmap option_fmap option_map]. f_equal. rewrite !length_app. lia.
Qed.

Lemma match_at_other len tag a s :
  a <> lt_char -> match_at len (pattern tag) (a :: s) = None.
Proof.
  intros Ha. unfold match_at. rewrite pattern_eq, m_lit_fail; [done|].
  rewrite open_tag_cons. apply is_prefix_head. done.
Qed.

Lemma scan_all_eq len r s :
  scan_all len r s 0 =
  match match_at len r s with
  | Some w =>
      take w s ::
      match s with [] => [] | _ :: t => scan_all len r t (w - 1) end
  | None => match s with [] => [] | _ :: t => scan_all len r t 0 end
  end.
Proof. by destruct s. Qed.

Lemma scan_del_eq len r s :
  scan_del len r s 0 =
  match match_at len r s with
  | Some (S w) => match s with [] => [] | _ :: t => scan_del len r t w end
  | _ => match s with [] => [] | c :: t => c :: scan_del len r t 0 end
  end.
Proof. by destruct s. Qed.

Lemma scan_all_skip len r l rest :
  scan_all len r (l ++ rest) (length l) = scan_all len r rest 0.
Proof. induction l as [|a l IH]; simpl; [done|apply IH]. Qed.

Lemma scan_all_flat len tag g s :
  flat g ->
  scan_all len (pattern tag) (g ++ s) 0 = scan_all len (pattern tag) s 0.
Proof.
  induction 1 as [|a g Ha Hg IH]; [done|].
  change ((a :: g) ++ s) with (a :: (g ++ s)).
  rewrite scan_all_eq. by rewrite match_at_other.
Qed.

Lemma scan_all_wrap len tag c rest :
  flat c ->
  scan_all len (pattern tag) (wrap tag c ++ rest) 0
  = wrap tag c :: scan_all len (pattern tag) rest 0.
Proof.
  intros Hc. rewrite scan_all_eq, match_at_wrap by done.
  rewrite take_app_length. f_equal.
  unfold wrap. rewrite open_tag_cons. cbn [app].
  rewrite <- scan_all_skip
    with (l := (tag ++ [">"%char]) ++ c ++ close_tag tag).
  f_equal. cbn [length]. lia.
Qed.

(** What [findall] returns on a text of flat gaps and flat contents. *)
Lemma scan_all_document len tag segs tail :
  Forall (fun gc => flat gc.1 /\ flat gc.2) segs -> flat tail ->
  scan_all len (pattern tag) (document tag segs tail) 0
  = map (fun gc => wrap tag gc.2) segs.
Proof.
  intros Hsegs Htail. induction Hsegs as [|[g c] segs [Hg Hc] _ IH].
  - simpl. rewrite <- (app_nil_r tail), scan_all_flat by done. done.
  - cbn [document map]. simpl in Hg, Hc.
    rewrite scan_all_flat, scan_all_wrap by done. by rewrite IH.
Qed.

Lemma scan_del_skip len r l rest :
  scan_del len r (l ++ rest) (length l) = scan_del len r rest 0.
Proof. induction l as [|a l IH]; simpl; [done|apply IH]. Qed.

Lemma outer_eq {A} len tag s (k : cont A) :
  m len (outer tag) s k =
  orelse (if (length s =? len)%nat then m_lit (open_tag tag) s k else None)
         (m_lit (close_tag tag) s (fun s' => m len Eol s' k)).
Proof. done. Qed.

Lemma last_close_tag tag : last (close_tag tag) = Some ">"%char.
Proof.
  rewrite close_tag_cons.
  change (lt_char :: "/"%char :: tag ++ [">"%char])
    with ((lt_char :: "/"%char :: tag) ++ [">"%char]).
  apply last_snoc.
Qed.

(** Inside a wrapped content the closing delimiter, if it stands there,
    is not at the end of the subject: nothing is deleted. *)
Lemma match_at_outer_inner len tag a t :
  (length (a :: t ++ close_tag tag) < len)%nat ->
  match_at len (outer tag) (a :: t ++ close_tag tag) = None.
Proof.
  intros Hlen. unfold match_at. rewrite outer_eq.
  replace (length (a :: t ++ close_tag tag) =? len)%nat with false
    by (symmetry; apply Nat.eqb_neq; lia).
  cbn [orelse]. unfold m_lit.
  destruct (is_prefix _ _) eqn:Hp; [|done].
  apply is_prefix_spec in Hp as [r Hr]. rewrite Hr, drop_app_length.
  assert (Hlast : last r = Some ">"%char).
  { assert (Hne : r <> []).
    { intros ->. apply (f_equal length) in Hr.
      rewrite app_nil_r in Hr. cbn [length] in Hr.
      rewrite length_app in Hr. lia. }
    apply (f_equal last) in Hr.
    change (a :: t ++ close_tag tag) with ((a :: t) ++ close_tag tag) in Hr.
    rewrite !last_app, last_close_tag in Hr.
    destruct (last r) as [x|] eqn:Hx; [congruence|].
    by apply last_None in Hx. }
  destruct r as [|c [|c' r]]; [done| |done].
  cbn [m]. destruct (bool_decide_reflect (c = "010"%char)) as [->|]; [|done].
  done.
Qed.

Lemma scan_del_inner len tag t :
  (length (t ++ close_tag tag) < len)%nat ->
  scan_del len (outer tag) (t ++ close_tag tag) 0
  = t ++ scan_del len (outer tag) (close_tag tag) 0.
Proof.
  induction t as [|a t IH]; intros Hlen; [done|].
  change ((a :: t) ++ close_tag tag) with (a :: (t ++ close_tag tag)) in *.
  rewrite scan_del_eq, match_at_outer_inner by done.
  cbn [app]. rewrite IH; [done|]. cbn [length] in Hlen. lia.
Qed.

(** Deleting the outer delimiters of a wrapped content leaves the content,
    whatever it is. *)
Lemma sub_empty_wrap tag c : sub_empty (outer tag) (wrap tag c) = c.
Proof.
  unfold sub_empty. set (len := length (wrap tag c)).
  assert (Hlen : len = S (length (tag ++ [">"%char]) + length c
                          + length (close_tag tag))%nat).
  { unfold len, wrap. rewrite open_tag_cons. cbn [app length].
    rewrite !length_app. lia. }
  (* the opening delimiter goes *)
  assert (H0 : match_at len (outer tag) (wrap tag c)
               = Some (S (length (tag ++ [">"%char])))).
  { unfold match_at. rewrite outer_eq. fold len. rewrite Nat.eqb_refl.
    unfold wrap. rewrite m_lit_app.
    cbn [orelse fmap option_fmap option_map]. f_equal.
    rewrite Hlen, !length_app. lia. }
  rewrite scan_del_eq, H0. unfold wrap. rewrite open_tag_cons.
  cbn [app]. rewrite scan_del_skip.
  (* the content stays *)
  rewrite scan_del_inner by (rewrite length_app; lia).
  (* the closing delimiter goes *)
  assert (H1 : match_at len (outer tag) (close_tag tag)
               = Some (length (close_tag tag))).
  { unfold match_at. rewrite outer_eq.
    replace (length (close_tag tag) =? len)%nat with false
      by (symmetry; apply Nat.eqb_neq; lia).
    rewrite <- (app_nil_r (close_tag tag)) at 2.
    rewrite m_lit_app. cbn [m orelse fmap option_fmap option_map].
    f_equal. }
  rewrite scan_del_eq, H1. rewrite close_tag_cons.
  cbn [length].
  rewrite <- (app_nil_r ("/"%char :: tag ++ [">"%char])) at 1.
  rewrite scan_del_skip.
  simpl. by rewrite app_nil_r.
Qed.

Lemma map_sub_empty_wrap tag bodies :
  map (sub_empty (outer tag)) (map (wrap tag) bodies) = bodies.
Proof.
  induction bodies as [|b bodies IH]; [done|].
  cbn [map]. by rewrite sub_empty_wrap, IH.
Qed.

(** Every match of the pattern is a content between the two delimiters. *)
Lemma match_at_pattern_inv len tag s w :
  match_at len (pattern tag) s = Some w ->
  exists b rest, s = wrap tag b ++ rest /\ w = length (wrap tag b).
Proof.
  unfold match_at. destruct (m _ _ _ _) as [s3|] eqn:Hm; [|done].
  intros [= <-]. rewrite pattern_eq in Hm. unfold m_lit at 1 in Hm.
  destruct (is_prefix _ _) eqn:Hp; [|done].
  apply is_prefix_spec in Hp as [s1 ->]. rewrite drop_app_length in Hm.
  change (m_plus (m len (Alt element text)))
    with (m (A:=list ascii) len (Plus (Alt element text))) in Hm.
  apply m_sound in Hm as (s2 & [b ->] & Hm). unfold m_lit in Hm.
  destruct (is_prefix _ _) eqn:Hp; [|done].
  apply is_prefix_spec in Hp as [s3' ->]. rewrite drop_app_length in Hm.
  injection Hm as ->. exists b, s3. unfold wrap. split.
  - by rewrite <- !app_assoc.
  - rewrite !length_app. lia.
Qed.

Lemma scan_all_matches len r s skip :
  Forall (fun mt => exists t w, t `suffix_of` s /\
                                match_at len r t = Some w /\ mt = take w t)
         (scan_all len r s skip).
Proof.
  revert skip. induction s as [|c s IH]; intros skip.
  - destruct skip; cbn [scan_all]; [|done].
    destruct (match_at len r []) as [w|] eqn:Hw; [|done].
    constructor; [by eauto 6|done].
  - assert (Htl : forall j, Forall (fun mt => exists t w,
               t `suffix_of` c :: s /\
               match_at len r t = Some w /\ mt = take w t)
             (scan_all len r s j)).
    { intros j. eapply Forall_impl; [apply IH|].
      intros mt (t & w & Ht & Hw & ->). exists t, w.
      split; [by apply suffix_cons_r|done]. }
    destruct skip; cbn [scan_all]; [|done].
    destruct (match_at len r (c :: s)) as [w|] eqn:Hw; [|done].
    constructor; [by eauto 6|done].
Qed.

(** What [findall] returns, on any text: contents between delimiters,
    each standing in the text with its delimiters. *)
Lemma findall_wrapped tag xml :
  exists bodies,
    findall (pattern tag) xml = map (wrap tag) bodies /\
    Forall (fun b => occurs (wrap tag b) xml = true) bodies.
Proof.
  unfold findall.
  pose proof (scan_all_matches (length xml) (pattern tag) xml 0) as H.
  induction H as [|mt l (t & w & [p Hp] & Hw & ->) _ (bodies & -> & Hocc)];
    [by exists []|].
  apply match_at_pattern_inv in Hw as (b & rest & -> & ->).
  exists (b :: bodies). cbn [map]. rewrite take_app_length.
  split; [done|]. constructor; [|done].
  apply occurs_spec. by exists p, rest.
Qed.

(** [parse_xml] on a text of flat gaps and flat contents: the contents,
    joined by one space, without the whitespace around the whole. *)
Lemma parse_xml_chars_document tag segs tail :
  Forall (fun gc => flat gc.1 /\ flat gc.2) segs -> flat tail ->
  parse_xml_chars (document tag segs tail) tag
  = strip_chars (join_chars [" "%char] (map snd segs)).
Proof.
  intros Hsegs Htail. unfold parse_xml_chars, findall.
  rewrite scan_all_document by done.
  destruct segs as [|gc segs]; [done|].
  set (ms := map _ (gc :: segs)). 
  assert (Hms : map (sub_empty (outer tag)) ms = map snd (gc :: segs)).
  { unfold ms. clear ms. induction Hsegs as [|[g c] l _ _ IH]; [done|].
    cbn [map snd]. by rewrite sub_empty_wrap, IH. }
  change (match ms with [] => [] | _ :: _ =>
            strip_chars (join_chars [" "%char]
              (map (sub_empty (outer tag)) ms)) end
          = strip_chars (join_chars [" "%char] (map snd (gc :: segs)))).
  rewrite Hms. done.
Qed.

(** Without the opening delimiter, or without the closing one, nothing
    matches. *)

Lemma occurs_suffix n t s :
  occurs n s = false -> t `suffix_of` s -> is_prefix n t = false.
Proof.
  intros Hn [p ->]. induction p as [|c p IH].
  - by apply occurs_false_prefix.
  - apply IH. by apply occurs_false_tail in Hn.
Qed.

Lemma scan_all_none len r s :
  (forall t, t `suffix_of` s -> match_at len r t = None) ->
  scan_all len r s 0 = [].
Proof.
  induction s as [|c s IH]; intros Hs; rewrite scan_all_eq, Hs by done.
  - done.
  - apply IH. intros t Ht. apply Hs. by apply suffix_cons_r.
Qed.

(** Without the opening delimiter, or without the closing one, nothing
    matches. *)
Lemma findall_absent tag xml :
  occurs (open_tag tag) xml = false \/ occurs (close_tag tag) xml = false ->
  findall (pattern tag) xml = [].
Proof.
  intros Habs. apply scan_all_none. intros t Ht. unfold match_at.
  rewrite pattern_eq. destruct Habs as [Ho|Hc].
  - rewrite m_lit_fail; [done|]. by eapply occurs_suffix.
  - unfold m_lit at 1. destruct (is_prefix _ t); [|done].
    change (m_plus (m (length xml) (Alt element text)))
      with (m (A:=list ascii) (length xml) (Plus (Alt element text))).
    rewrite m_fail; [done|].
    intros s' Hs'. apply m_lit_fail. eapply occurs_suffix; [done|].
    etrans; [done|]. etrans; [apply suffix_drop|done].
Qed.

Lemma parse_xml_chars_absent tag xml :
  occurs (open_tag tag) xml = false \/ occurs (close_tag tag) xml = false ->
  parse_xml_chars xml tag = [].
Proof. intros H. unfold parse_xml_chars. by rewrite findall_absent. Qed.

(** [parse_xml] on any text: the contents of the regions found, each
    without its outer pair of delimiters and nothing else removed, joined
    by one space, without the whitespace around the whole. *)
Lemma parse_xml_chars_structure tag xml :
  exists bodies,
    Forall (fun b => occurs (wrap tag b) xml = true) bodies /\
    parse_xml_chars xml tag = strip_chars (join_chars [" "%char] bodies).
Proof.
  destruct (findall_wrapped tag xml) as (bodies & Hb & Hocc). exists bodies.
  split; [done|]. unfold parse_xml_chars. rewrite Hb.
  destruct bodies as [|b bodies]; [done|].
  change (strip_chars (join_chars [" "%char]
            (map (sub_empty (outer tag)) (map (wrap tag) (b :: bodies))))
          = strip_chars (join_chars [" "%char] (b :: bodies))).
  by rewrite map_sub_empty_wrap.
Qed.

(** *** The same on strings *)

Lemma chars_region tag c : chars (region tag c) = wrap (chars tag) (chars c).
Proof.
  unfold region, wrap, open_tag, close_tag.
  rewrite !chars_app. cbn [chars list_ascii_of_string app].
  by rewrite <- !app_assoc.
Qed.

Lemma chars_text_with tag regions tail :
  chars (text_with tag regions tail)
  = document (chars tag)
      (map (fun gc => (chars gc.1, chars gc.2)) regions) (chars tail).
Proof.
  induction regions as [|[g c] regions IH]; [done|].
  cbn [text_with document map fst snd].
  by rewrite !chars_app, chars_region, IH.
Qed.

Lemma no_lt_flat s : no_lt s = true -> flat (chars s).
Proof.
  unfold no_lt, flat. induction (chars s) as [|c l IH]; [done|].
  cbn [forallb]. intros [Hc Hl]%andb_true_iff. constructor; [|by apply IH].
  apply negb_true_iff in Hc. by apply bool_decide_eq_false in Hc.
Qed.

Lemma chars_open tag : chars ("<" ++ tag ++ ">")%string = open_tag (chars tag).
Proof. unfold open_tag. by rewrite !chars_app. Qed.

Lemma chars_close tag :
  chars ("</" ++ tag ++ ">")%string = close_tag (chars tag).
Proof. unfold close_tag. by rewrite !chars_app. Qed.

Lemma parse_xml_text_with tag regions tail :
  Forall (fun gc => no_lt gc.1 = true /\ no_lt gc.2 = true) regions ->
  no_lt tail = true ->
  parse_xml (text_with tag regions tail) tag
  = strip (join " " (map snd regions)).
Proof.
  intros Hr Ht. unfold parse_xml, strip, join.
  rewrite chars_text_with, parse_xml_chars_document, chars_str.
  - by rewrite !map_map.
  - induction Hr as [|[g c] l [Hg Hc] _ IH]; constructor; [|done].
    split; by apply no_lt_flat.
  - by apply no_lt_flat.
Qed.

Lemma parse_xml_absent tag xml :
  contains ("<" ++ tag ++ ">") xml = false \/
  contains ("</" ++ tag ++ ">") xml = false ->
  parse_xml xml tag = EmptyString.
Proof.
  unfold contains, parse_xml. rewrite chars_open, chars_close. intros H.
  by rewrite parse_xml_chars_absent.
Qed.

Lemma parse_xml_structure tag xml :
  exists bodies,
    Forall (fun b => contains (region tag b) xml = true) bodies /\
    parse_xml xml tag = strip (join " " bodies).
Proof.
  destruct (parse_xml_chars_structure (chars tag) (chars xml))
    as (bodies & Hocc & Hp).
  exists (map str bodies). split.
  - apply Forall_map. eapply Forall_impl; [done|]. intros b Hb. simpl.
    unfold contains. by rewrite chars_region, chars_str.
  - unfold parse_xml, strip, join. rewrite Hp, chars_str.
    rewrite map_map. do 3 f_equal. symmetry.
    rewrite <- (map_id bodies) at 2. apply map_ext. intros b.
    apply chars_str.
Qed.

End XmlFacts.

(* ===================================================================== *)
(** ** Pricing *)

Module PricingFacts.
Import PyNum Pricing.

Lemma float_of_int_1000 : float_of_int 1000 = inr 1000%float.
Proof. by vm_compute. Qed.

(** The two tables price the same models. *)
Lemma same_models : input_price_items.*1 = output_price_items.*1.
Proof. reflexivity. Qed.

Lemma unknown_output model :
  model_input_token_prices !! model = None ->
  model_output_token_prices !! model = None.
Proof.
  unfold model_input_token_prices, model_output_token_prices.
  rewrite <- !not_elem_of_list_to_map. by rewrite same_models.
Qed.

Lemma price_of_known table token_number model price q :
  table !! model = Some price ->
  int_truediv token_number 1000 = inr q ->
  price_of table token_number model
  = inr (Float (float_round (q * price) 8)).
Proof. intros Ht Hq. unfold price_of. rewrite Ht. simpl. by rewrite Hq. Qed.

Lemma price_of_unknown table token_number model :
  table !! model = None -> price_of table token_number model = inr (Int 0).
Proof. intros Ht. unfold price_of. by rewrite Ht. Qed.

(** C2 (as amended).  For a model of the price tables, with rates [ri] and
    [ro], and token counts whose quotients by 1000 are the floats [qi] and
    [qo], [calculate_total_price] returns the input cost
    [round(qi * ri, 8)], the output cost [round(qo * ro, 8)], the total
    [round(input + output, 6)] and [round(total * 1000, 6)].  For a model
    the tables do not have it returns four zeros and raises nothing,
    whatever the token counts.  On 1000 input tokens and no output token
    of amazon.titan-text-lite-v1 it returns (0.0003, 0, 0.0003, 0.3). *)
Theorem calculate_total_price_spec (input_tokens output_tokens : Z)
    (model : string) :
  (forall ri ro qi qo,
     model_input_token_prices !! model = Some ri ->
     model_output_token_prices !! model = Some ro ->
     int_truediv input_tokens 1000 = inr qi ->
     int_truediv output_tokens 1000 = inr qo ->
     let input_cost := float_round (qi * ri) 8 in
     let output_cost := float_round (qo * ro) 8 in
     let total_cost := float_round (input_cost + output_cost) 6 in
     let total_cost_1000 := float_round (total_cost * 1000) 6 in
     calculate_total_price input_tokens output_tokens model
     = inr (Float input_cost, Float output_cost,
            Float total_cost, Float total_cost_1000))
  /\ (model_input_token_prices !! model = None ->
      calculate_total_price input_tokens output_tokens model
      = inr (Int 0, Int 0, Int 0, Int 0))
  /\ calculate_total_price 1000 0 "amazon.titan-text-lite-v1"
     = inr (Float 0.0003, Float 0, Float 0.0003, Float 0.3).
Proof.
  split; [|split].
  - intros ri ro qi qo Hi Ho Hqi Hqo. cbv zeta.
    unfold calculate_total_price, calculate_input_price,
      calculate_output_price.
    rewrite (price_of_known _ _ _ _ _ Hi Hqi).
    rewrite (price_of_known _ _ _ _ _ Ho Hqo).
    cbn [bind add mul round to_float ret]. by rewrite float_of_int_1000.
  - intros Hi. pose proof (unknown_output _ Hi) as Ho.
    unfold calculate_total_price, calculate_input_price,
      calculate_output_price.
    by rewrite !price_of_unknown.
  - by vm_compute.
Qed.

(** The known-model case of C2 at 1234 input and 567 output tokens of
    Claude 3 Haiku, and the unknown-model case at "unknown". *)
Lemma calculate_total_price_spec_witness :
  calculate_total_price 1234 567 "anthropic.claude-3-haiku-20240307-v1:0"
  = inr (Float 0.0003085, Float 0.00070875, Float 0.001017, Float 1.017)
  /\ calculate_total_price 1234 567 "unknown"
     = inr (Int 0, Int 0, Int 0, Int 0).
Proof.
  split.
  - apply (proj1 (calculate_total_price_spec 1234 567
                    "anthropic.claude-3-haiku-20240307-v1:0")
             0.00025%float 0.00125%float 1.234%float 0.567%float);
      vm_compute; reflexivity.
  - apply (proj1 (proj2 (calculate_total_price_spec 1234 567 "unknown")));
      vm_compute; reflexivity.
Defined.

(** C2 as stated fails where a quotient by 1000 is too large for a float:
    nothing is returned. *)
Lemma calculate_total_price_overflow :
  calculate_total_price (10 ^ 400) 0 "amazon.titan-text-lite-v1"
  = inl OverflowError.
Proof. by vm_compute. Qed.

End PricingFacts.

(* ===================================================================== *)
(** ** Computations and the log *)

Module WorldFacts.
Import World.
Local Open Scope list_scope.

(** Whatever [c] does, it only appends events that satisfy [P]. *)
Definition emits {A} (P : event -> Prop) (c : M A) : Prop :=
  forall l, exists ext, (c l).1 = l ++ ext /\ Forall P ext.

Lemma emits_mret {A} P (a : A) : emits P (mret a).
Proof. intros l. exists []. by rewrite app_nil_r. Qed.

Lemma emits_lift {A} P (r : res A) : emits P (lift r).
Proof. intros l. exists []. by rewrite app_nil_r. Qed.

Lemma emits_ask {A} P (f : log -> A) : emits P (ask f).
Proof. intros l. exists []. by rewrite app_nil_r. Qed.

Lemma emits_call {A} (P : event -> Prop) ev (answer : log -> res A) :
  P ev -> emits P (call ev answer).
Proof. intros Hev l. exists [ev]. split; [done|]. by constructor. Qed.

Lemma emits_mbind {A B} P (c : M A) (f : A -> M B) :
  emits P c -> (forall a, emits P (f a)) -> emits P (mbind c f).
Proof.
  intros Hc Hf l. unfold mbind. destruct (Hc l) as (e1 & H1 & HP1).
  destruct (c l) as [l1 [e|a]]; simpl in H1; subst l1.
  - by exists e1.
  - destruct (Hf a (l ++ e1)) as (e2 & H2 & HP2). exists (e1 ++ e2).
    rewrite H2, app_assoc. split; [done|]. by apply Forall_app.
Qed.

Lemma emits_foldM {A B} P (f : B -> A -> M B) (xs : list A) (b : B) :
  (forall b a, emits P (f b a)) -> emits P (foldM f b xs).
Proof.
  intros Hf. revert b. induction xs as [|a xs IH]; intros b; cbn [foldM].
  - apply emits_mret.
  - apply emits_mbind; [apply Hf|]. intros b'. apply IH.
Qed.

Lemma emits_complete {A} P n (running : list (nat * M A)) picks results :
  Forall (fun ic => emits P ic.2) running ->
  emits P (complete n running picks results).
Proof.
  revert running picks results.
  induction n as [|n IH]; intros running picks results Hr; cbn [complete].
  - apply emits_mret.
  - destruct (running !! _) as [[pos c]|] eqn:Hi; [|apply emits_mret].
    apply emits_mbind.
    + eapply (Forall_lookup_1 _ _ _ _ Hr Hi).
    + intros a. apply IH. by apply Forall_delete.
Qed.

Lemma emits_gather {A} P picks (calls : list (M A)) :
  Forall (emits P) calls -> emits P (gather picks calls).
Proof.
  intros Hc. unfold gather. apply emits_mbind; [apply emits_ask|].
  intros order. apply emits_mbind; [|intros; apply emits_mret].
  apply emits_complete. apply Forall_forall. intros [i c] Hic.
  apply list_elem_of_lookup in Hic as [j Hj].
  apply list_lookup_imap_Some in Hj as (c' & Hc' & [= -> ->]).
  simpl. by eapply (Forall_lookup_1 _ _ _ _ Hc).
Qed.

Lemma place_length {A} i (a : A) l : length (place i a l) = S (length l).
Proof.
  induction l as [|[j b] l IH]; [done|]. cbn [place].
  destruct (i <? j)%nat; cbn [length]; by rewrite ?IH.
Qed.

Lemma complete_length {A} n (running : list (nat * M A)) picks results l l' out :
  length running = n ->
  complete n running picks results l = (l', inr out) ->
  length out = (length results + n)%nat.
Proof.
  revert running picks results l.
  induction n as [|n IH]; intros running picks results l Hn; cbn [complete].
  - intros [= _ ->]. lia.
  - assert (Hlt : (hd 0%nat picks mod length running < length running)%nat)
      by (apply Nat.mod_upper_bound; lia).
    apply lookup_lt_is_Some_2 in Hlt as [[pos c] Hi]. rewrite Hi.
    unfold mbind. destruct (c l) as [l1 [e|a]]; [done|].
    intros H. apply IH in H.
    + rewrite place_length in H. lia.
    + rewrite length_delete by eauto. lia.
Qed.

(** [gather] answers with one result per call. *)
Lemma gather_length {A} picks (calls : list (M A)) l l' out :
  gather picks calls l = (l', inr out) -> length out = length calls.
Proof.
  unfold gather, mbind, ask.
  destruct (complete _ _ _ _ _) as [l1 [e|results]] eqn:Hc; [done|].
  intros [= _ <-]. apply complete_length in Hc.
  - by rewrite length_map, Hc.
  - by rewrite length_imap.
Qed.

End WorldFacts.

(* ===================================================================== *)
(** ** Aggregation of the nine scores *)

Module EvalFacts.
Import PyStr PyNum PyStrFacts Xml XmlFacts World WorldFacts Eval Sample.

Lemma float_truediv_9 x : float_truediv x 9 = inr (x / 9)%float.
Proof. reflexivity. Qed.

Ltac nine l H :=
  do 9 (let x := fresh "x" in destruct l as [|x l]; [discriminate H|]);
  destruct l; [|discriminate H].

Lemma score_results_mean model_name model_summary result ns f :
  length result = 9%nat ->
  Forall2 (fun r n => int r.1 = inr n) result ns ->
  float_of_int (total ns) = inr f ->
  exists final_summary final_score_rubric,
    score_results model_name model_summary result
    = inr (Float (f / 9), final_summary, final_score_rubric).
Proof.
  intros Hlen Hns Hf.
  pose proof (Forall2_length_l _ _ _ _ Hns Hlen) as Hlen'.
  nine result Hlen. nine ns Hlen'.
  repeat (apply Forall2_cons_1 in Hns as [? Hns]). clear Hns Hlen Hlen'.
  repeat match goal with r : (string * string)%type |- _ => destruct r end.
  cbn [fst] in *. unfold score_results.
  cbn [index lookup list_lookup bind ret].
  repeat match goal with H : int _ = inr _ |- _ => rewrite H; clear H end.
  cbn [bind truediv to_float].
  unfold total in Hf. cbn [foldr] in Hf.
  match type of Hf with
  | float_of_int ?t = _ =>
      match goal with
      | |- context [float_of_int ?z] => replace z with t by lia
      end
  end.
  rewrite Hf. cbn [bind ret]. rewrite float_truediv_9. cbn [bind ret].
  by eexists _, _.
Qed.

Lemma orchestrator_eq E src model summary task crit scale l l' result :
  gather (completion E) (graders E src model summary task crit scale) l
  = (l', inr result) ->
  evaluate_model_output_orchestrator E src model summary task crit scale l
  = (l', score_results model summary result).
Proof.
  intros Hg. unfold evaluate_model_output_orchestrator, mbind. by rewrite Hg.
Qed.

Lemma graders_length E src model summary task crit scale :
  length (graders E src model summary task crit scale) = 9%nat.
Proof. done. Qed.

(** C1 (as amended).  When the nine graders have answered with results
    whose score strings convert to the integers [ns], and the sum of
    these converts to the float [f], the orchestrator returns the float
    quotient [f / 9.0] as the final score, with no rounding step after
    the division; nine scores 5,5,5,5,5,5,5,5,4 give 4.888888888888889. *)
Theorem final_score_mean (E : world)
    (src model summary task crit scale : string) (l l' : log)
    (result : list (string * string)) (ns : list Z) (f : float) :
  gather (completion E) (graders E src model summary task crit scale) l
  = (l', inr result) ->
  Forall2 (fun r n => int r.1 = inr n) result ns ->
  float_of_int (total ns) = inr f ->
  (exists final_summary final_score_rubric,
     evaluate_model_output_orchestrator E src model summary task crit scale l
     = (l', inr (Float (f / 9), final_summary, final_score_rubric)))
  /\ (float_of_int (total [5; 5; 5; 5; 5; 5; 5; 5; 4]) = inr 44%float
      /\ (44 / 9 = 4.888888888888889)%float).
Proof.
  intros Hg Hns Hf. split; [|by vm_compute].
  pose proof (gather_length _ _ _ _ _ Hg) as Hlen.
  rewrite graders_length in Hlen.
  destruct (score_results_mean model summary _ _ _ Hlen Hns Hf)
    as (fs & rub & Hs).
  exists fs, rub. by rewrite (orchestrator_eq _ _ _ _ _ _ _ _ _ _ Hg), Hs.
Qed.

(** C1 in the steady world: eight scores of 5 and one of 4. *)
Lemma final_score_mean_witness :
  exists final_summary final_score_rubric,
    evaluate_model_output_orchestrator steady "A short document."
      "anthropic.claude-v2" "A summary." "Summarize." "crit" "scale" []
    = ([ Grade eval_model_structure "anthropic.claude-v2" "A summary." "A short document.";
         Grade eval_model_completeness "anthropic.claude-v2" "A summary." "A short document.";
         Grade eval_model_objectivity "anthropic.claude-v2" "A summary." "A short document.";
         Grade eval_model_flow "anthropic.claude-v2" "A summary." "A short document.";
         Grade eval_model_accuracy "anthropic.claude-v2" "A summary." "A short document.";
         Grade eval_model_clarity "anthropic.claude-v2" "A summary." "A short document.";
         Grade (eval_model_task "Summarize." "crit" "scale")
               "anthropic.claude-v2" "A summary." "A short document.";
         Grade eval_model_conciseness "anthropic.claude-v2" "A summary." "A short document.";
         Grade eval_model_tone "anthropic.claude-v2" "A summary." "A short document." ],
       inr (Float (44 / 9), final_summary, final_score_rubric)).
Proof.
  refine (proj1 (final_score_mean steady "A short document."
            "anthropic.claude-v2" "A summary." "Summarize." "crit" "scale"
            [] _
            [ ("5", "good"); ("5", "good"); ("5", "good"); ("5", "good");
              ("5", "good"); ("5", "good"); ("5", "good"); ("5", "good");
              ("4", "fine") ]
            [5; 5; 5; 5; 5; 5; 5; 5; 4] 44%float _ _ _)).
  - vm_compute. reflexivity.
  - repeat constructor.
  - vm_compute. reflexivity.
Defined.

(** C1 as stated fails on scores that convert to integers too large for a
    float: each of the nine converts, and nothing is returned. *)
Lemma final_score_overflow :
  let result := (nines 400, "") :: repeat ("0", "") 8 in
  Forall (fun r => exists n, int r.1 = inr n) result
  /\ score_results "m" "s" result = inl OverflowError.
Proof.
  split.
  - repeat constructor; eexists; vm_compute; reflexivity.
  - vm_compute. reflexivity.
Qed.

Lemma int_cases s : int s = inl ValueError \/ exists n, int s = inr n.
Proof. unfold int. destruct (int_of_chars _); eauto. Qed.

Lemma int_empty : int "" = inl ValueError.
Proof. reflexivity. Qed.

Lemma score_results_unconvertible model_name model_summary result :
  length result = 9%nat ->
  Exists (fun r => int r.1 = inl ValueError) result ->
  score_results model_name model_summary result = inl ValueError.
Proof.
  intros Hlen Hex. nine result Hlen. clear Hlen.
  repeat match goal with r : (string * string)%type |- _ => destruct r end.
  unfold score_results. cbn [index lookup list_lookup bind ret].
  repeat match goal with
         | |- context [int ?s] =>
             let Hs := fresh "Hs" in
             destruct (int_cases s) as [Hs|[? Hs]]; rewrite Hs;
             [reflexivity|cbn [bind]]
         end.
  exfalso.
  repeat match goal with
         | H : Exists _ (_ :: _) |- _ =>
             apply Exists_cons in H as [H|H]; [cbn [fst] in H; congruence|]
         end.
  by apply Exists_nil in Hex.
Qed.

(** A reply without the score delimiter gives the empty score string,
    which [int] refuses. *)
Lemma model_execution_no_score E g model summary src l reply :
  judge_reply E l g model summary src = inr reply ->
  contains "<score>" reply = false ->
  exists evaluation_summary,
    model_execution E g model summary src l
    = ((l ++ [Grade g model summary src])%list,
       inr (EmptyString, evaluation_summary)).
Proof.
  intros Hr Hs. unfold model_execution, mbind, call, mret. rewrite Hr.
  rewrite (parse_xml_absent "score" reply) by (by left). by eexists.
Qed.

(** C4.  When the nine graders have answered and one of the score strings
    does not convert to an integer, the orchestrator raises [ValueError]
    where it computes the final score and returns nothing; a grader
    whose reply has no score delimiter answers with the empty score
    string, which does not convert. *)
Theorem unconvertible_score_raises (E : world)
    (src model summary task crit scale : string) (l l' : log)
    (result : list (string * string)) :
  gather (completion E) (graders E src model summary task crit scale) l
  = (l', inr result) ->
  Exists (fun r => int r.1 = inl ValueError) result ->
  evaluate_model_output_orchestrator E src model summary task crit scale l
  = (l', inl ValueError)
  /\ int "" = inl ValueError
  /\ (forall g l0 reply,
        judge_reply E l0 g model summary src = inr reply ->
        contains "<score>" reply = false ->
        exists evaluation_summary,
          model_execution E g model summary src l0
          = ((l0 ++ [Grade g model summary src])%list,
             inr (EmptyString, evaluation_summary))).
Proof.
  intros Hg Hex. split; [|split].
  - pose proof (gather_length _ _ _ _ _ Hg) as Hlen.
    rewrite graders_length in Hlen.
    rewrite (orchestrator_eq _ _ _ _ _ _ _ _ _ _ Hg).
    by rewrite score_results_unconvertible.
  - apply int_empty.
  - intros g l0 reply. apply model_execution_no_score.
Qed.

Lemma score_results_keys model_name model_summary result x y rubric :
  score_results model_name model_summary result = inr (x, y, rubric) ->
  rubric.*1 = score_map_keys.
Proof.
  unfold score_results.
  repeat match goal with
         | |- context [index result ?i] =>
             destruct (index result i) as [?|[? ?]]; [done|]; cbn [bind]
         end.
  repeat match goal with
         | |- context [int ?s] =>
             destruct (int s) as [?|?]; [done|]; cbn [bind]
         end.
  destruct (truediv _ _) as [?|?]; [done|]. cbn [bind ret].
  by intros [= _ _ <-].
Qed.

(** C8 (as amended).  On every successful call, whatever the order in
    which the graders complete, the keys of the score map are
    [model_name] and the nine [model_<dimension>_score] keys, and the
    value under each score key is the score string of that dimension's
    grader. *)
Theorem score_map_keys_fixed (E : world)
    (src model summary task crit scale : string) (l l' : log)
    (final_score : num) (final_summary : string)
    (final_score_rubric : list (string * string)) :
  evaluate_model_output_orchestrator E src model summary task crit scale l
  = (l', inr (final_score, final_summary, final_score_rubric)) ->
  final_score_rubric.*1 = score_map_keys
  /\ final_score_rubric !! 0%nat = Some ("model_name", model).
Proof.
  unfold evaluate_model_output_orchestrator, mbind, lift.
  destruct (gather _ _ _) as [l1 [e|result]]; [done|].
  intros [= _ Hs]. split; [by eapply score_results_keys|].
  revert Hs. unfold score_results.
  repeat match goal with
         | |- context [index result ?i] =>
             destruct (index result i) as [?|[? ?]]; [done|]; cbn [bind]
         end.
  repeat match goal with
         | |- context [int ?s] =>
             destruct (int s) as [?|?]; [done|]; cbn [bind]
         end.
  destruct (truediv _ _) as [?|?]; [done|]. cbn [bind ret].
  by intros [= _ _ <-].
Qed.

(** C4 in the silent world: the task grader's reply has no score. *)
Lemma unconvertible_score_raises_witness :
  (evaluate_model_output_orchestrator silent "A short document."
     "anthropic.claude-v2" "A summary." "Summarize." "crit" "scale" []).2
  = inl ValueError.
Proof.
  refine (f_equal snd (proj1 (unconvertible_score_raises silent
            "A short document." "anthropic.claude-v2" "A summary."
            "Summarize." "crit" "scale" [] _
            [ ("5", "good"); ("5", "good"); ("5", "good"); ("5", "good");
              ("5", "good"); ("5", "good"); ("5", "good"); ("5", "good");
              ("", "unsure") ] _ _))).
  - vm_compute. reflexivity.
  - do 8 apply Exists_cons_tl. apply Exists_cons_hd. reflexivity.
Defined.

(** C8 in the steady world. *)
Lemma score_map_keys_fixed_witness :
  let rubric :=
    [ ("model_name", "anthropic.claude-v2");
      ("model_completeness_score", "5"); ("model_accuracy_score", "5");
      ("model_flow_score", "5"); ("model_structure_score", "5");
      ("model_conciseness_score", "5"); ("model_clarity_score", "5");
      ("model_objectivity_score", "5"); ("model_tone_score", "5");
      ("model_task_score", "4") ] in
  rubric.*1 = score_map_keys
  /\ rubric !! 0%nat = Some ("model_name", "anthropic.claude-v2").
Proof.
  refine (score_map_keys_fixed steady "A short document."
            "anthropic.claude-v2" "A summary." "Summarize." "crit" "scale"
            [] _ _ _ _ _).
  reflexivity.
Defined.

(** C8 as stated fails: the score map of a successful call has the key
    [model_name], which is no dimension name, and has no key that is a
    bare dimension name. *)
Lemma score_map_keys_not_dimension_names :
  exists l' final_score final_summary final_score_rubric,
    evaluate_model_output_orchestrator steady "A short document."
      "anthropic.claude-v2" "A summary." "Summarize." "crit" "scale" []
    = (l', inr (final_score, final_summary, final_score_rubric))
    /\ ~ (forall key, key ∈ final_score_rubric.*1
                       <-> key ∈ spec_dimension_names).
Proof.
  eexists _, _, _, _. split; [reflexivity|].
  intros H. specialize (H "model_name"). destruct H as [H _].
  assert (Hin : "model_name" ∈ spec_dimension_names)
    by (apply H; cbn; left).
  unfold spec_dimension_names in Hin.
  repeat (apply elem_of_cons in Hin as [Hin|Hin]; [discriminate Hin|]).
  by apply elem_of_nil in Hin.
Qed.

End EvalFacts.

(* ===================================================================== *)
(** ** The model loop *)

Module OrchestratorFacts.
Import PyStr PyNum PyStrFacts Pricing World WorldFacts Eval Helper
  Orchestrator Sample Report.
Local Open Scope list_scope.

Section Run.
Context (E : world).
Context (text prompt max_tokens criteria grading : string).

#[local] Abbreviation body :=
  (loop_body E text prompt max_tokens criteria grading).
#[local] Abbreviation one_block :=
  (block E text prompt max_tokens criteria grading).
#[local] Abbreviation the_block :=
  (block_body E text prompt max_tokens criteria grading).

Lemma loop_body_skipped st model l :
  skipped model = true -> body st model l = (l, inr st).
Proof. unfold loop_body, skipped. by intros ->. Qed.

Lemma foldM_skip {A B} (f : B -> A -> M B) x pre post :
  (forall b l, f b x l = (l, inr b)) ->
  forall b l, foldM f b (pre ++ x :: post) l = foldM f b (pre ++ post) l.
Proof.
  intros Hx. induction pre as [|a pre IH]; intros b l; cbn [app foldM].
  - unfold mbind. by rewrite Hx.
  - unfold mbind. destruct (f b a l) as [l1 [e|b1]]; [done|apply IH].
Qed.

Lemma foldM_all_skip {A B} (f : B -> A -> M B) xs :
  Forall (fun x => forall b l, f b x l = (l, inr b)) xs ->
  forall b l, foldM f b xs l = (l, inr b).
Proof.
  induction 1 as [|x xs Hx _ IH]; intros b l; cbn [foldM]; [done|].
  unfold mbind. by rewrite Hx.
Qed.

(** A block that completes appends one row, for the identifier at hand. *)
Lemma block_body_rows a model st l l' st' :
  the_block a model st l = (l', inr st') ->
  map Model (results_list st') = map Model (results_list st) ++ [model]
  /\ length (score_rubric_list st') = S (length (score_rubric_list st)).
Proof.
  unfold block_body, mbind, timer, invoke, call, lift, ret, mret.
  destruct (vendor E _ _ _ _ _ _) as [e|[[out it] ot]]; [done|].
  destruct (truediv _ _) as [e|cpt]; [done|].
  destruct (calculate_total_price _ _ _) as [e|[[[ic oc] tc] tk]]; [done|].
  destruct (evaluate_model_output_orchestrator _ _ _ _ _ _ _ _)
    as [l2 [e|[[fs sm] rub]]]; [done|].
  intros [= _ <-]. cbn. rewrite map_app, length_app. cbn. split; [done|lia].
Qed.

Lemma blocks_rows model bs : forall st l l' st',
  foldM (one_block model) st bs l = (l', inr st') ->
  map Model (results_list st')
  = map Model (results_list st)
    ++ replicate (length (List.filter (fun b => contains b.1 model) bs)) model
  /\ length (score_rubric_list st')
     = (length (score_rubric_list st)
        + length (List.filter (fun b => contains b.1 model) bs))%nat.
Proof.
  induction bs as [|b bs IH]; intros st l l' st'; cbn [foldM List.filter].
  - intros [= _ <-]. rewrite app_nil_r. cbn. split; [done|lia].
  - unfold mbind. destruct (one_block model st b l) as [l1 [e|st1]] eqn:Hb;
      [done|].
    intros Hrest. apply IH in Hrest as [Hm Hr]. unfold block in Hb.
    destruct (contains b.1 model).
    + apply block_body_rows in Hb as [Hm1 Hr1]. cbn [length replicate].
      rewrite Hm, Hm1, Hr, Hr1, <- app_assoc. split; [done|lia].
    + injection Hb as _ <-. done.
Qed.

Lemma loop_rows models : forall st l l' st',
  foldM body st models l = (l', inr st') ->
  map Model (results_list st')
  = map Model (results_list st) ++ flat_map rows_of models
  /\ length (score_rubric_list st')
     = (length (score_rubric_list st) + length (flat_map rows_of models))%nat.
Proof.
  induction models as [|m models IH]; intros st l l' st'; cbn [foldM flat_map].
  - intros [= _ <-]. rewrite app_nil_r. cbn. split; [done|lia].
  - unfold mbind. destruct (body st m l) as [l1 [e|st1]] eqn:Hb; [done|].
    intros Hrest. apply IH in Hrest as [Hm Hr]. rewrite Hm, Hr.
    unfold loop_body in Hb. unfold rows_of, skipped.
    destruct (contains "stability" m || contains "embed" m).
    + injection Hb as _ <-. cbn [app length]. split; [done|lia].
    + apply blocks_rows in Hb as [Hm1 Hr1]. unfold named_blocks.
      rewrite Hm1, Hr1, <- app_assoc, length_app, length_replicate.
      split; [done|lia].
Qed.

(** Every event of the loop is one a run may do after the rubric. *)
Lemma emits_model_execution g model summary :
  after_rubric prompt criteria grading (Grade g model summary text) ->
  emits (after_rubric prompt criteria grading)
        (model_execution E g model summary text).
Proof.
  intros Hg. unfold model_execution. apply emits_mbind.
  - by apply emits_call.
  - intros reply. apply emits_mret.
Qed.

Lemma emits_orchestrator model summary :
  emits (after_rubric prompt criteria grading)
        (evaluate_model_output_orchestrator E text model summary prompt
           criteria grading).
Proof.
  unfold evaluate_model_output_orchestrator. apply emits_mbind.
  - apply emits_gather. unfold graders.
    repeat (apply Forall_cons; split;
            [by apply emits_model_execution|]).
    apply Forall_nil_2.
  - intros result. apply emits_lift.
Qed.

Lemma emits_block_body a model st :
  emits (after_rubric prompt criteria grading) (the_block a model st).
Proof.
  unfold block_body, timer, invoke.
  apply emits_mbind; [by apply emits_call|]. intros start.
  apply emits_mbind; [by apply emits_call|]. intros [[out it] ot].
  apply emits_mbind; [by apply emits_call|]. intros end_.
  apply emits_mbind; [apply emits_lift|]. intros cpt.
  apply emits_mbind; [apply emits_lift|]. intros [[[ic oc] tc] tk].
  apply emits_mbind; [apply emits_orchestrator|]. intros [[fs sm] rub].
  apply emits_mret.
Qed.

Lemma emits_loop_body st model :
  emits (after_rubric prompt criteria grading) (body st model).
Proof.
  unfold loop_body. destruct (_ || _); [apply emits_mret|].
  apply emits_foldM. intros st' b. unfold block.
  destruct (contains _ _); [apply emits_block_body|apply emits_mret].
Qed.


End Run.

Lemma rows_of_single models :
  Forall (fun m => (length (named_blocks m) <= 1)%nat) models ->
  flat_map rows_of models = List.filter evaluated models.
Proof.
  induction 1 as [|m models Hm _ IH]; [done|].
  cbn [flat_map List.filter]. rewrite IH. unfold rows_of, evaluated.
  destruct (skipped m); [done|]. cbn [negb andb].
  destruct (length (named_blocks m)) as [|[|n]]; [done..|lia].
Qed.

Lemma skipped_spec model :
  skipped model = true <->
  (exists a b, model = (a ++ "embed" ++ b)%string)
  \/ (exists a b, model = (a ++ "stability" ++ b)%string).
Proof.
  unfold skipped. rewrite orb_true_iff, !contains_spec. tauto.
Qed.

(** C10.  An identifier that contains "embed" or "stability" anywhere is
    passed over, whatever else it is made of: the loop body does nothing
    for it (no event, so no call, and no row), and a run with it is the
    run without it. *)
Theorem skip_by_substring (E : world) (pdf_path task_prompt max_tokens : string)
    (model : string) :
  (exists a b, model = (a ++ "embed" ++ b)%string)
  \/ (exists a b, model = (a ++ "stability" ++ b)%string) ->
  (forall text criteria grading st l,
     loop_body E text task_prompt max_tokens criteria grading st model l
     = (l, inr st))
  /\ (forall pre post l,
        model_loop E pdf_path (pre ++ model :: post) task_prompt
          max_tokens l
        = model_loop E pdf_path (pre ++ post) task_prompt max_tokens l).
Proof.
  intros Hsub%skipped_spec. split.
  - intros. by apply loop_body_skipped.
  - intros pre post l. unfold model_loop, mbind.
    destruct (text_extraction E pdf_path l) as [l1 [e|text]]; [done|].
    destruct (dynamic_grading_criteria E task_prompt l1)
      as [l2 [e|[criteria grading]]]; [done|].
    apply foldM_skip. intros b l3. by apply loop_body_skipped.
Qed.

(** C10 at amazon.titan-embed-text-v1, between two other identifiers. *)
Lemma skip_by_substring_witness :
  model_loop steady "doc.pdf"
    (["anthropic.claude-v2"] ++ "amazon.titan-embed-text-v1" :: ["foo"])
    "Summarize." "4096" []
  = model_loop steady "doc.pdf" (["anthropic.claude-v2"] ++ ["foo"])
      "Summarize." "4096" [].
Proof.
  refine (proj2 (skip_by_substring steady "doc.pdf" "Summarize." "4096"
                   "amazon.titan-embed-text-v1" _)
            ["anthropic.claude-v2"] ["foo"] []).
  left. exists "amazon.titan-", "-text-v1". reflexivity.
Defined.

(** When every identifier of the model list contains "embed" or
    "stability", the extraction, the rubric and the loop call no vendor
    and no grader, and end with no row. *)
Lemma skipped_only_loop (E : world)
    (pdf_path task_prompt max_tokens : string) (models : list string)
    (l : log) (text reply : string) :
  Forall (fun m => skipped m = true) models ->
  pdf_text E l pdf_path = inr text ->
  rubric_reply E (l ++ [ExtractText pdf_path]) task_prompt = inr reply ->
  model_loop E pdf_path models task_prompt max_tokens l
  = (l ++ [ExtractText pdf_path; GenerateRubric task_prompt], inr no_rows).
Proof.
  intros Hskip Hpdf Hreply.
  unfold model_loop, text_extraction, dynamic_grading_criteria, mbind,
    call, mret.
  rewrite Hpdf. cbv beta iota. rewrite Hreply. cbv beta iota.
  rewrite <- app_assoc. cbn [app].
  apply foldM_all_skip. eapply Forall_impl; [exact Hskip|].
  intros m Hm b l1. by apply loop_body_skipped.
Qed.

(** C7.  When every identifier of the model list contains "embed" or
    "stability", the identifiers are passed over: the loop calls no
    vendor and no grader and appends no row.  The table made of no rows
    has no column, so the selection of four of its columns that follows
    the loop raises [KeyError]: [final_evaluator] returns nothing on
    such a list, whatever the files, the charts and the scoring model
    would have answered. *)
Theorem embedding_only_raises (E : world) (R : reporter)
    (pdf_path task_prompt max_tokens : string) (models : list string)
    (text reply : string) :
  Forall (fun m => skipped m = true) models ->
  pdf_text E [] pdf_path = inr text ->
  rubric_reply E [ExtractText pdf_path] task_prompt = inr reply ->
  model_loop E pdf_path models task_prompt max_tokens []
  = ([ExtractText pdf_path; GenerateRubric task_prompt], inr no_rows)
  /\ final_evaluator R E pdf_path models task_prompt max_tokens []
     = ([ExtractText pdf_path; GenerateRubric task_prompt], inl KeyError).
Proof.
  intros Hskip Hpdf Hreply.
  pose proof (skipped_only_loop E pdf_path task_prompt max_tokens models []
                text reply Hskip Hpdf Hreply) as Hloop.
  cbn [app] in Hloop. split; [done|].
  unfold final_evaluator, mbind. by rewrite Hloop.
Qed.

(** C7 at the list of amazon.titan-embed-text-v1 alone, with a reporter
    for which nothing fails. *)
Lemma embedding_only_raises_witness :
  final_evaluator obliging steady "doc.pdf" ["amazon.titan-embed-text-v1"]
    "Summarize." "4096" []
  = ([ExtractText "doc.pdf"; GenerateRubric "Summarize."], inl KeyError).
Proof.
  refine (proj2 (embedding_only_raises steady obliging "doc.pdf" "Summarize."
                   "4096" ["amazon.titan-embed-text-v1"] _ _ _ _ _)).
  - repeat constructor.
  - reflexivity.
  - reflexivity.
Defined.

(** C6 (as amended).  When no identifier of the model list names more
    than one family, a run that completes has appended exactly one row,
    and one score map, per identifier that is not passed over and names
    a family, in the order of the list; an identifier that names no
    family gets no row, no call and no error. *)
Theorem one_row_per_model (E : world)
    (pdf_path task_prompt max_tokens : string) (models : list string)
    (l l' : log) (st : acc) :
  Forall (fun m => (length (named_blocks m) <= 1)%nat) models ->
  model_loop E pdf_path models task_prompt max_tokens l = (l', inr st) ->
  map Model (results_list st) = List.filter evaluated models
  /\ length (score_rubric_list st) = length (results_list st)
  /\ (forall m text criteria grading st0 l0,
        named_blocks m = [] ->
        loop_body E text task_prompt max_tokens criteria grading st0 m l0
        = (l0, inr st0)).
Proof.
  intros Hone. unfold model_loop, mbind.
  destruct (text_extraction E pdf_path l) as [l1 [e|text]]; [done|].
  destruct (dynamic_grading_criteria E task_prompt l1)
    as [l2 [e|[criteria grading]]]; [done|].
  intros Hloop. apply loop_rows in Hloop as [Hm Hr]. cbn in Hm, Hr.
  rewrite rows_of_single in Hm, Hr by done. split; [done|]. split.
  - by rewrite Hr, <- (length_map Model), Hm.
  - intros m text' c g st0 l0 Hnone. unfold loop_body.
    destruct (_ || _); [done|]. unfold named_blocks in Hnone.
    revert Hnone. generalize blocks. intros bs.
    revert st0 l0. induction bs as [|b bs IH]; intros st0 l0; [done|].
    cbn [List.filter foldM]. unfold mbind, block at 1.
    destruct (contains b.1 m); [done|]. apply IH.
Qed.

(** C6 in the steady world, on a list with one identifier of each kind. *)
Lemma one_row_per_model_witness :
  exists st,
    (model_loop steady "doc.pdf"
       ["anthropic.claude-v2"; "amazon.titan-embed-text-v1"; "foo"]
       "Summarize." "4096" []).2 = inr st
    /\ map Model (results_list st) = ["anthropic.claude-v2"].
Proof.
  destruct (model_loop steady "doc.pdf"
              ["anthropic.claude-v2"; "amazon.titan-embed-text-v1"; "foo"]
              "Summarize." "4096" []) as [l' [e|st]] eqn:Hrun.
  - vm_compute in Hrun. discriminate Hrun.
  - exists st. split; [reflexivity|].
    refine (proj1 (one_row_per_model steady "doc.pdf" "Summarize." "4096"
                     ["anthropic.claude-v2"; "amazon.titan-embed-text-v1";
                      "foo"] [] l' st _ Hrun)).
    repeat constructor.
Defined.

(** C6 as stated fails on an identifier that names two families: the run
    completes with two rows for it. *)
Lemma two_rows_for_one_model :
  skipped "anthropic-mistral" = false
  /\ match (model_loop steady "doc.pdf" ["anthropic-mistral"]
              "Summarize." "4096" []).2 with
     | inr st =>
         map Model (results_list st)
         = ["anthropic-mistral"; "anthropic-mistral"]
     | inl _ => False
     end.
Proof. split; vm_compute; reflexivity. Qed.





End OrchestratorFacts.

(* ===================================================================== *)
(** ** [gather]: each call once, the results by position *)

Module GatherFacts.
Import World WorldFacts Calls.
Local Open Scope list_scope.

#[local] Instance before_antisymm {A} : AntiSymm (=) (@before A).
Proof. intros x y Hxy Hyx. unfold before in *. lia. Qed.

Lemma place_perm {A} i (a : A) l : place i a l ≡ₚ (i, a) :: l.
Proof.
  induction l as [|[j b] l IH]; [done|]. cbn [place].
  destruct (i <? j)%nat; [done|]. by rewrite IH, Permutation_swap.
Qed.

Lemma place_sorted {A} i (a : A) l :
  StronglySorted before l -> i ∉ l.*1 ->
  StronglySorted before (place i a l).
Proof.
  induction 1 as [|[j b] l Hl IH Hj]; intros Hi; cbn [place].
  - by repeat constructor.
  - cbn in Hi. apply not_elem_of_cons in Hi as [Hij Hi].
    destruct (i <? j)%nat eqn:Hlt.
    + apply Nat.ltb_lt in Hlt. constructor; [by constructor|].
      constructor; [done|]. eapply Forall_impl; [exact Hj|].
      intros [k c]. unfold before. simpl. lia.
    + apply Nat.ltb_ge in Hlt. constructor; [by apply IH|].
      rewrite place_perm. constructor; [|done]. unfold before. simpl. lia.
Qed.

Lemma complete_answers {A} n : forall (running : list (nat * M A)) picks
    results l (vals : list (nat * A)),
  length running = n ->
  Forall2 (fun ic ia => ic.1 = ia.1 /\ answers ic.2 ia.2) running vals ->
  StronglySorted before results ->
  NoDup (vals.*1 ++ results.*1) ->
  exists out,
    (complete n running picks results l).2 = inr out
    /\ out ≡ₚ vals ++ results /\ StronglySorted before out.
Proof.
  induction n as [|n IH]; intros running picks results l vals Hn Hrv Hs Hnd;
    cbn [complete].
  - apply length_zero_iff_nil in Hn as ->. apply Forall2_nil_inv_l in Hrv as ->.
    by exists results.
  - assert (Hlt : (hd 0%nat picks mod length running < length running)%nat)
      by (apply Nat.mod_upper_bound; lia).
    set (i := (hd 0%nat picks mod length running)%nat) in *.
    apply lookup_lt_is_Some_2 in Hlt as [[pos c] Hi]. rewrite Hi.
    destruct (Forall2_lookup_l _ _ _ _ _ Hrv Hi) as ([pos' a] & Hv & Hpos & Ha).
    simpl in Hpos, Ha. subst pos'.
    unfold mbind. specialize (Ha l). destruct (c l) as [l1 r]. simpl in Ha.
    subst r.
    pose proof (delete_Permutation _ _ _ Hv) as Hperm.
    assert (Hnd' : NoDup (pos :: (delete i vals).*1 ++ results.*1)).
    { revert Hnd. by rewrite Hperm at 1. }
    apply NoDup_cons in Hnd' as [Hpos Hnd'].
    destruct (IH (delete i running) (tl picks) (place pos a results) l1
                (delete i vals)) as (out & Hout & Hp & Hso).
    + rewrite length_delete by eauto. lia.
    + by apply Forall2_delete.
    + apply place_sorted; [done|]. intros Hin. apply Hpos.
      apply elem_of_app. by right.
    + rewrite place_perm. cbn [fmap list_fmap fst].
      eapply NoDup_Permutation_proper; [|apply NoDup_cons; split;
        [exact Hpos|exact Hnd']].
      by rewrite Permutation_middle.
    + exists out. split; [done|]. split; [|done].
      etrans; [exact Hp|].
      etrans; [apply Permutation_app_head, place_perm|].
      rewrite <- Permutation_middle. symmetry.
      apply (Permutation_app_tail results Hperm).
Qed.

Lemma imap_pair_sorted {A} (l : list A) k :
  StronglySorted before (imap (fun i a => ((k + i)%nat, a)) l).
Proof.
  revert k. induction l as [|a l IH]; intros k; cbn [imap]; constructor.
  - erewrite imap_ext; [apply (IH (S k))|]. intros i x _. simpl. f_equal. lia.
  - apply Forall_forall. intros [j b] Hin.
    apply list_elem_of_lookup in Hin as [i Hi].
    apply list_lookup_imap_Some in Hi as (x & _ & [= -> ->]).
    unfold before. simpl. lia.
Qed.

(** X1 (first half).  When every call answers the same value whatever
    the log, [gather] answers these values in the order of the calls,
    whatever the order of completion. *)
Lemma gather_answers {A} picks (calls : list (M A)) (values : list A) l :
  Forall2 answers calls values ->
  (gather picks calls l).2 = inr values.
Proof.
  intros Hcv. unfold gather, mbind, ask.
  destruct (complete_answers (length calls)
              (imap (fun i c => (i, c)) calls) (picks l) [] l
              (imap (fun i a => (i, a)) values)) as (out & Hout & Hp & Hs).
  - by rewrite length_imap.
  - apply Forall2_same_length_lookup. split.
    + rewrite !length_imap. by eapply Forall2_length.
    + intros i [j c] [j' a] Hc Ha.
      apply list_lookup_imap_Some in Hc as (c' & Hc & [= -> ->]).
      apply list_lookup_imap_Some in Ha as (a' & Ha & [= -> ->]).
      split; [done|]. simpl. by eapply Forall2_lookup_lr.
  - constructor.
  - rewrite app_nil_r. rewrite fmap_imap.
    erewrite imap_ext; [|by intros; simpl].
    rewrite imap_seq_0, list_fmap_id. apply NoDup_seq.
  - destruct (complete _ _ _ _ _) as [l1 r]. simpl in Hout. subst r.
    cbn. f_equal. rewrite app_nil_r in Hp.
    assert (Heq : out = imap (fun i a => (i, a)) values).
    { apply (StronglySorted_unique before); [done| |done].
      apply (imap_pair_sorted values 0). }
    rewrite Heq. clear.
    change (snd <$> imap (fun i a => (i, a)) values = values).
    rewrite fmap_imap. erewrite (imap_ext _ (const id)); [|done].
    by rewrite imap_const, list_fmap_id.
Qed.

End GatherFacts.

(* ===================================================================== *)
(** ** The orchestrators: who is asked, how often, and what comes back *)

Module OrderFacts.
Import PyStr PyNum PyStrFacts Xml Pricing World WorldFacts Eval Helper
  Orchestrator Sample Calls GatherFacts EvalFacts.
Local Open Scope list_scope.

Lemma model_execution_answers E g model summary src reply :
  (forall l, judge_reply E l g model summary src = inr reply) ->
  answers (model_execution E g model summary src)
    (strip (parse_xml reply "score"), strip (parse_xml reply "thoughts")).
Proof.
  intros Hr l. unfold model_execution, mbind, call, mret. by rewrite Hr.
Qed.

(** X1.  With a scoring model whose reply to a grader does not depend on
    what happened before, the orchestrator returns what [score_results]
    makes of the graders' answers taken in the order of the graders,
    whatever the order of completion; in the score map each score key
    then carries the score of its own dimension's grader. *)
Theorem scores_by_dimension (E : world)
    (src model summary task crit scale : string)
    (reply : grader -> string) (l : log) :
  (forall l0 g, judge_reply E l0 g model summary src = inr (reply g)) ->
  let score g := strip (parse_xml (reply g) "score") in
  let answer g := (score g, strip (parse_xml (reply g) "thoughts")) in
  (evaluate_model_output_orchestrator E src model summary task crit scale l).2
  = score_results model summary (map answer (nine_graders task crit scale))
  /\ (forall final_score final_summary final_score_rubric,
        score_results model summary (map answer (nine_graders task crit scale))
        = inr (final_score, final_summary, final_score_rubric) ->
        final_score_rubric
        = [ ("model_name", model);
            ("model_completeness_score", score eval_model_completeness);
            ("model_accuracy_score", score eval_model_accuracy);
            ("model_flow_score", score eval_model_flow);
            ("model_structure_score", score eval_model_structure);
            ("model_conciseness_score", score eval_model_conciseness);
            ("model_clarity_score", score eval_model_clarity);
            ("model_objectivity_score", score eval_model_objectivity);
            ("model_tone_score", score eval_model_tone);
            ("model_task_score", score (eval_model_task task crit scale)) ]).
Proof.
  intros Hr score answer. split.
  - assert (HF : Forall2 answers
                    (graders E src model summary task crit scale)
                    (map answer (nine_graders task crit scale))).
    { change (graders E src model summary task crit scale)
        with (map (fun g => model_execution E g model summary src)
                (nine_graders task crit scale)).
      generalize (nine_graders task crit scale). intros gs.
      induction gs as [|g gs IH]; cbn [map]; constructor; [|done].
      apply model_execution_answers. intros l0. apply Hr. }
    unfold evaluate_model_output_orchestrator, mbind.
    pose proof (gather_answers (completion E) _ _ l HF) as Hg.
    destruct (gather _ _ _) as [l1 r]. cbn [snd] in Hg. by rewrite Hg.
  - intros fs sm rub. unfold score_results, nine_graders.
    cbn [map index lookup list_lookup bind ret answer].
    repeat match goal with
           | |- context [int ?s] =>
               destruct (int s) as [?|?]; [done|]; cbn [bind]
           end.
    destruct (truediv _ _) as [?|?]; [done|]. cbn [bind ret].
    by intros [= _ _ <-].
Qed.

(** X1 in the steady world. *)
Lemma scores_by_dimension_witness :
  (evaluate_model_output_orchestrator steady "A short document."
     "anthropic.claude-v2" "A summary." "Summarize." "crit" "scale" []).2
  = score_results "anthropic.claude-v2" "A summary."
      [ ("5", "good"); ("5", "good"); ("5", "good"); ("5", "good");
        ("5", "good"); ("5", "good"); ("5", "good"); ("5", "good");
        ("4", "fine") ].
Proof.
  refine (proj1 (scores_by_dimension steady "A short document."
                   "anthropic.claude-v2" "A summary." "Summarize." "crit"
                   "scale"
                   (fun g => match g with
                             | eval_model_task _ _ _ =>
                                 "<thoughts>fine</thoughts><score>4</score>"
                             | _ => "<thoughts>good</thoughts> <score>5</score>"
                             end)
                   [] _)).
  intros l0 g. reflexivity.
Defined.

Lemma score_results_errors model_name model_summary result e :
  length result = 9%nat ->
  score_results model_name model_summary result = inl e ->
  e = ValueError \/ e = OverflowError.
Proof.
  intros Hlen. nine result Hlen. clear Hlen.
  repeat match goal with r : (string * string)%type |- _ => destruct r end.
  unfold score_results. cbn [index lookup list_lookup bind ret].
  repeat match goal with
         | |- context [int ?s] =>
             let Hs := fresh "Hs" in
             destruct (int_cases s) as [Hs|[? Hs]]; rewrite Hs;
             [intros [= <-]; by left|cbn [bind]]
         end.
  unfold truediv. cbn [to_float]. unfold float_of_int.
  destruct (is_finite _); cbn [bind ret raise].
  - by rewrite float_truediv_9.
  - intros [= <-]. by right.
Qed.

(** X2.  Once the nine graders have answered, the orchestrator either
    returns or raises [ValueError] (a score that does not convert) or
    [OverflowError] (a sum too large for a float): it never fails on an
    index and never divides by zero. *)
Theorem orchestrator_errors (E : world)
    (src model summary task crit scale : string) (l l' : log)
    (result : list (string * string)) (e : exn) :
  gather (completion E) (graders E src model summary task crit scale) l
  = (l', inr result) ->
  (evaluate_model_output_orchestrator E src model summary task crit scale l).2
  = inl e ->
  e = ValueError \/ e = OverflowError.
Proof.
  intros Hg. rewrite (orchestrator_eq _ _ _ _ _ _ _ _ _ _ Hg). cbn [snd].
  apply score_results_errors.
  rewrite (gather_length _ _ _ _ _ Hg). apply graders_length.
Qed.

(** X2 in the silent world, where the task score is missing. *)
Lemma orchestrator_errors_witness :
  ValueError = ValueError \/ ValueError = OverflowError.
Proof.
  refine (orchestrator_errors silent "A short document."
            "anthropic.claude-v2" "A summary." "Summarize." "crit" "scale"
            [] _
            [ ("5", "good"); ("5", "good"); ("5", "good"); ("5", "good");
              ("5", "good"); ("5", "good"); ("5", "good"); ("5", "good");
              ("", "unsure") ] ValueError _ _).
  - vm_compute. reflexivity.
  - vm_compute. reflexivity.
Defined.

(** *** The calls of a block and of a run *)

(** A call that logs exactly the event [ev]. *)
Lemma complete_logs {A} n : forall (running : list (nat * M A)) picks
    results l l' out (evs : list event),
  length running = n ->
  Forall2 (fun ic ev => forall l0, (ic.2 l0).1 = l0 ++ [ev]) running evs ->
  complete n running picks results l = (l', inr out) ->
  exists ext, l' = l ++ ext /\ ext ≡ₚ evs.
Proof.
  induction n as [|n IH]; intros running picks results l l' out evs Hn Hre;
    cbn [complete].
  - apply length_zero_iff_nil in Hn as ->. apply Forall2_nil_inv_l in Hre as ->.
    intros [= <- _]. exists []. by rewrite app_nil_r.
  - assert (Hlt : (hd 0%nat picks mod length running < length running)%nat)
      by (apply Nat.mod_upper_bound; lia).
    set (i := (hd 0%nat picks mod length running)%nat) in *.
    apply lookup_lt_is_Some_2 in Hlt as [[pos c] Hi]. rewrite Hi.
    destruct (Forall2_lookup_l _ _ _ _ _ Hre Hi) as (ev & Hev & Hlog).
    simpl in Hlog. unfold mbind. specialize (Hlog l).
    destruct (c l) as [l1 [e|a]]; [done|]. simpl in Hlog. subst l1.
    intros Hrest. eapply IH in Hrest as (ext & -> & Hext).
    + exists (ev :: ext). rewrite <- app_assoc. split; [done|].
      rewrite Hext. symmetry. by apply delete_Permutation.
    + rewrite length_delete by eauto. lia.
    + by apply Forall2_delete.
Qed.

Lemma gather_logs {A} picks (calls : list (M A)) (evs : list event) l l' out :
  Forall2 (fun c ev => forall l0, (c l0).1 = l0 ++ [ev]) calls evs ->
  gather picks calls l = (l', inr out) ->
  exists ext, l' = l ++ ext /\ ext ≡ₚ evs.
Proof.
  intros Hce. unfold gather, mbind, ask.
  destruct (complete _ _ _ _ _) as [l1 [e|results]] eqn:Hc; [done|].
  intros [= <- _].
  eapply (complete_logs _ _ _ _ _ _ _ evs) in Hc; [done|by rewrite length_imap|].
  apply Forall2_same_length_lookup. split.
  - rewrite length_imap. by eapply Forall2_length.
  - intros i [j c] ev Hc' Hev.
    apply list_lookup_imap_Some in Hc' as (c' & Hc' & [= -> ->]).
    simpl. by eapply (Forall2_lookup_lr _ _ _ _ _ _ Hce).
Qed.

Lemma model_execution_logs E g model summary src l0 :
  (model_execution E g model summary src l0).1
  = l0 ++ [Grade g model summary src].
Proof.
  unfold model_execution, mbind, call, mret.
  by destruct (judge_reply E l0 g model summary src).
Qed.

(** An evaluation that completes has asked each of the nine graders
    once. *)
Lemma orchestrator_logs E src model summary task crit scale l l' x :
  evaluate_model_output_orchestrator E src model summary task crit scale l
  = (l', inr x) ->
  exists ext,
    l' = l ++ ext
    /\ ext ≡ₚ map (fun g => Grade g model summary src)
                 (nine_graders task crit scale).
Proof.
  unfold evaluate_model_output_orchestrator, mbind, lift.
  destruct (gather _ _ _) as [l1 [e|result]] eqn:Hg; [done|].
  intros [= <- _]. eapply gather_logs in Hg; [done|].
  change (graders E src model summary task crit scale)
    with (map (fun g => model_execution E g model summary src)
            (nine_graders task crit scale)).
  generalize (nine_graders task crit scale). intros gs.
  induction gs as [|g gs IH]; cbn [map]; constructor; [|done].
  intros l0. apply model_execution_logs.
Qed.

Lemma count_app p l1 l2 : count p (l1 ++ l2) = (count p l1 + count p l2)%nat.
Proof. unfold count. by rewrite List.filter_app, length_app. Qed.

Lemma count_perm p l1 l2 : l1 ≡ₚ l2 -> count p l1 = count p l2.
Proof.
  unfold count. induction 1 as [|x l1 l2 _ IH|x y l|l1 l2 l3 _ IH1 _ IH2];
    cbn [List.filter]; [done| | |congruence].
  - destruct (p x); cbn [length]; by rewrite ?IH.
  - by destruct (p x), (p y).
Qed.

Section Run.
Context (E : world).
Context (text prompt max_tokens criteria grading : string).

#[local] Abbreviation body :=
  (loop_body E text prompt max_tokens criteria grading).
#[local] Abbreviation one_block :=
  (block E text prompt max_tokens criteria grading).
#[local] Abbreviation the_block :=
  (block_body E text prompt max_tokens criteria grading).

(** What a completed block has appended to the log. *)
Lemma block_log a model st st' l l' :
  the_block a model st l = (l', inr st') ->
  exists summary gs,
    l' = l ++ [ReadTimer; InvokeModel a model prompt text max_tokens;
               ReadTimer] ++ gs
    /\ gs ≡ₚ map (fun g => Grade g model summary text)
                (nine_graders prompt criteria grading).
Proof.
  unfold block_body, mbind, timer, invoke, call, lift, ret, mret.
  destruct (vendor E _ _ _ _ _ _) as [e|[[out it] ot]]; [done|].
  destruct (truediv _ _) as [e|cpt]; [done|].
  destruct (calculate_total_price _ _ _) as [e|[[[ic oc] tc] tk]]; [done|].
  destruct (evaluate_model_output_orchestrator _ _ _ _ _ _ _ _)
    as [l2 [e|[[fs sm] rub]]] eqn:Ho; [done|].
  intros [= <- _]. apply orchestrator_logs in Ho as (ext & -> & Hext).
  exists out, ext. by rewrite <- !app_assoc.
Qed.

(** X3.  A block that completes has read the timer, called its vendor
    once, read the timer again, and only then asked each of the nine
    graders once, in some order, about the output the vendor returned:
    the two timer readings enclose the vendor call and nothing else, and
    nothing is asked twice. *)
Theorem block_calls (a : adapter) (model : string) (st st' : acc)
    (l l' : log) :
  the_block a model st l = (l', inr st') ->
  exists summary gs,
    l' = l ++ [ReadTimer; InvokeModel a model prompt text max_tokens;
               ReadTimer] ++ gs
    /\ gs ≡ₚ map (fun g => Grade g model summary text)
                (nine_graders prompt criteria grading)
    /\ (exists input_tokens output_tokens,
          vendor E (l ++ [ReadTimer]) a model prompt text max_tokens
          = inr (summary, input_tokens, output_tokens)).
Proof.
  unfold block_body, mbind, timer, invoke, call, lift, ret, mret.
  destruct (vendor E _ _ _ _ _ _) as [e|[[out it] ot]] eqn:Hv; [done|].
  destruct (truediv _ _) as [e|cpt]; [done|].
  destruct (calculate_total_price _ _ _) as [e|[[[ic oc] tc] tk]]; [done|].
  destruct (evaluate_model_output_orchestrator _ _ _ _ _ _ _ _)
    as [l2 [e|[[fs sm] rub]]] eqn:Ho; [done|].
  intros [= <- _].
  destruct (orchestrator_logs _ _ _ _ _ _ _ _ _ _ Ho) as (ext & -> & Hext).
  exists out, ext. rewrite <- !app_assoc. split; [done|]. split; [done|].
  by exists it, ot.
Qed.

Lemma block_counts a model st st' l l' :
  the_block a model st l = (l', inr st') ->
  count is_invoke l' = S (count is_invoke l)
  /\ count is_grade l' = (9 + count is_grade l)%nat
  /\ count is_timer l' = (2 + count is_timer l)%nat
  /\ length l' = (12 + length l)%nat
  /\ length (results_list st') = S (length (results_list st)).
Proof.
  intros Hb. pose proof Hb as (summary & gs & -> & Hgs)%block_log.
  rewrite !count_app, !(count_perm _ _ _ Hgs), !length_app.
  rewrite (Permutation_length Hgs). cbn.
  repeat split; try lia.
  revert Hb. unfold block_body, mbind, timer, invoke, call, lift, ret, mret.
  destruct (vendor E _ _ _ _ _ _) as [e|[[out it] ot]]; [done|].
  destruct (truediv _ _) as [e|cpt]; [done|].
  destruct (calculate_total_price _ _ _) as [e|[[[ic oc] tc] tk]]; [done|].
  destruct (evaluate_model_output_orchestrator _ _ _ _ _ _ _ _)
    as [l2 [e|[[fs sm] rub]]]; [done|].
  intros [= _ <-]. cbn. rewrite length_app. cbn. lia.
Qed.

Lemma in_step_refl st l : in_step st st l l.
Proof. unfold in_step. cbn zeta. repeat split; lia. Qed.

Lemma in_step_trans st1 st2 st3 l1 l2 l3 :
  in_step st1 st2 l1 l2 -> in_step st2 st3 l2 l3 -> in_step st1 st3 l1 l3.
Proof. unfold in_step. cbn zeta. intros (?&?&?&?&?) (?&?&?&?&?). repeat split; lia. Qed.

Lemma blocks_in_step model bs : forall st l l' st',
  foldM (one_block model) st bs l = (l', inr st') -> in_step st st' l l'.
Proof.
  induction bs as [|b bs IH]; intros st l l' st'; cbn [foldM].
  - intros [= <- <-]. apply in_step_refl.
  - unfold mbind. destruct (one_block model st b l) as [l1 [e|st1]] eqn:Hb;
      [done|].
    intros Hrest%IH. eapply in_step_trans; [|exact Hrest].
    unfold block in Hb. destruct (contains b.1 model).
    + apply block_counts in Hb as (?&?&?&?&?). unfold in_step. cbn zeta.
      repeat split; lia.
    + injection Hb as <- <-. apply in_step_refl.
Qed.

Lemma loop_in_step models : forall st l l' st',
  foldM body st models l = (l', inr st') -> in_step st st' l l'.
Proof.
  induction models as [|m models IH]; intros st l l' st'; cbn [foldM].
  - intros [= <- <-]. apply in_step_refl.
  - unfold mbind. destruct (body st m l) as [l1 [e|st1]] eqn:Hb; [done|].
    intros Hrest%IH. eapply in_step_trans; [|exact Hrest].
    unfold loop_body in Hb. destruct (_ || _).
    + injection Hb as <- <-. apply in_step_refl.
    + by eapply blocks_in_step.
Qed.

End Run.

(** X4.  A run that completes has made, besides the text extraction and
    the one rubric generation, exactly one vendor call, two timer
    readings and nine grading calls per row it returns, and nothing
    else: no call is repeated. *)
Theorem run_call_counts (E : world)
    (pdf_path task_prompt max_tokens : string) (models : list string)
    (l' : log) (st : acc) :
  model_loop E pdf_path models task_prompt max_tokens [] = (l', inr st) ->
  let rows := length (results_list st) in
  count is_invoke l' = rows
  /\ count is_grade l' = (9 * rows)%nat
  /\ count is_timer l' = (2 * rows)%nat
  /\ length l' = (2 + 12 * rows)%nat.
Proof.
  unfold model_loop, mbind, text_extraction, dynamic_grading_criteria,
    call, mret.
  cbv beta.
  destruct (pdf_text E [] pdf_path) as [e|text]; [done|].
  unfold mbind. cbv beta.
  destruct (rubric_reply E _ task_prompt) as [e|reply]; [done|].
  cbv beta iota. intros Hloop%loop_in_step.
  destruct Hloop as (_ & Hi & Hg & Ht & Hl). cbn in Hi, Hg, Ht, Hl.
  cbn zeta. rewrite Nat.sub_0_r in *. repeat split; lia.
Qed.

(** X4 in the steady world, on two identifiers that are evaluated and
    one that is passed over. *)
Lemma run_call_counts_witness :
  match model_loop steady "doc.pdf"
          ["anthropic.claude-v2"; "amazon.titan-embed-text-v1";
           "meta.llama3-8b-instruct-v1:0"] "Summarize." "4096" [] with
  | (l', inr st) =>
      count is_invoke l' = 2%nat /\ count is_grade l' = 18%nat
      /\ length (results_list st) = 2%nat
  | _ => False
  end.
Proof.
  destruct (model_loop steady "doc.pdf"
              ["anthropic.claude-v2"; "amazon.titan-embed-text-v1";
               "meta.llama3-8b-instruct-v1:0"] "Summarize." "4096" [])
    as [l' [e|st]] eqn:Hrun.
  - vm_compute in Hrun. discriminate Hrun.
  - pose proof (run_call_counts steady "doc.pdf" "Summarize." "4096" _ l' st
                  Hrun) as (Hi & Hg & _).
    assert (Hrows : length (results_list st) = 2%nat).
    { vm_compute in Hrun. by injection Hrun as _ <-. }
    rewrite Hi, Hg, Hrows. clear. repeat split; reflexivity.
Defined.

(** X3 in the steady world. *)
Lemma block_calls_witness :
  match block_body steady "A short document." "Summarize." "4096" "crit"
          "scale" invoke_anthropic "anthropic.claude-v2" no_rows [] with
  | (l', inr st') =>
      exists summary gs,
        l' = [ReadTimer;
              InvokeModel invoke_anthropic "anthropic.claude-v2"
                "Summarize." "A short document." "4096";
              ReadTimer] ++ gs
        /\ gs ≡ₚ map (fun g => Grade g "anthropic.claude-v2" summary
                                 "A short document.")
                    (nine_graders "Summarize." "crit" "scale")
  | _ => False
  end.
Proof.
  destruct (block_body steady "A short document." "Summarize." "4096" "crit"
              "scale" invoke_anthropic "anthropic.claude-v2" no_rows [])
    as [l' [e|st']] eqn:Hrun.
  - vm_compute in Hrun. discriminate Hrun.
  - destruct (block_calls steady "A short document." "Summarize." "4096"
                "crit" "scale" invoke_anthropic "anthropic.claude-v2"
                no_rows st' [] l' Hrun) as (summary & gs & Hl & Hgs & _).
    exists summary, gs. split; [exact Hl | exact Hgs].
Defined.

End OrderFacts.

(* ===================================================================== *)
(** ** The rows of a run *)

Module RunFacts.
Import PyStr PyNum PyStrFacts Xml XmlFacts Pricing PricingFacts World
  WorldFacts Eval Helper Orchestrator Sample Calls Ui Plots Tables Cases
  EvalFacts OrchestratorFacts.
Local Open Scope list_scope.

(** What a successful scoring returns. *)
Lemma score_results_inv model_name model_summary result fs fsum rub :
  score_results model_name model_summary result = inr (fs, fsum, rub) ->
  rub !! 0%nat = Some ("model_name", model_name)
  /\ exists ns f,
       Forall2 (fun s n => int s = inr n) (scores_of rub) ns
       /\ float_of_int (total ns) = inr f
       /\ fs = Float (f / 9).
Proof.
  unfold score_results.
  repeat match goal with
         | |- context [index result ?i] =>
             destruct (index result i) as [?|[? ?]]; [done|]; cbn [bind]
         end.
  repeat match goal with
         | |- context [int ?s] =>
             let Hs := fresh "Hs" in
             destruct (int s) as [?|?] eqn:Hs; [done|]; cbn [bind]
         end.
  unfold truediv. cbn [to_float].
  destruct (float_of_int _) as [?|f] eqn:Hf; [done|]. cbn [bind ret].
  rewrite float_truediv_9. cbn [bind ret]. intros [= <- _ <-].
  split; [done|].
  eexists [_; _; _; _; _; _; _; _; _], f. split; [|split; [|done]].
  - unfold scores_of. cbn [drop fmap list_fmap snd].
    repeat (apply Forall2_cons; split; [eassumption|]). apply Forall2_nil_2.
  - rewrite <- Hf. f_equal. unfold total. cbn [foldr]. lia.
Qed.

Section Run.
Context (E : world).
Context (text prompt max_tokens criteria grading : string).

#[local] Abbreviation body :=
  (loop_body E text prompt max_tokens criteria grading).
#[local] Abbreviation one_block :=
  (block E text prompt max_tokens criteria grading).
#[local] Abbreviation the_block :=
  (block_body E text prompt max_tokens criteria grading).

(** A block that completes has appended one row and one score map, which
    agree, and the row is consistent. *)
Lemma block_body_inv a model st l l' st' :
  the_block a model st l = (l', inr st') ->
  exists r score_map,
    results_list st' = results_list st ++ [r]
    /\ score_rubric_list st' = score_rubric_list st ++ [score_map]
    /\ Model r = model
    /\ agree r score_map
    /\ consistent text r.
Proof.
  unfold block_body, mbind, timer, invoke, call, lift, ret, mret.
  destruct (vendor E _ _ _ _ _ _) as [e|[[out it] ot]]; [done|].
  destruct (truediv _ _) as [e|cpt] eqn:Hdiv; [done|].
  destruct (calculate_total_price _ _ _) as [e|[[[ic oc] tc] tk]] eqn:Hp;
    [done|].
  destruct (evaluate_model_output_orchestrator _ _ _ _ _ _ _ _)
    as [l2 [e|[[fs sm] rub]]] eqn:Ho; [done|].
  intros [= _ <-]. cbn [results_list score_rubric_list].
  eexists _, rub. split; [done|]. split; [done|]. split; [done|].
  assert (Hs : exists result,
             score_results model out result = inr (fs, sm, rub)).
  { revert Ho. unfold evaluate_model_output_orchestrator, mbind, lift.
    destruct (gather _ _ _) as [l3 [e|result]]; [done|].
    intros [= _ Hs]. by exists result. }
  destruct Hs as [result Hs]. split.
  - unfold agree, format. cbn.
    split; [by eapply score_results_keys|].
    by apply score_results_inv in Hs.
  - unfold consistent, format. cbn. split; [done|]. split; [|split].
    + revert Hdiv. unfold truediv. cbn [to_float].
      destruct (float_of_int _); [done|]. cbn [bind ret].
      unfold float_truediv. by destruct (PrimFloat.eqb _ 0).
    + done.
    + by exists it, ot.
Qed.

Lemma blocks_inv model bs : forall st l l' st',
  foldM (one_block model) st bs l = (l', inr st') ->
  exists rs sms,
    results_list st' = results_list st ++ rs
    /\ score_rubric_list st' = score_rubric_list st ++ sms
    /\ Forall2 agree rs sms
    /\ Forall (consistent text) rs.
Proof.
  induction bs as [|b bs IH]; intros st l l' st'; cbn [foldM].
  - intros [= _ <-]. exists [], []. by rewrite !app_nil_r.
  - unfold mbind. destruct (one_block model st b l) as [l1 [e|st1]] eqn:Hb;
      [done|].
    intros (rs & sms & Hr & Hs & Ha & Hc)%IH. unfold block in Hb.
    destruct (contains b.1 model).
    + apply block_body_inv in Hb as (r & sm & Hr1 & Hs1 & _ & Ha1 & Hc1).
      exists (r :: rs), (sm :: sms).
      rewrite Hr, Hr1, Hs, Hs1, <- !app_assoc.
      repeat split; by constructor.
    + injection Hb as _ <-. by exists rs, sms.
Qed.

Lemma loop_inv models : forall st l l' st',
  foldM body st models l = (l', inr st') ->
  exists rs sms,
    results_list st' = results_list st ++ rs
    /\ score_rubric_list st' = score_rubric_list st ++ sms
    /\ Forall2 agree rs sms
    /\ Forall (consistent text) rs.
Proof.
  induction models as [|m models IH]; intros st l l' st'; cbn [foldM].
  - intros [= _ <-]. exists [], []. by rewrite !app_nil_r.
  - unfold mbind. destruct (body st m l) as [l1 [e|st1]] eqn:Hb; [done|].
    intros (rs & sms & Hr & Hs & Ha & Hc)%IH. unfold loop_body in Hb.
    destruct (_ || _).
    + injection Hb as _ <-. by exists rs, sms.
    + apply blocks_inv in Hb as (rs1 & sms1 & Hr1 & Hs1 & Ha1 & Hc1).
      exists (rs1 ++ rs), (sms1 ++ sms).
      rewrite Hr, Hr1, Hs, Hs1, <- !app_assoc.
      repeat split; [by apply Forall2_app|by apply Forall_app].
Qed.

End Run.

(** The run, once the text is extracted and the rubric generated, is the
    loop. *)
Lemma model_loop_inv E pdf_path models task_prompt max_tokens l' st :
  model_loop E pdf_path models task_prompt max_tokens [] = (l', inr st) ->
  exists text criteria grading,
    pdf_text E [] pdf_path = inr text
    /\ (dynamic_grading_criteria E task_prompt [ExtractText pdf_path]).2
       = inr (criteria, grading)
    /\ foldM (loop_body E text task_prompt max_tokens criteria grading)
         no_rows models [ExtractText pdf_path; GenerateRubric task_prompt]
       = (l', inr st).
Proof.
  unfold model_loop, mbind, text_extraction, call. cbn [app].
  destruct (pdf_text E [] pdf_path) as [e|text]; [done|].
  destruct (dynamic_grading_criteria E task_prompt [ExtractText pdf_path])
    as [l1 [e|[criteria grading]]] eqn:Hgen; [done|].
  assert (Hl1 : l1 = [ExtractText pdf_path; GenerateRubric task_prompt]).
  { unfold dynamic_grading_criteria, mbind, call in Hgen.
    destruct (rubric_reply E _ _); by injection Hgen as <- _. }
  subst l1. intros Hloop. by exists text, criteria, grading.
Qed.

(** X5.  The two tables of a run are aligned.  When the model loop has
    completed, the results table and the score table have the same
    number of rows, and row by row: the score map has the ten keys, its
    [model_name] is the [Model] of the results row, its nine score
    strings convert to integers, and the [Summary Score] of the results
    row is the sum of these nine integers, as a float, divided by
    [9.0]. *)
Theorem tables_agree (E : world)
    (pdf_path task_prompt max_tokens : string) (models : list string)
    (l' : log) (st : acc) :
  model_loop E pdf_path models task_prompt max_tokens [] = (l', inr st) ->
  Forall2 agree (results_list st) (score_rubric_list st).
Proof.
  intros (text & criteria & grading & _ & _ & Hloop)%model_loop_inv.
  by apply loop_inv in Hloop as (rs & sms & -> & -> & Ha & _).
Qed.

(** X6.  The columns of a results row are consistent.  In every row of a
    completed run the character count is the length of the extracted
    text (the same in every row), the time length is not zero, the
    characters per second are the quotient of the two, and the four cost
    columns are what [calculate_total_price] returns for the row's model
    on one pair of token counts. *)
Theorem rows_consistent (E : world)
    (pdf_path task_prompt max_tokens : string) (models : list string)
    (l' : log) (st : acc) (text : string) :
  pdf_text E [] pdf_path = inr text ->
  model_loop E pdf_path models task_prompt max_tokens [] = (l', inr st) ->
  Forall (consistent text) (results_list st).
Proof.
  intros Hpdf (text' & criteria & grading & Hpdf' & _ & Hloop)%model_loop_inv.
  rewrite Hpdf in Hpdf'. injection Hpdf' as <-.
  by apply loop_inv in Hloop as (rs & sms & -> & _ & _ & Hc).
Qed.

(** X5 in the steady world. *)
Lemma tables_agree_witness :
  match model_loop steady "doc.pdf"
          ["anthropic.claude-v2"; "meta.llama3-8b-instruct-v1:0"]
          "Summarize." "4096" [] with
  | (_, inr st) => Forall2 agree (results_list st) (score_rubric_list st)
  | _ => False
  end.
Proof.
  destruct (model_loop steady "doc.pdf"
              ["anthropic.claude-v2"; "meta.llama3-8b-instruct-v1:0"]
              "Summarize." "4096" []) as [l' [e|st]] eqn:Hrun.
  - vm_compute in Hrun. discriminate Hrun.
  - exact (tables_agree steady "doc.pdf" "Summarize." "4096" _ l' st Hrun).
Defined.

(** X6 in the steady world. *)
Lemma rows_consistent_witness :
  match model_loop steady "doc.pdf"
          ["anthropic.claude-v2"; "meta.llama3-8b-instruct-v1:0"]
          "Summarize." "4096" [] with
  | (_, inr st) => Forall (consistent "A short document.") (results_list st)
  | _ => False
  end.
Proof.
  destruct (model_loop steady "doc.pdf"
              ["anthropic.claude-v2"; "meta.llama3-8b-instruct-v1:0"]
              "Summarize." "4096" []) as [l' [e|st]] eqn:Hrun.
  - vm_compute in Hrun. discriminate Hrun.
  - exact (rows_consistent steady "doc.pdf" "Summarize." "4096" _ l' st
             "A short document." eq_refl Hrun).
Defined.

(** *** The identifiers the front end offers *)

Lemma offered_all : forallb offered_ok model_options = true.
Proof. by vm_compute. Qed.

Lemma offered m :
  m ∈ model_options ->
  skipped m = false /\ length (named_blocks m) = 1%nat
  /\ is_Some (model_input_token_prices !! m)
  /\ is_Some (model_output_token_prices !! m).
Proof.
  intros Hm%list_elem_of_In. pose proof offered_all as Hall.
  rewrite forallb_forall in Hall. apply Hall in Hm. unfold offered_ok in Hm.
  apply andb_prop in Hm as [[[Hs Hn]%andb_prop Hi%bool_decide_eq_true]%andb_prop
                            Ho%bool_decide_eq_true].
  apply negb_true_iff in Hs. by apply Nat.eqb_eq in Hn.
Qed.

(** For a priced model the four costs are floats. *)
Lemma priced_costs_float i o model ic oc tc tk :
  is_Some (model_input_token_prices !! model) ->
  is_Some (model_output_token_prices !! model) ->
  calculate_total_price i o model = inr (ic, oc, tc, tk) ->
  exists a b c d, ic = Float a /\ oc = Float b /\ tc = Float c /\ tk = Float d.
Proof.
  intros [ri Hi] [ro Ho].
  unfold calculate_total_price, calculate_input_price,
    calculate_output_price, price_of.
  rewrite Hi, Ho. unfold truediv.
  destruct (int_truediv i 1000) as [?|qi]; [done|].
  destruct (int_truediv o 1000) as [?|qo]; [done|].
  cbn [bind add mul round to_float ret]. rewrite float_of_int_1000.
  cbn [bind ret]. intros [= <- <- <- <-].
  eexists _, _, _, _. repeat split; reflexivity.
Qed.

(** X7.  Every identifier the front end offers is evaluated by exactly
    one family block and is in both price tables.  So, when the model
    loop has completed on a selection of offered identifiers, the results
    table has one row per selected identifier, in the order of the
    selection, and the four cost columns of every row are floats computed
    from the price tables, never the integer zero of an unpriced model. *)
Theorem offered_models_rows (E : world)
    (pdf_path task_prompt max_tokens : string) (models : list string)
    (l' : log) (st : acc) :
  Forall (fun m => m ∈ model_options) models ->
  model_loop E pdf_path models task_prompt max_tokens [] = (l', inr st) ->
  map Model (results_list st) = models
  /\ Forall (fun r => exists a b c d,
               Input_Cost r = Float a /\ Output_Cost r = Float b
               /\ Total_Cost r = Float c /\ Total_Cost_1000 r = Float d)
       (results_list st).
Proof.
  intros Hoff (text & criteria & grading & _ & _ & Hloop)%model_loop_inv.
  pose proof (loop_rows _ _ _ _ _ _ _ _ _ _ _ Hloop) as [Hm _].
  cbn [no_rows results_list map app] in Hm.
  assert (Hrows : flat_map rows_of models = models).
  { clear -Hoff. induction Hoff as [|m models Hm _ IH]; [done|].
    cbn [flat_map]. rewrite IH. apply offered in Hm as (Hs & Hn & _).
    unfold rows_of. by rewrite Hs, Hn. }
  rewrite Hrows in Hm. split; [done|].
  apply loop_inv in Hloop as (rs & sms & Hr & _ & _ & Hc).
  cbn [no_rows results_list app] in Hr. rewrite Hr in *. clear Hr.
  assert (Hin : Forall (fun r => Model r ∈ model_options) rs).
  { rewrite <- Hm in Hoff. by apply Forall_fmap in Hoff. }
  clear -Hc Hin. induction Hc as [|r rs Hr _ IH]; [done|].
  apply Forall_cons in Hin as [Hin1 Hin]. constructor; [|by apply IH].
  destruct Hr as (_ & _ & _ & it & ot & Hp).
  apply offered in Hin1 as (_ & _ & Hi & Ho).
  by eapply priced_costs_float.
Qed.

(** X7 in the steady world: three offered identifiers. *)
Lemma offered_models_rows_witness :
  match model_loop steady "doc.pdf"
          ["ai21.j2-mid-v1"; "anthropic.claude-v2"; "cohere.command-text-v14"]
          "Summarize." "4096" [] with
  | (_, inr st) =>
      map Model (results_list st)
      = ["ai21.j2-mid-v1"; "anthropic.claude-v2"; "cohere.command-text-v14"]
  | _ => False
  end.
Proof.
  destruct (model_loop steady "doc.pdf"
              ["ai21.j2-mid-v1"; "anthropic.claude-v2"; "cohere.command-text-v14"]
              "Summarize." "4096" []) as [l' [e|st]] eqn:Hrun.
  - vm_compute in Hrun. discriminate Hrun.
  - refine (proj1 (offered_models_rows steady "doc.pdf" "Summarize." "4096"
                     _ l' st _ Hrun)).
    repeat (constructor;
            [apply (bool_decide_unpack _); vm_compute; reflexivity|]).
    constructor.
Defined.

(** *** The score table and the chart of the scores *)

Lemma columns_keys (keys : list string) (sms : list (list (string * string))) c :
  sms <> [] -> Forall (fun sm => sm.*1 = keys) sms ->
  c ∈ columns sms <-> c ∈ keys.
Proof.
  intros Hne Hk. unfold columns. rewrite elem_of_remove_dups.
  rewrite list_elem_of_In, in_concat. split.
  - intros (ks & Hks & Hc). apply in_map_iff in Hks as (sm & <- & Hsm).
    apply list_elem_of_In in Hsm.
    rewrite Forall_forall in Hk. rewrite <- (Hk _ Hsm).
    by apply list_elem_of_In.
  - intros Hc. destruct sms as [|sm sms]; [done|].
    apply Forall_cons in Hk as [Hsm _].
    exists (map fst sm). split; [by left|].
    apply list_elem_of_In. by rewrite <- Hsm in Hc.
Qed.

(** X8.  The score table of a run passes the column check of the
    performance chart.  When the model loop has completed with at least
    one row, the columns of the score table are exactly the ten keys of
    a score map, so every column [plot_model_performance_comparisons]
    requires is there and its missing-column [ValueError] is not raised;
    the accuracy score is a column of the table but is not among the
    metrics the chart draws. *)
Theorem performance_chart_columns (E : world)
    (pdf_path task_prompt max_tokens : string) (models : list string)
    (l' : log) (st : acc) :
  model_loop E pdf_path models task_prompt max_tokens [] = (l', inr st) ->
  results_list st <> [] ->
  (forall c, c ∈ columns (score_rubric_list st) <-> c ∈ score_map_keys)
  /\ check_columns performance_columns (columns (score_rubric_list st))
     = inr tt
  /\ missing_cols performance_columns (columns (score_rubric_list st)) = []
  /\ "model_accuracy_score" ∈ columns (score_rubric_list st)
  /\ "model_accuracy_score" ∉ metrics.
Proof.
  intros (text & criteria & grading & _ & _ & Hloop)%model_loop_inv Hne.
  apply loop_inv in Hloop as (rs & sms & Hr & Hs & Ha & _).
  cbn [no_rows results_list score_rubric_list app] in Hr, Hs.
  rewrite Hr in Hne. rewrite Hs. clear Hr Hs.
  assert (Hsms : sms <> []).
  { intros ->. apply Forall2_nil_inv_r in Ha. done. }
  assert (Hk : Forall (fun sm => sm.*1 = score_map_keys) sms).
  { clear -Ha. induction Ha as [|r sm rs sms [Hk _] _ IH]; by constructor. }
  pose proof (fun c => columns_keys score_map_keys sms c Hsms Hk) as Hcols.
  assert (Hall : Forall (fun c => c ∈ columns sms) performance_columns).
  { apply Forall_forall. intros c Hc. apply Hcols.
    revert c Hc. apply Forall_forall.
    unfold performance_columns, score_map_keys.
    repeat (constructor;
            [apply (bool_decide_unpack _); vm_compute; reflexivity|]).
    constructor. }
  split; [done|]. split; [|split; [|split]].
  - unfold check_columns.
    replace (forallb _ performance_columns) with true; [done|].
    symmetry. apply forallb_forall. intros c Hc%list_elem_of_In.
    apply bool_decide_eq_true. by eapply Forall_forall in Hall.
  - unfold missing_cols. clear -Hall.
    induction Hall as [|c cs Hc _ IH]; [done|]. cbn [List.filter].
    by rewrite (bool_decide_eq_true_2 _ Hc).
  - apply Hcols. apply (bool_decide_unpack _). vm_compute. reflexivity.
  - apply (bool_decide_unpack _). vm_compute. reflexivity.
Qed.

(** X8 in the steady world. *)
Lemma performance_chart_columns_witness :
  match model_loop steady "doc.pdf" ["anthropic.claude-v2"]
          "Summarize." "4096" [] with
  | (_, inr st) =>
      check_columns performance_columns (columns (score_rubric_list st))
      = inr tt
  | _ => False
  end.
Proof.
  destruct (model_loop steady "doc.pdf" ["anthropic.claude-v2"]
              "Summarize." "4096" []) as [l' [e|st]] eqn:Hrun.
  - vm_compute in Hrun. discriminate Hrun.
  - refine (proj1 (proj2 (performance_chart_columns steady "doc.pdf"
                            "Summarize." "4096" _ l' st Hrun _))).
    vm_compute in Hrun. injection Hrun as _ <-. discriminate.
Defined.

(** *** A rubric reply without the two elements *)

Lemma after_rubric_unguided task ev :
  after_rubric task "" "" ev -> task_unguided ev.
Proof.
  destruct ev as [| | | |g ? ? ?]; try done. destruct g; try done.
  by intros (_ & -> & ->).
Qed.

(** X9.  A rubric reply that lacks the evaluation_criteria element and
    the evaluation_grading element is not an error:
    [dynamic_grading_criteria] returns two empty strings, and the run
    goes on with them, so that every grading call on the task is made
    with an empty criteria text and an empty grading scale. *)
Theorem rubric_without_tags (E : world)
    (pdf_path task_prompt max_tokens : string) (models : list string)
    (text reply : string) :
  pdf_text E [] pdf_path = inr text ->
  rubric_reply E [ExtractText pdf_path] task_prompt = inr reply ->
  contains "<evaluation_criteria>" reply = false
  \/ contains "</evaluation_criteria>" reply = false ->
  contains "<evaluation_grading>" reply = false
  \/ contains "</evaluation_grading>" reply = false ->
  dynamic_grading_criteria E task_prompt [ExtractText pdf_path]
  = ([ExtractText pdf_path; GenerateRubric task_prompt],
     inr (EmptyString, EmptyString))
  /\ Forall task_unguided
       (model_loop E pdf_path models task_prompt max_tokens []).1.
Proof.
  intros Hpdf Hreply Hc Hg.
  assert (Hgen : dynamic_grading_criteria E task_prompt [ExtractText pdf_path]
                 = ([ExtractText pdf_path; GenerateRubric task_prompt],
                    inr (EmptyString, EmptyString))).
  { unfold dynamic_grading_criteria, mbind, call, mret. rewrite Hreply.
    cbn [app].
    rewrite (parse_xml_absent "evaluation_criteria" reply Hc).
    by rewrite (parse_xml_absent "evaluation_grading" reply Hg). }
  split; [done|].
  unfold model_loop, mbind, text_extraction, call. rewrite Hpdf.
  cbn [app]. rewrite Hgen.
  destruct (emits_foldM (after_rubric task_prompt "" "")
              (loop_body E text task_prompt max_tokens "" "")
              models no_rows
              (fun b a => emits_loop_body E text task_prompt max_tokens
                            "" "" b a)
              [ExtractText pdf_path; GenerateRubric task_prompt])
    as (ext & Hext & HP).
  unfold no_rows in Hext. rewrite Hext.
  repeat (constructor; [done|]). cbn [app].
  eapply Forall_impl; [done|]. apply after_rubric_unguided.
Qed.

(** X9 in a world whose scoring model answers the rubric request in
    prose. *)
Lemma rubric_without_tags_witness :
  dynamic_grading_criteria untagged "Summarize." [ExtractText "doc.pdf"]
  = ([ExtractText "doc.pdf"; GenerateRubric "Summarize."],
     inr (EmptyString, EmptyString))
  /\ Forall task_unguided
       (model_loop untagged "doc.pdf" ["anthropic.claude-v2"]
          "Summarize." "4096" []).1.
Proof.
  refine (rubric_without_tags untagged "doc.pdf" "Summarize." "4096"
            ["anthropic.claude-v2"] "A short document."
            "Judge the summary on its merits." _ _ _ _).
  - reflexivity.
  - reflexivity.
  - left. vm_compute. reflexivity.
  - left. vm_compute. reflexivity.
Defined.

End RunFacts.

(* ===================================================================== *)
(** ** When the price functions raise *)

Module CostFacts.
Import PyNum Pricing PricingFacts.

Lemma known_output model :
  is_Some (model_input_token_prices !! model) ->
  is_Some (model_output_token_prices !! model).
Proof.
  intros [p Hi]. destruct (model_output_token_prices !! model) eqn:Ho; [eauto|].
  exfalso. revert Hi.
  assert (model_input_token_prices !! model = None) as ->; [|discriminate].
  apply not_elem_of_list_to_map. rewrite same_models.
  apply not_elem_of_list_to_map. exact Ho.
Qed.

Lemma int_truediv_1000 t e : int_truediv t 1000 = inl e -> e = OverflowError.
Proof.
  unfold int_truediv. cbn [Z.eqb]. destruct (is_finite _); [done|].
  by intros [= <-].
Qed.

(** A price function raises exactly when the model is in its table and
    the quotient of the token count by 1000 is out of range. *)
Lemma price_of_raises table t model e :
  price_of table t model = inl e <->
  is_Some (table !! model) /\ int_truediv t 1000 = inl e.
Proof.
  unfold price_of. destruct (table !! model) as [p|].
  - unfold truediv. destruct (int_truediv t 1000) as [e'|q].
    + cbn [bind]. split; [intros [= <-]; eauto|by intros [_ [= <-]]].
    + cbn [bind mul to_float ret round]. split; [done|by intros [_ ?]].
  - split; [done|]. intros [[? ?] _]. done.
Qed.

Lemma price_of_returns table t model :
  (exists x, price_of table t model = inr (Float x) /\ is_Some (table !! model))
  \/ (price_of table t model = inr (Int 0) /\ table !! model = None)
  \/ (exists e, price_of table t model = inl e).
Proof.
  unfold price_of. destruct (table !! model) as [p|].
  - unfold truediv. destruct (int_truediv t 1000) as [e'|q].
    + right. right. by exists e'.
    + left. cbn [bind mul to_float ret round]. eauto.
  - right. left. done.
Qed.

(** X10.  [calculate_total_price] raises only [OverflowError], only for
    a model of the price tables, and exactly when the quotient by 1000
    of the input token count or of the output token count is out of the
    range of a float; it never divides by zero and never fails on a
    missing key. *)
Theorem calculate_total_price_raises (input_tokens output_tokens : Z)
    (model : string) (e : exn) :
  calculate_total_price input_tokens output_tokens model = inl e <->
  e = OverflowError
  /\ is_Some (model_input_token_prices !! model)
  /\ (int_truediv input_tokens 1000 = inl OverflowError
      \/ int_truediv output_tokens 1000 = inl OverflowError).
Proof.
  unfold calculate_total_price, calculate_input_price, calculate_output_price.
  destruct (price_of_returns model_input_token_prices input_tokens model)
    as [(x & Hx & Hi)|[[Hx Hi]|[e1 Hx]]]; rewrite Hx; cbn [bind].
  - pose proof (known_output _ Hi) as Ho.
    destruct (price_of_returns model_output_token_prices output_tokens model)
      as [(y & Hy & _)|[[Hy Hn]|[e2 Hy]]]; rewrite Hy; cbn [bind].
    + cbn [add mul to_float bind ret round]. rewrite float_of_int_1000.
      cbn [bind ret]. split; [done|]. intros (_ & _ & [Hq|Hq]).
      * assert (He : price_of model_input_token_prices input_tokens model
                     = inl OverflowError)
          by (apply price_of_raises; split; [exact Hi|exact Hq]).
        rewrite Hx in He. discriminate He.
      * assert (He : price_of model_output_token_prices output_tokens model
                     = inl OverflowError)
          by (apply price_of_raises; split; [exact Ho|exact Hq]).
        rewrite Hy in He. discriminate He.
    + destruct Ho as [? Ho]. rewrite Hn in Ho. discriminate Ho.
    + apply price_of_raises in Hy as [_ Hq].
      pose proof (int_truediv_1000 _ _ Hq) as ->.
      split; [intros [= <-]; eauto|by intros (-> & _)].
  - split; [|intros (_ & Hs & _); rewrite Hi in Hs; by destruct Hs].
    pose proof (unknown_output _ Hi) as Ho.
    rewrite (price_of_unknown _ _ _ Ho). done.
  - apply price_of_raises in Hx as [Hi Hq].
    pose proof (int_truediv_1000 _ _ Hq) as ->.
    split; [intros [= <-]; eauto|by intros (-> & _)].
Qed.

(** X10 at a count of output tokens of 400 digits. *)
Lemma calculate_total_price_raises_witness :
  calculate_total_price 1000 (10 ^ 400) "anthropic.claude-v2"
  = inl OverflowError.
Proof.
  apply (proj2 (calculate_total_price_raises 1000 (10 ^ 400)
                  "anthropic.claude-v2" OverflowError)).
  split; [reflexivity|]. split.
  - vm_compute. eauto.
  - right. vm_compute. reflexivity.
Defined.

End CostFacts.

(* ===================================================================== *)
(** ** The final score on the scale of the graders *)

Module ScaleFacts.
Import PyStr PyNum Eval Tables EvalFacts.
Local Open Scope list_scope.

Lemma sums_all : forallb scale_ok sums = true.
Proof. by vm_compute. Qed.

Lemma ranks_all :
  forallb (fun t1 => forallb (rank_ok t1) sums) sums = true.
Proof. by vm_compute. Qed.

Lemma in_sums t : 0 <= t <= 45 -> In t sums.
Proof.
  intros Ht. unfold sums. apply in_map_iff. exists (Z.to_nat t).
  split; [lia|]. apply in_seq. lia.
Qed.

Lemma total_in_scale ns :
  Forall in_scale ns -> 0 <= total ns <= 5 * Z.of_nat (length ns).
Proof.
  unfold total, in_scale. induction 1 as [|n ns Hn _ IH]; cbn [foldr length]; lia.
Qed.

Lemma total_top ns :
  Forall in_scale ns ->
  total ns = 5 * Z.of_nat (length ns) <-> Forall (fun n => n = 5) ns.
Proof.
  induction 1 as [|n ns Hn Hns IH]; [done|].
  pose proof (total_in_scale _ Hns) as Hb. unfold in_scale in Hn.
  rewrite Forall_cons, <- IH. unfold total in *. cbn [foldr length]. lia.
Qed.

Lemma total_bottom ns :
  Forall in_scale ns -> total ns = 0 <-> Forall (fun n => n = 0) ns.
Proof.
  induction 1 as [|n ns Hn Hns IH]; [done|].
  pose proof (total_in_scale _ Hns) as Hb. unfold in_scale in Hn.
  rewrite Forall_cons, <- IH. unfold total in *. cbn [foldr length]. lia.
Qed.

(** Nine convertible scores on the scale: their integers, and the bounds
    of their sum. *)
Lemma scores_total (result : list (string * string)) ns :
  length result = 9%nat ->
  Forall2 (fun r n => int r.1 = inr n /\ in_scale n) result ns ->
  Forall2 (fun r n => int r.1 = inr n) result ns
  /\ Forall in_scale ns /\ length ns = 9%nat /\ 0 <= total ns <= 45.
Proof.
  intros Hlen Hns.
  assert (Hs : Forall in_scale ns).
  { clear Hlen. induction Hns as [|? ? ? ? [_ ?] _ IH]; by constructor. }
  assert (Hl : length ns = 9%nat)
    by by rewrite <- (Forall2_length _ _ _ Hns).
  split; [|split; [done|split; [done|]]].
  - eapply Forall2_impl; [done|]. by intros ? ? [? _].
  - pose proof (total_in_scale _ Hs). lia.
Qed.

(** X11.  Nine score strings that convert to integers from 0 to 5 always
    give a final score: a float from 0.0 to 5.0, which is 5.0 only when
    all nine scores are 5 and 0.0 only when all nine are 0. *)
Theorem final_score_on_scale (model_name model_summary : string)
    (result : list (string * string)) (ns : list Z) :
  length result = 9%nat ->
  Forall2 (fun r n => int r.1 = inr n /\ in_scale n) result ns ->
  exists f final_summary final_score_rubric,
    score_results model_name model_summary result
    = inr (Float f, final_summary, final_score_rubric)
    /\ PrimFloat.leb 0 f = true /\ PrimFloat.leb f 5 = true
    /\ (PrimFloat.eqb f 5 = true <-> Forall (fun n => n = 5) ns)
    /\ (PrimFloat.eqb f 0 = true <-> Forall (fun n => n = 0) ns).
Proof.
  intros Hlen Hns.
  destruct (scores_total _ _ Hlen Hns) as (Hint & Hs & Hl & Ht).
  pose proof sums_all as Hall. rewrite forallb_forall in Hall.
  specialize (Hall _ (in_sums _ Ht)). unfold scale_ok in Hall.
  destruct (float_of_int (total ns)) as [|x] eqn:Hx; [done|].
  destruct (score_results_mean model_name model_summary _ _ _ Hlen Hint Hx)
    as (fs & rub & Hr).
  exists (x / 9)%float, fs, rub. split; [done|].
  apply andb_prop in Hall as [[[H0 H5]%andb_prop Htop]%andb_prop Hbot].
  apply eqb_prop in Htop, Hbot. rewrite Htop, Hbot.
  split; [done|]. split; [done|].
  rewrite <- total_top, <- total_bottom, Hl, Z.eqb_eq by done. split; lia.
Qed.

(** X12.  The final score ranks as the sum of the nine scores does: for
    two sets of nine scores on the scale, one final score is less than
    the other exactly when its sum is less, and the two are equal
    exactly when the sums are. *)
Theorem final_score_ranks (model1 summary1 model2 summary2 : string)
    (result1 result2 : list (string * string)) (ns1 ns2 : list Z) :
  length result1 = 9%nat -> length result2 = 9%nat ->
  Forall2 (fun r n => int r.1 = inr n /\ in_scale n) result1 ns1 ->
  Forall2 (fun r n => int r.1 = inr n /\ in_scale n) result2 ns2 ->
  exists f1 final_summary1 rubric1 f2 final_summary2 rubric2,
    score_results model1 summary1 result1
    = inr (Float f1, final_summary1, rubric1)
    /\ score_results model2 summary2 result2
       = inr (Float f2, final_summary2, rubric2)
    /\ (PrimFloat.ltb f1 f2 = true <-> total ns1 < total ns2)
    /\ (PrimFloat.eqb f1 f2 = true <-> total ns1 = total ns2).
Proof.
  intros Hlen1 Hlen2 Hns1 Hns2.
  destruct (scores_total _ _ Hlen1 Hns1) as (Hint1 & _ & _ & Ht1).
  destruct (scores_total _ _ Hlen2 Hns2) as (Hint2 & _ & _ & Ht2).
  pose proof ranks_all as Hall. rewrite forallb_forall in Hall.
  specialize (Hall _ (in_sums _ Ht1)). rewrite forallb_forall in Hall.
  specialize (Hall _ (in_sums _ Ht2)). unfold rank_ok in Hall.
  destruct (float_of_int (total ns1)) as [|x1] eqn:Hx1; [done|].
  destruct (float_of_int (total ns2)) as [|x2] eqn:Hx2; [done|].
  destruct (score_results_mean model1 summary1 _ _ _ Hlen1 Hint1 Hx1)
    as (fs1 & rub1 & Hr1).
  destruct (score_results_mean model2 summary2 _ _ _ Hlen2 Hint2 Hx2)
    as (fs2 & rub2 & Hr2).
  exists (x1 / 9)%float, fs1, rub1, (x2 / 9)%float, fs2, rub2.
  split; [done|]. split; [done|].
  apply andb_prop in Hall as [Hlt Heq]. apply eqb_prop in Hlt, Heq.
  rewrite Hlt, Heq, Z.ltb_lt, Z.eqb_eq. done.
Qed.

(** X11 on nine scores of 5. *)
Lemma final_score_on_scale_witness :
  exists f final_summary final_score_rubric,
    score_results "m" "s" (replicate 9 ("5", "good"))
    = inr (Float f, final_summary, final_score_rubric)
    /\ PrimFloat.leb 0 f = true /\ PrimFloat.leb f 5 = true
    /\ (PrimFloat.eqb f 5 = true <-> Forall (fun n => n = 5) (replicate 9 5))
    /\ (PrimFloat.eqb f 0 = true <-> Forall (fun n => n = 0) (replicate 9 5)).
Proof.
  apply (final_score_on_scale "m" "s" (replicate 9 ("5", "good"))
           (replicate 9 5)).
  - reflexivity.
  - repeat (constructor; [split; [vm_compute; reflexivity|unfold in_scale; lia]|]).
    constructor.
Defined.

(** X12 on nine scores of 4 against eight of 4 and one of 5. *)
Lemma final_score_ranks_witness :
  exists f1 final_summary1 rubric1 f2 final_summary2 rubric2,
    score_results "a" "s" (replicate 9 ("4", "fine"))
    = inr (Float f1, final_summary1, rubric1)
    /\ score_results "b" "t" (("5", "good") :: replicate 8 ("4", "fine"))
       = inr (Float f2, final_summary2, rubric2)
    /\ (PrimFloat.ltb f1 f2 = true
        <-> total (replicate 9 4) < total (5 :: replicate 8 4))
    /\ (PrimFloat.eqb f1 f2 = true
        <-> total (replicate 9 4) = total (5 :: replicate 8 4)).
Proof.
  apply (final_score_ranks "a" "s" "b" "t" (replicate 9 ("4", "fine"))
           (("5", "good") :: replicate 8 ("4", "fine"))
           (replicate 9 4) (5 :: replicate 8 4)).
  - reflexivity.
  - reflexivity.
  - repeat (constructor; [split; [vm_compute; reflexivity|unfold in_scale; lia]|]).
    constructor.
  - repeat (constructor; [split; [vm_compute; reflexivity|unfold in_scale; lia]|]).
    constructor.
Defined.

End ScaleFacts.

(* ===================================================================== *)
(** ** Elements inside a region, and replies in the format asked for *)

Module NestedFacts.
Import PyStr PyStrFacts Re Xml XmlFacts Nested.
Local Open Scope list_scope.

Lemma lacks_spec c s : lacks c s = true -> Forall (fun a => a <> c) (chars s).
Proof.
  unfold lacks. induction (chars s) as [|a l IH]; [done|].
  cbn [forallb]. intros [Ha Hl]%andb_true_iff. constructor; [|by apply IH].
  apply negb_true_iff in Ha. by apply bool_decide_eq_false in Ha.
Qed.

(** A lazy repeat passes over the characters on which what follows it
    fails, and stops where what follows it first succeeds. *)
Lemma m_lazy_skip {A} i u s (k' : cont A) r :
  Forall (fun a => item_ok i a = true /\ forall t, k' (a :: t) = None) u ->
  k' s = Some r -> m_lazy i (u ++ s) k' = Some r.
Proof.
  induction 1 as [|a u [Hi Hk] _ IH]; intros Hs; cbn [app];
    rewrite m_lazy_eq.
  - by rewrite Hs.
  - rewrite Hk. cbn [orelse]. rewrite Hi. by apply IH.
Qed.

Lemma elem_chars_app u v x s :
  elem_chars u v x ++ s
  = lt_char :: u ++ ">"%char :: v ++ lt_char :: "/"%char :: x ++ ">"%char :: s.
Proof.
  unfold elem_chars. cbn [app]. f_equal. rewrite <- app_assoc. cbn [app].
  do 2 f_equal. rewrite <- app_assoc. cbn [app]. do 3 f_equal.
  by rewrite <- app_assoc.
Qed.

(** The element alternative takes an element whole, when the match goes
    on from there. *)
Lemma element_elem {A} len u v x s (K : cont A) r :
  Forall (fun a => a <> "/"%char) u -> Forall (fun a => a <> ">"%char) u ->
  flat v -> Forall (fun a => a <> ">"%char) x ->
  K s = Some r ->
  m len element (elem_chars u v x ++ s) K = Some r.
Proof.
  intros Hu1 Hu2 Hv Hx HK. rewrite elem_chars_app. unfold element. cbn [m].
  unfold m_one at 1. cbn [item_ok]. rewrite bool_decide_eq_true_2 by done.
  apply m_lazy_skip.
  { clear -Hu1 Hu2. induction Hu1 as [|a u Ha _ IH]; [done|].
    apply Forall_cons in Hu2 as [Ha2 Hu2]. constructor; [|by apply IH].
    split; [cbn [item_ok]; by rewrite bool_decide_eq_false_2|].
    intros t. unfold m_one at 1; cbn [item_ok]. by rewrite bool_decide_eq_false_2. }
  unfold m_one at 1; cbn [item_ok]. rewrite bool_decide_eq_true_2 by done.
  apply m_lazy_skip.
  { clear -Hv. induction Hv as [|a v Ha _ IH]; [done|].
    constructor; [|done]. split; [done|]. intros t. apply m_lit_fail.
    apply is_prefix_head. by intros <-. }
  change (lt_char :: "/"%char :: x ++ ">"%char :: s)
    with (chars "</" ++ (x ++ ">"%char :: s)).
  rewrite m_lit_app.
  apply m_lazy_skip.
  { clear -Hx. induction Hx as [|a x Ha _ IH]; [done|].
    constructor; [|done].
    split; [cbn [item_ok]; by rewrite bool_decide_eq_false_2|].
    intros t. unfold m_one at 1; cbn [item_ok]. by rewrite bool_decide_eq_false_2. }
  unfold m_one at 1; cbn [item_ok]. by rewrite bool_decide_eq_true_2.
Qed.

Lemma chars_render p : chars (render p) = piece_chars p.
Proof.
  destruct p as [t|u v x]; [done|]. unfold render, piece_chars, elem_chars.
  rewrite !chars_app. cbn [chars list_ascii_of_string app]. done.
Qed.

Lemma chars_content ps :
  chars (content ps) = concat (map piece_chars ps).
Proof.
  induction ps as [|p ps IH]; [done|].
  cbn [content map concat]. by rewrite chars_app, chars_render, IH.
Qed.

Section Rounds.
Context (len : nat) (tag rest : list ascii).

#[local] Abbreviation body := (m (A:=list ascii) len (Alt element text)).
#[local] Abbreviation k := (fun s => m_lit (close_tag tag) s Some).
#[local] Abbreviation done_in := (done_from len tag rest).

Lemma done_mono b b' s : (b <= b')%nat -> done_in b s -> done_in b' s.
Proof. intros Hb Hs n Hn. apply Hs. lia. Qed.

Lemma done_close : done_in 0 (close_tag tag ++ rest).
Proof.
  intros n _. by apply (until_flat len tag rest [] n); [constructor|cbn; lia].
Qed.

Lemma done_char a b s :
  a <> lt_char -> done_in b s -> done_in (S b) (a :: s).
Proof.
  intros Ha Hs [|n] Hn; [lia|].
  rewrite m_until_eq. rewrite m_alt_eq.
  rewrite element_fail_other by done. unfold text. cbn [m orelse].
  rewrite m_lazy_eq, Nat.ltb_irrefl, (k_other tag a s Ha). cbn [orelse].
  unfold item_ok. unfold lt_char in Ha.
  rewrite bool_decide_eq_false_2 by done. cbn [negb].
  rewrite m_lazy_eq.
  replace (length s <? length (a :: s))%nat with true
    by (symmetry; apply Nat.ltb_lt; simpl; lia).
  rewrite Hs by lia. done.
Qed.

Lemma done_elem u v x b s :
  Forall (fun a => a <> "/"%char) u -> Forall (fun a => a <> ">"%char) u ->
  flat v -> Forall (fun a => a <> ">"%char) x ->
  done_in b s -> done_in (S b) (elem_chars u v x ++ s).
Proof.
  intros Hu1 Hu2 Hv Hx Hs [|n] Hn; [lia|].
  rewrite m_until_eq, m_alt_eq.
  erewrite element_elem; [done|done..|].
  cbv beta.
  replace (length s <? length (elem_chars u v x ++ s))%nat with true.
  - apply Hs. lia.
  - symmetry. apply Nat.ltb_lt. rewrite length_app. unfold elem_chars.
    cbn [length]. lia.
Qed.

Lemma done_text t b s :
  flat t -> done_in b s -> done_in (length t + b) (t ++ s).
Proof.
  induction 1 as [|a t Ha _ IH]; intros Hs; [done|].
  cbn [length app Nat.add]. apply done_char; [done|by apply IH].
Qed.

Lemma done_piece p b s :
  piece_ok p = true -> done_in b s ->
  done_in (length (piece_chars p) + b) (piece_chars p ++ s).
Proof.
  destruct p as [t|u v x]; cbn [piece_ok piece_chars].
  - intros Ht. apply done_text. by apply no_lt_flat.
  - intros [[[Hu1 Hu2]%andb_prop Hv]%andb_prop Hx]%andb_prop Hs.
    eapply done_mono; [|apply done_elem; [..|done]].
    + unfold elem_chars. cbn [length]. lia.
    + by apply lacks_spec.
    + by apply lacks_spec.
    + by apply no_lt_flat.
    + by apply lacks_spec.
Qed.

Lemma done_pieces ps :
  forallb piece_ok ps = true ->
  done_in (length (concat (map piece_chars ps)))
    (concat (map piece_chars ps) ++ close_tag tag ++ rest).
Proof.
  induction ps as [|p ps IH]; cbn [forallb map concat].
  - intros _. apply done_close.
  - intros [Hp Hps]%andb_prop. rewrite <- app_assoc, length_app.
    apply done_piece; [done|by apply IH].
Qed.

(** The first round: the element alternative fails, or it takes the
    first element and the match goes on to the closing delimiter. *)
Lemma element_first ps :
  forallb piece_ok ps = true ->
  let s := concat (map piece_chars ps) ++ close_tag tag ++ rest in
  let K := fun s1 => m_until body k (length s1) s1 in
  m len element s K = None \/ m len element s K = Some rest.
Proof.
  induction ps as [|p ps IH]; cbn [forallb map concat]; intros Hps.
  - left. apply element_fail_close.
  - apply andb_prop in Hps as [Hp Hps]. rewrite <- app_assoc.
    destruct p as [t|u v x]; cbn [piece_chars].
    + destruct (chars t) as [|a t'] eqn:Ht; [by apply IH|].
      left. apply element_fail_other.
      cbn [piece_ok] in Hp. apply no_lt_flat in Hp. rewrite Ht in Hp.
      by apply Forall_cons in Hp as [? _].
    + right. cbn [piece_ok] in Hp.
      apply andb_prop in Hp as [[[Hu1 Hu2]%andb_prop Hv]%andb_prop Hx].
      apply element_elem; [by apply lacks_spec|by apply lacks_spec|
                           by apply no_lt_flat|by apply lacks_spec|].
      apply done_pieces; [done|]. rewrite length_app. lia.
Qed.

Lemma plus_pieces ps :
  forallb piece_ok ps = true ->
  m_plus body (concat (map piece_chars ps) ++ close_tag tag ++ rest) k
  = Some rest.
Proof.
  intros Hps. unfold m_plus. rewrite m_alt_eq.
  destruct (element_first ps Hps) as [-> | ->]; [|done].
  unfold text. cbn [m orelse]. rewrite m_lazy_eq.
  rewrite (done_pieces ps Hps); [done|]. rewrite length_app. lia.
Qed.

End Rounds.

#[local] Arguments open_tag : simpl never.
#[local] Arguments close_tag : simpl never.
#[local] Arguments wrap : simpl never.

(** The pattern matches a content of such pieces with its two
    delimiters, whole. *)
Lemma match_at_pieces len tag ps rest :
  forallb piece_ok ps = true ->
  let c := concat (map piece_chars ps) in
  match_at len (pattern tag) (wrap tag c ++ rest) = Some (length (wrap tag c)).
Proof.
  intros Hps c. unfold match_at, wrap. rewrite pattern_eq.
  rewrite <- !app_assoc, m_lit_app. unfold c.
  rewrite (plus_pieces len tag rest ps Hps).
  cbn [fmap option_fmap option_map]. f_equal. rewrite !length_app. lia.
Qed.

(** *** Gaps that hold other elements *)

Lemma is_prefix_open_gap tag g s :
  flat tag -> opens s -> g <> [] ->
  is_prefix (open_tag tag) (g ++ s) = true ->
  is_prefix (open_tag tag) g = true.
Proof.
  intros Htag Hs Hg [r Hr]%is_prefix_spec. symmetry in Hr.
  apply app_eq_app in Hr as [l [[Ho Hl]|[Ho Hl]]];
    [|apply is_prefix_spec; eauto].
  - destruct l as [|c l]; [apply is_prefix_spec; exists []; by rewrite Ho, !app_nil_r|].
    exfalso. destruct Hs as [->|[s' ->]]; [done|].
    injection Hl as <- _. destruct g as [|a g]; [done|].
    rewrite open_tag_cons in Ho. injection Ho as _ Ho.
    assert (Hin : lt_char ∈ tag ++ [">"%char]).
    { rewrite Ho. apply elem_of_app. right. by left. }
    apply elem_of_app in Hin as [Hin|Hin].
    + unfold flat in Htag. rewrite Forall_forall in Htag. by apply Htag in Hin.
    + by apply list_elem_of_singleton in Hin.
Qed.


Lemma scan_all_gap len tag g s :
  flat tag -> opens s -> occurs (open_tag tag) g = false ->
  scan_all len (pattern tag) (g ++ s) 0 = scan_all len (pattern tag) s 0.
Proof.
  intros Htag Hs. induction g as [|a g IH]; [done|]. intros Hocc.
  pose proof (occurs_false_prefix _ _ Hocc) as Hp.
  apply occurs_false_tail in Hocc.
  change ((a :: g) ++ s) with (a :: (g ++ s)).
  rewrite scan_all_eq. unfold match_at. rewrite pattern_eq, m_lit_fail.
  - by apply IH.
  - destruct (is_prefix (open_tag tag) (a :: g ++ s)) eqn:Hq; [|done].
    apply (is_prefix_open_gap tag (a :: g) s) in Hq; [|done..].
    by rewrite Hq in Hp.
Qed.

Lemma scan_all_end len tag : scan_all len (pattern tag) [] 0 = [].
Proof. done. Qed.

Lemma scan_all_match len r w rest :
  w <> [] -> match_at len r (w ++ rest) = Some (length w) ->
  scan_all len r (w ++ rest) 0 = w :: scan_all len r rest 0.
Proof.
  intros Hw Hm. rewrite scan_all_eq, Hm, take_app_length.
  destruct w as [|a w]; [done|]. cbn [app length].
  replace (S (length w) - 1)%nat with (length w) by lia.
  by rewrite scan_all_skip.
Qed.

Lemma wrap_opens tag c rest : opens (wrap tag c ++ rest).
Proof. right. unfold wrap. rewrite open_tag_cons. by eexists. Qed.

(** What [findall] returns on a text of regions whose contents are made
    of such pieces, with gaps and a tail that do not hold the opening
    delimiter. *)
Lemma scan_all_nested len tag segs tail :
  flat tag ->
  Forall (fun gp => occurs (open_tag tag) gp.1 = false
                    /\ forallb piece_ok gp.2 = true) segs ->
  occurs (open_tag tag) tail = false ->
  scan_all len (pattern tag)
    (document tag (map (fun gp => (gp.1, concat (map piece_chars gp.2))) segs)
       tail) 0
  = map (wrap tag) (contents_of segs).
Proof.
  intros Htag Hsegs Htail. induction Hsegs as [|[g ps] segs [Hg Hps] _ IH].
  - cbn [map document contents_of]. rewrite <- (app_nil_r tail).
    rewrite scan_all_gap; [done|done|by left|done].
  - cbn [map document contents_of fst snd]. cbn [fst snd] in Hg, Hps.
    rewrite scan_all_gap; [|done|apply wrap_opens|done].
    rewrite scan_all_match.
    + by rewrite IH.
    + unfold wrap. rewrite open_tag_cons. done.
    + by apply match_at_pieces.
Qed.

Lemma parse_xml_chars_nested tag segs tail :
  flat tag ->
  Forall (fun gp => occurs (open_tag tag) gp.1 = false
                    /\ forallb piece_ok gp.2 = true) segs ->
  occurs (open_tag tag) tail = false ->
  parse_xml_chars
    (document tag (map (fun gp => (gp.1, concat (map piece_chars gp.2))) segs)
       tail) tag
  = strip_chars (join_chars [" "%char] (contents_of segs)).
Proof.
  intros Htag Hsegs Htail. unfold parse_xml_chars, findall.
  rewrite scan_all_nested by done.
  destruct segs as [|gp segs]; [done|].
  change (strip_chars (join_chars [" "%char]
            (map (sub_empty (outer tag))
               (map (wrap tag) (contents_of (gp :: segs)))))
          = strip_chars (join_chars [" "%char] (contents_of (gp :: segs)))).
  by rewrite map_sub_empty_wrap.
Qed.

Lemma parse_xml_nested_regions tag regions tail :
  no_lt tag = true ->
  Forall (fun gp => contains ("<" ++ tag ++ ">") gp.1 = false
                    /\ forallb piece_ok gp.2 = true) regions ->
  contains ("<" ++ tag ++ ">") tail = false ->
  parse_xml (text_with tag (regions_of regions) tail) tag
  = strip (join " " (map snd (regions_of regions))).
Proof.
  intros Htag Hr Ht. unfold parse_xml, strip, join.
  rewrite chars_text_with. unfold regions_of. rewrite !map_map.
  cbn [fst snd].
  erewrite (map_ext (fun gp => (chars gp.1, chars (content gp.2)))
              (fun gp => ((chars gp.1, gp.2).1,
                          concat (map piece_chars (chars gp.1, gp.2).2))));
    [|intros [g ps]; cbn [fst snd]; by rewrite chars_content].
  rewrite <- (map_map (fun gp => (chars gp.1, gp.2))
                (fun gp => (gp.1, concat (map piece_chars gp.2)))).
  rewrite parse_xml_chars_nested.
  - rewrite chars_str. unfold contents_of. rewrite !map_map. cbn [snd].
    do 3 f_equal. apply map_ext. intros [g ps]. cbn [snd].
    by rewrite chars_content.
  - by apply no_lt_flat.
  - clear -Hr. induction Hr as [|[g ps] l [Hg Hps] _ IH]; constructor; [|done].
    cbn [fst snd] in *. split; [|done]. unfold contains in Hg.
    by rewrite chars_open in Hg.
  - unfold contains in Ht. by rewrite chars_open in Ht.
Qed.

(** *** A reply in the format the grading prompts ask for *)

Lemma drop_while_idem p l : drop_while p (drop_while p l) = drop_while p l.
Proof.
  induction l as [|a l IH]; [done|]. cbn [drop_while].
  destruct (p a) eqn:Hp; [done|]. cbn [drop_while]. by rewrite Hp.
Qed.

Lemma drop_while_head p l a l' : drop_while p l = a :: l' -> p a = false.
Proof.
  induction l as [|b l IH]; [done|]. cbn [drop_while].
  destruct (p b) eqn:Hp; [done|]. by intros [= <- _].
Qed.

Lemma drop_while_suffix p l : exists w, l = w ++ drop_while p l.
Proof.
  induction l as [|a l [w IH]]; [by exists []|]. cbn [drop_while].
  destruct (p a); [|by exists []]. exists (a :: w). cbn [app]. by rewrite <- IH.
Qed.

Lemma strip_chars_idem l : strip_chars (strip_chars l) = strip_chars l.
Proof.
  unfold strip_chars, rstrip_chars, lstrip_chars.
  set (x := drop_while is_space l).
  set (y := drop_while is_space (rev x)).
  assert (Hl : drop_while is_space (rev y) = rev y).
  { destruct (drop_while_suffix is_space (rev x)) as [w Hw]. fold y in Hw.
    apply (f_equal (@rev _)) in Hw. rewrite rev_involutive, rev_app_distr in Hw.
    destruct (rev y) as [|a r] eqn:Hy; [done|].
    cbn [app] in Hw. unfold x in Hw. apply drop_while_head in Hw.
    cbn [drop_while]. by rewrite Hw. }
  rewrite Hl, rev_involutive. unfold y. by rewrite drop_while_idem.
Qed.

Lemma strip_idem s : strip (strip s) = strip s.
Proof. unfold strip. by rewrite chars_str, strip_chars_idem. Qed.

(** One region between a gap and a tail that do not hold the opening
    delimiter. *)
Lemma parse_xml_one tag gap c tail xml :
  no_lt tag = true -> no_lt c = true ->
  chars xml
  = gap ++ open_tag (chars tag) ++ chars c ++ close_tag (chars tag) ++ tail ->
  occurs (open_tag (chars tag)) gap = false ->
  occurs (open_tag (chars tag)) tail = false ->
  parse_xml xml tag = strip c.
Proof.
  intros Htag Hc Hxml Hgap Htail. unfold parse_xml, strip. rewrite Hxml.
  pose proof (parse_xml_chars_nested (chars tag) [(gap, [Txt c])] tail
                (no_lt_flat _ Htag)) as H.
  cbn [map document fst snd concat piece_chars contents_of join_chars] in H.
  rewrite app_nil_r in H. unfold wrap in H. rewrite <- !app_assoc in H.
  rewrite H; [done| |done].
  constructor; [|done]. split; [done|]. cbn [snd forallb piece_ok].
  by rewrite Hc.
Qed.

Lemma occurs_flat n' g s :
  flat g -> occurs (lt_char :: n') (g ++ s) = occurs (lt_char :: n') s.
Proof.
  induction 1 as [|a g Ha _ IH]; [done|]. cbn [app occurs].
  rewrite is_prefix_head by (by intros <-). done.
Qed.

Lemma occurs_lt c0 n' c s :
  c0 <> c ->
  occurs (lt_char :: c0 :: n') (lt_char :: c :: s)
  = occurs (lt_char :: c0 :: n') (c :: s).
Proof.
  intros Hc. cbn [occurs is_prefix]. rewrite decide_True by done.
  by rewrite decide_False by done.
Qed.

Lemma occurs_cons n' a s :
  a <> lt_char -> occurs (lt_char :: n') (a :: s) = occurs (lt_char :: n') s.
Proof. intros Ha. apply (occurs_flat n' [a] s). by constructor. Qed.

Lemma occurs_flat_end n' g : flat g -> occurs (lt_char :: n') g = false.
Proof.
  intros Hg. rewrite <- (app_nil_r g). by rewrite occurs_flat.
Qed.

(** The opening delimiter of a tag does not stand in a text made of
    texts without [<] and of other delimiters. *)
Ltac no_open :=
  rewrite open_tag_cons; cbn [chars list_ascii_of_string app];
  repeat first
    [ rewrite occurs_flat by (by apply no_lt_flat)
    | rewrite occurs_cons by done
    | rewrite occurs_lt by done ];
  first [ by apply occurs_flat_end, no_lt_flat | done ].

(** C3 (as amended).  For a tag that stands for itself in the pattern
    and holds no [<]: on a text of regions of the tag whose contents are
    made of texts without [<] and of elements one level deep, between
    gaps and before a tail that do not hold the opening delimiter,
    [parse_xml] returns the contents of all the regions, in order, each
    without its outer pair of delimiters and with nothing else removed,
    joined by one space and without the whitespace around the whole; on
    any text, what it returns is made this way of contents that stand in
    the text between the two delimiters; when either delimiter does not
    occur in the text the result is the empty string; and the function
    is total, so it raises nothing.  In particular [<score>3</score>]
    gives [3], and the thoughts around a nested [<x>] element are
    returned with that element in place. *)
Theorem parse_xml_extracts (tag : string) :
  plain tag = true -> no_lt tag = true ->
  (forall regions tail,
      Forall (fun gp => contains ("<" ++ tag ++ ">") gp.1 = false
                        /\ forallb piece_ok gp.2 = true) regions ->
      contains ("<" ++ tag ++ ">") tail = false ->
      parse_xml (text_with tag (regions_of regions) tail) tag
      = strip (join " " (map (fun gp => content gp.2) regions)))
  /\ (forall xml, exists bodies,
        Forall (fun b => contains (region tag b) xml = true) bodies /\
        parse_xml xml tag = strip (join " " bodies))
  /\ (forall xml,
        contains ("<" ++ tag ++ ">") xml = false \/
        contains ("</" ++ tag ++ ">") xml = false ->
        parse_xml xml tag = EmptyString)
  /\ parse_xml "<score>3</score>" "score" = "3"%string
  /\ parse_xml "<thoughts>A <x>nested</x> B</thoughts>" "thoughts"
     = "A <x>nested</x> B"%string.
Proof.
  intros _ Htag. split; [|split; [|split; [|split]]].
  - intros regions tail Hr Ht. rewrite parse_xml_nested_regions by done.
    unfold regions_of. by rewrite map_map.
  - apply parse_xml_structure.
  - apply parse_xml_absent.
  - by vm_compute.
  - by vm_compute.
Qed.

(** C3 at the tag [s]: two regions, the second with an element inside,
    after a gap that holds an element of another tag. *)
Lemma parse_xml_extracts_witness :
  parse_xml "<a>0</a> <s> 1</s> b <s>2 <i>3</i> </s> c" "s"
  = "1 2 <i>3</i>"%string.
Proof.
  refine (proj1 (parse_xml_extracts "s" _ _)
            [("<a>0</a> "%string, [Txt " 1"]);
             (" b "%string, [Txt "2 "; Elem "i" "3" "i"; Txt " "])]
            " c"%string _ _).
  - reflexivity.
  - reflexivity.
  - repeat (constructor; [split; vm_compute; reflexivity|]). constructor.
  - vm_compute. reflexivity.
Defined.

(** C3 as stated fails where a content holds a [<] that opens no
    element, and where the tag is nested two levels deep: the delimiters
    match, and the content between them is not what is returned. *)
Lemma parse_xml_misses_content :
  parse_xml "<score>3 < 5</score>" "score" = EmptyString
  /\ parse_xml "<t>a<t>b<t>c</t>d</t>e</t>" "t" = "a<t>b<t>c</t>d"%string.
Proof. split; by vm_compute. Qed.

(** X13.  [parse_xml] keeps the elements inside a region.  On a text of
    regions of the tag, where every content is made of texts without
    [<] and of elements [<u>v</x>] (no [/] and no [>] in [u], no [<] in
    [v], no [>] in [x]; the tag itself may be nested this way), and
    where the gaps and the tail may hold anything but the opening
    delimiter of the tag, the result is the contents of all the regions,
    in order, each with its inner elements in place and without its
    outer pair of delimiters only, joined by one space and stripped. *)
Theorem parse_xml_keeps_elements (tag : string)
    (regions : list (string * list piece)) (tail : string) :
  plain tag = true -> no_lt tag = true ->
  Forall (fun gp => contains ("<" ++ tag ++ ">") gp.1 = false
                    /\ forallb piece_ok gp.2 = true) regions ->
  contains ("<" ++ tag ++ ">") tail = false ->
  parse_xml (text_with tag (regions_of regions) tail) tag
  = strip (join " " (map (fun gp => content gp.2) regions)).
Proof.
  intros _ Htag Hr Ht. rewrite parse_xml_nested_regions by done.
  unfold regions_of. by rewrite map_map.
Qed.

(** X13 on a reply whose thoughts hold a nested thoughts element, after
    a gap that holds another element. *)
Lemma parse_xml_keeps_elements_witness :
  parse_xml
    "<score>4</score> <thoughts>A <thoughts>nested</thoughts> B</thoughts>."
    "thoughts"
  = "A <thoughts>nested</thoughts> B"%string.
Proof.
  refine (parse_xml_keeps_elements "thoughts"
            [("<score>4</score> "%string,
              [Txt "A "; Elem "thoughts" "nested" "thoughts"; Txt " B"])]
            "."%string _ _ _ _).
  - reflexivity.
  - reflexivity.
  - constructor; [|constructor]. split; vm_compute; reflexivity.
  - vm_compute. reflexivity.
Defined.

Lemma reply_score pre thoughts mid score post :
  no_lt pre = true -> no_lt thoughts = true -> no_lt mid = true ->
  no_lt score = true -> no_lt post = true ->
  parse_xml (reply pre thoughts mid score post) "score" = strip score.
Proof.
  intros Hpre Hth Hmid Hsc Hpost.
  apply (parse_xml_one "score"
           (chars pre ++ chars "<thoughts>" ++ chars thoughts
            ++ chars "</thoughts>" ++ chars mid)
           score (chars post)); [done|done| | |].
  - unfold reply. rewrite !chars_app, <- ?app_assoc. done.
  - no_open.
  - no_open.
Qed.

Lemma reply_thoughts pre thoughts mid score post :
  no_lt pre = true -> no_lt thoughts = true -> no_lt mid = true ->
  no_lt score = true -> no_lt post = true ->
  parse_xml (reply pre thoughts mid score post) "thoughts" = strip thoughts.
Proof.
  intros Hpre Hth Hmid Hsc Hpost.
  apply (parse_xml_one "thoughts" (chars pre) thoughts
           (chars mid ++ chars "<score>" ++ chars score ++ chars "</score>"
            ++ chars post)); [done|done| | |].
  - unfold reply. rewrite !chars_app, <- ?app_assoc. done.
  - no_open.
  - no_open.
Qed.

(** X14.  A reply in the format the grading prompts ask for is read
    back whole.  When the scoring model answers with its thoughts in a
    thoughts element and then its score in a score element, with no
    other [<] in the thoughts, in the score or around them,
    [model_execution] returns the score and the thoughts, each without
    the whitespace around it and otherwise unchanged. *)
Theorem reply_in_format (E : World.world) (g : World.grader)
    (model summary source_text : string) (l : World.log)
    (pre thoughts mid score post : string) :
  World.judge_reply E l g model summary source_text
  = inr (reply pre thoughts mid score post) ->
  no_lt pre = true -> no_lt thoughts = true -> no_lt mid = true ->
  no_lt score = true -> no_lt post = true ->
  (Eval.model_execution E g model summary source_text l).2
  = inr (strip score, strip thoughts).
Proof.
  intros Hreply Hpre Hth Hmid Hsc Hpost.
  unfold Eval.model_execution, World.mbind, World.call, World.mret.
  rewrite Hreply. cbn [snd].
  rewrite reply_score, reply_thoughts by done.
  by rewrite !strip_idem.
Qed.

(** X14 in the steady world. *)
Lemma reply_in_format_witness :
  (Eval.model_execution Sample.steady World.eval_model_tone "m" "s" "t" []).2
  = inr ("5", "good")%string.
Proof.
  refine (reply_in_format Sample.steady World.eval_model_tone "m" "s" "t" []
            "" "good" " " "5" "" _ _ _ _ _ _); reflexivity.
Defined.

End NestedFacts.

(* ===================================================================== *)
(** ** A region that is not found *)

Module StrayFacts.
Import PyStr PyStrFacts Re Xml XmlFacts Nested NestedFacts Stray.
Local Open Scope list_scope.

#[local] Arguments open_tag : simpl never.
#[local] Arguments close_tag : simpl never.

(** A lazy repeat fails when what follows it fails at every character it
    passes and at the character that stops it. *)
Lemma m_lazy_fail {A} i s1 c s2 (k' : cont A) :
  Forall (fun a => forall t, k' (a :: t) = None) s1 ->
  (forall t, k' (c :: t) = None) -> item_ok i c = false ->
  m_lazy i (s1 ++ c :: s2) k' = None.
Proof.
  intros Hs1 Hc Hi. induction Hs1 as [|a s1 Ha _ IH]; cbn [app];
    rewrite m_lazy_eq.
  - by rewrite Hc, Hi.
  - rewrite Ha. cbn [orelse]. by destruct (item_ok i a).
Qed.

(** No element starts at a [<] that is followed by no [>] before the
    next [/]. *)
Lemma element_fail_stray {A} len tag b tail (K : cont A) :
  Forall (fun a => a <> ">"%char) b ->
  m len element (stuck tag b tail) K = None.
Proof.
  intros Hb. unfold stuck, element. cbn [m].
  unfold m_one at 1. cbn [item_ok]. rewrite bool_decide_eq_true_2 by done.
  rewrite close_tag_cons. cbn [app].
  change (b ++ lt_char :: "/"%char :: (tag ++ [">"%char]) ++ tail)
    with (b ++ [lt_char] ++ "/"%char :: (tag ++ [">"%char]) ++ tail).
  rewrite app_assoc. apply m_lazy_fail.
  - apply Forall_app. split.
    + eapply Forall_impl; [done|]. intros a Ha t. unfold m_one.
      cbn [item_ok]. by rewrite bool_decide_eq_false_2.
    + constructor; [|done]. intros t. by unfold m_one.
  - intros t. by unfold m_one.
  - done.
Qed.

(** A text without [<] that starts a text with a [<] in it lies before
    that [<]. *)
Lemma flat_prefix p b rest' r :
  flat p -> b ++ lt_char :: rest' = p ++ r -> exists l, b = p ++ l.
Proof.
  intros Hp [l [[Ho Hl]|[Ho Hl]]]%app_eq_app; [by exists l|].
  destruct l as [|c l]; [exists []; by rewrite Ho, !app_nil_r|].
  exfalso. injection Hl as <- _. unfold flat in Hp.
  rewrite Forall_forall in Hp. apply (Hp lt_char); [|done].
  rewrite Ho. apply elem_of_app. right. by left.
Qed.

Lemma stuck_not_close tag b tail :
  flat tag -> Forall (fun a => a <> ">"%char) b ->
  is_prefix (close_tag tag) (stuck tag b tail) = false.
Proof.
  intros Htag Hb. destruct (is_prefix _ _) eqn:Hp; [|done]. exfalso.
  apply is_prefix_spec in Hp as [r Hr]. unfold stuck in Hr.
  rewrite !close_tag_cons in Hr. cbn [app] in Hr. injection Hr as Hr.
  change ("/"%char :: (tag ++ [">"%char]) ++ r)
    with (("/"%char :: tag ++ [">"%char]) ++ r) in Hr.
  apply flat_prefix in Hr as [l Hl].
  - rewrite Forall_forall in Hb. apply (Hb ">"%char); [|done].
    rewrite Hl. apply elem_of_app. left. right. apply elem_of_app. right.
    by left.
  - constructor; [done|]. apply Forall_app. split; [done|].
    by constructor.
Qed.

Section Stuck.
Context (len : nat) (tag b tail : list ascii).
Context (Htag : flat tag) (Hb : Forall (fun a => a <> ">"%char) b).

#[local] Abbreviation body := (m (A:=list ascii) len (Alt element text)).
#[local] Abbreviation k := (fun s => m_lit (close_tag tag) s Some).
#[local] Abbreviation z := (stuck tag b tail).

(** The closing delimiter is not found before the [<]. *)
Lemma k_stuck a : flat a -> k (a ++ z) = None.
Proof using Htag Hb.
  intros Ha. apply m_lit_fail. destruct Ha as [|c a Hc _].
  - by apply stuck_not_close.
  - rewrite close_tag_cons. apply is_prefix_head. by intros <-.
Qed.

(** Nor does a text get past it. *)
Lemma text_stuck (K : cont (list ascii)) a :
  flat a -> (forall a', flat a' -> K (a' ++ z) = None) ->
  m_lazy (NotChr lt_char) (a ++ z) K = None.
Proof.
  intros Ha HK. induction Ha as [|c a Hc Ha IH]; cbn [app];
    rewrite m_lazy_eq.
  - pose proof (HK [] ltac:(constructor)) as H0. cbn [app] in H0.
    rewrite H0. unfold stuck. cbn [orelse item_ok].
    by rewrite bool_decide_eq_true_2.
  - pose proof (HK (c :: a) ltac:(by constructor)) as H0. cbn [app] in H0.
    rewrite H0. cbn [orelse]. by destruct (item_ok _ c).
Qed.

(** Nor does a round. *)
Lemma body_stuck (K : cont (list ascii)) a :
  flat a -> (forall a', flat a' -> K (a' ++ z) = None) ->
  body (a ++ z) K = None.
Proof using Hb.
  intros Ha HK. rewrite m_alt_eq.
  assert (Hel : m len element (a ++ z) K = None).
  { destruct Ha as [|c a Hc _]; [by apply element_fail_stray|].
    by apply element_fail_other. }
  rewrite Hel. unfold text. cbn [m orelse]. by apply text_stuck.
Qed.

Lemma until_stuck n : forall a, flat a -> m_until body k n (a ++ z) = None.
Proof using Htag Hb.
  induction n as [|n IH]; intros a Ha; rewrite m_until_eq;
    rewrite (k_stuck a Ha), body_stuck; try done.
  - intros a' Ha'. by apply k_stuck.
  - intros a' Ha'. destruct (_ <? _)%nat; [by apply IH|by apply k_stuck].
Qed.

Lemma plus_stuck a : flat a -> m_plus body (a ++ z) k = None.
Proof using Htag Hb.
  intros Ha. unfold m_plus. apply body_stuck; [done|].
  intros a' Ha'. by apply until_stuck.
Qed.

End Stuck.

(** The pattern does not match at the opening delimiter of such a
    region. *)
Lemma match_at_stuck len tag a b tail :
  flat tag -> flat a -> Forall (fun c => c <> ">"%char) b ->
  match_at len (pattern tag) (open_tag tag ++ a ++ stuck tag b tail) = None.
Proof.
  intros Htag Ha Hb. unfold match_at. rewrite pattern_eq, m_lit_app.
  assert (H : m_plus (m len (Alt element text)) (a ++ stuck tag b tail)
                (fun s2 => m_lit (close_tag tag) s2 Some) = None)
    by by apply plus_stuck.
  by rewrite H.
Qed.

(** Nothing is found in a text whose one opening delimiter starts such
    a region. *)
Lemma findall_stuck tag gap a b tail :
  flat tag -> flat a -> Forall (fun c => c <> ">"%char) b ->
  occurs (open_tag tag) gap = false ->
  occurs (open_tag tag) (a ++ stuck tag b tail) = false ->
  findall (pattern tag) (gap ++ open_tag tag ++ a ++ stuck tag b tail) = [].
Proof.
  intros Htag Ha Hb Hgap Hrest. unfold findall.
  set (len := length _).
  rewrite scan_all_gap; [|done| |done].
  2: { right. rewrite open_tag_cons. by eexists. }
  rewrite scan_all_eq, match_at_stuck by done.
  rewrite open_tag_cons. cbn [app]. rewrite <- app_assoc.
  rewrite scan_all_flat by done.
  rewrite (scan_all_flat _ _ [">"%char]) by by constructor.
  rewrite <- (app_nil_r (a ++ _)).
  rewrite scan_all_gap; [done|done|by left|done].
Qed.

Lemma chars_stray tag gap a b tail :
  chars (stray tag gap a b tail)
  = chars gap ++ open_tag (chars tag) ++ chars a
    ++ stuck (chars tag) (chars b) (chars tail).
Proof.
  unfold stray, stuck, open_tag, close_tag. rewrite !chars_app.
  cbn [chars list_ascii_of_string app]. by rewrite <- !app_assoc.
Qed.

(** X15.  A [<] in a content that opens no element hides the region.
    When the only opening delimiter of the tag in a text starts a region
    whose content is a text without [<], then a [<], then a text without
    [<] and without [>], [parse_xml] finds nothing and returns the empty
    string: the content is not returned, not even in part. *)
Theorem parse_xml_stray_lt (tag gap a b tail : string) :
  plain tag = true -> no_lt tag = true ->
  no_lt a = true -> no_lt b = true -> lacks ">" b = true ->
  contains ("<" ++ tag ++ ">") gap = false ->
  contains ("<" ++ tag ++ ">") (a ++ "<" ++ b ++ "</" ++ tag ++ ">" ++ tail)
  = false ->
  parse_xml (stray tag gap a b tail) tag = EmptyString.
Proof.
  intros _ Htag Ha _ Hb Hgap Hrest. unfold parse_xml, parse_xml_chars.
  rewrite chars_stray, findall_stuck; [done|by apply no_lt_flat..| | |].
  - by apply lacks_spec.
  - unfold contains in Hgap. by rewrite chars_open in Hgap.
  - unfold contains in Hrest. rewrite chars_open in Hrest.
    rewrite <- Hrest. f_equal. unfold stuck, close_tag.
    rewrite !chars_app. cbn [chars list_ascii_of_string app].
    by rewrite <- !app_assoc.
Qed.

(** X15 on thoughts that compare two numbers. *)
Lemma parse_xml_stray_lt_witness :
  parse_xml "<thoughts>3 < 5, so fair</thoughts> <score>3</score>" "thoughts"
  = EmptyString.
Proof.
  refine (parse_xml_stray_lt "thoughts" "" "3 " " 5, so fair"
            " <score>3</score>" _ _ _ _ _ _ _); vm_compute; reflexivity.
Defined.

End StrayFacts.

(* ===================================================================== *)
(** ** The report after the model loop *)

Module ReportFacts.
Import PyStr PyNum World WorldFacts Eval Helper Orchestrator Sample Plots
  Tables Report RunFacts.
Local Open Scope list_scope.

Lemma results_columns_rows (rows : list row) :
  rows <> [] -> results_columns rows = format_keys.
Proof. by destruct rows. Qed.

Lemma DataFrame_rows rows : rows <> [] -> DataFrame rows <> [].
Proof. by destruct rows. Qed.

Lemma scale_rows df : df <> [] -> scale_total_cost df <> [].
Proof. by destruct df. Qed.

Lemma scale_models rows :
  map Model (scale_total_cost (DataFrame rows)) = map Model rows.
Proof.
  unfold scale_total_cost, DataFrame. rewrite !map_map.
  by apply map_ext.
Qed.

(** The score table of a loop has the columns the chart of the scores
    requires. *)
Lemma score_table_checked (rs : list row) sms :
  sms <> [] -> Forall2 agree rs sms ->
  check_columns performance_columns (columns sms) = inr tt.
Proof.
  intros Hsms Ha.
  assert (Hk : Forall (fun sm => sm.*1 = score_map_keys) sms).
  { clear -Ha. induction Ha as [|r sm rs sms [Hk _] _ IH]; by constructor. }
  unfold check_columns.
  replace (forallb _ performance_columns) with true; [done|].
  symmetry. apply forallb_forall. intros c Hc%list_elem_of_In.
  apply bool_decide_eq_true. apply (columns_keys score_map_keys); [done..|].
  revert c Hc. apply Forall_forall. unfold performance_columns.
  repeat (constructor;
          [apply (bool_decide_unpack _); vm_compute; reflexivity|]).
  constructor.
Qed.

Section Run.
Context (E : world) (R : reporter).
Context (pdf_path task_prompt max_tokens : string) (models : list string).

(** The report calls nothing that the log records: a run has the log of
    its loop. *)
Lemma final_evaluator_log l :
  (final_evaluator R E pdf_path models task_prompt max_tokens l).1
  = (model_loop E pdf_path models task_prompt max_tokens l).1.
Proof.
  unfold final_evaluator, mbind.
  by destruct (model_loop _ _ _ _ _ _) as [l1 [e|st]].
Qed.

(** A run that returns has completed its loop, and returns what the
    report makes of the accumulators. *)
Lemma final_evaluator_inv l l' out :
  final_evaluator R E pdf_path models task_prompt max_tokens l
  = (l', inr out) ->
  exists st,
    model_loop E pdf_path models task_prompt max_tokens l = (l', inr st)
    /\ report R st = inr out.
Proof.
  unfold final_evaluator, mbind, lift.
  destruct (model_loop _ _ _ _ _ _) as [l1 [e|st]]; [done|].
  intros [= <- Hout]. by exists st.
Qed.

(** X16.  A run whose loop ends with no row returns nothing.  Whenever
    the model loop completes without a row (every identifier passed over
    or naming no family, or an empty model list), the table made of the
    rows has no column, the selection of columns that follows the loop
    raises [KeyError], and no file is written and no chart drawn. *)
Theorem no_rows_key_error (l' : log) (st : acc) :
  model_loop E pdf_path models task_prompt max_tokens [] = (l', inr st) ->
  results_list st = [] ->
  final_evaluator R E pdf_path models task_prompt max_tokens []
  = (l', inl KeyError).
Proof.
  intros Hloop Hrows. unfold final_evaluator, mbind. rewrite Hloop.
  unfold lift, report. by rewrite Hrows.
Qed.

(** X17.  With a row, the report passes its three column checks.  When
    the model loop completes with at least one row, neither the
    selection of columns nor the check of either chart function raises:
    what follows the loop is the CSV file, the question to the scoring
    model, the two charts and the two report files, in this order, each
    on the table whose [Total Cost] column is multiplied by 1000, and
    the run fails only where one of these fails.  When none fails, the
    run returns that table (one row per row of the loop, in the same
    order), the narrative, the reply of the scoring model and the score
    table. *)
Theorem report_with_rows (l' : log) (st : acc) :
  model_loop E pdf_path models task_prompt max_tokens [] = (l', inr st) ->
  results_list st <> [] ->
  let df := scale_total_cost (DataFrame (results_list st)) in
  final_evaluator R E pdf_path models task_prompt max_tokens []
  = (l',
     (let* _ := to_csv R df in
      let* reply :=
        performance_reply R df "anthropic.claude-3-sonnet-20240229-v1:0" in
      let* _ := draw_comparisons R df in
      let* _ := draw_performance R (score_rubric_list st) in
      let* _ := write_file R (Orchestrator.evaluation_results st) "summary" in
      let* _ := write_file R reply "cost" in
      ret (df, Orchestrator.evaluation_results st, reply,
           score_rubric_list st))%res)
  /\ map Model df = map Model (results_list st).
Proof.
  intros Hloop Hrows df. split; [|apply scale_models].
  unfold final_evaluator, mbind. rewrite Hloop. unfold lift. f_equal.
  assert (Hsc : check_columns performance_columns
                  (columns (score_rubric_list st)) = inr tt).
  { apply model_loop_inv in Hloop
      as (text & criteria & grading & _ & _ & Hloop).
    apply loop_inv in Hloop as (rs & sms & Hr & Hs & Ha & _).
    cbn [no_rows results_list score_rubric_list app] in Hr, Hs.
    rewrite Hs. apply (score_table_checked rs); [|done].
    intros ->. apply Forall2_nil_inv_r in Ha. by rewrite Hr, Ha in Hrows. }
  unfold report, plot_model_comparisons, plot_model_performance_comparisons,
    evaluate_model_performance, write_evaluation_results.
  rewrite Hsc. fold df.
  rewrite (results_columns_rows (DataFrame _)) by by apply DataFrame_rows.
  rewrite (results_columns_rows df)
    by by apply scale_rows, DataFrame_rows.
  reflexivity.
Qed.

End Run.

(** X16 on an identifier that names no family. *)
Lemma no_rows_key_error_witness :
  final_evaluator obliging steady "doc.pdf" ["gpt-4-32k"] "Summarize."
    "4096" []
  = ([ExtractText "doc.pdf"; GenerateRubric "Summarize."], inl KeyError).
Proof.
  refine (no_rows_key_error steady obliging "doc.pdf" "Summarize." "4096"
            ["gpt-4-32k"] _ no_rows _ _).
  - vm_compute. reflexivity.
  - reflexivity.
Defined.

(** X17 in the steady world, with a reporter for which nothing fails. *)
Lemma report_with_rows_witness :
  match model_loop steady "doc.pdf" ["anthropic.claude-v2"] "Summarize."
          "4096" [] with
  | (l', inr st) =>
      final_evaluator obliging steady "doc.pdf" ["anthropic.claude-v2"]
        "Summarize." "4096" []
      = (l', inr (scale_total_cost (DataFrame (results_list st)),
                  Orchestrator.evaluation_results st,
                  "The models compare as follows.",
                  score_rubric_list st))
  | _ => False
  end.
Proof.
  destruct (model_loop steady "doc.pdf" ["anthropic.claude-v2"] "Summarize."
              "4096" []) as [l' [e|st]] eqn:Hrun.
  - vm_compute in Hrun. discriminate Hrun.
  - refine (proj1 (report_with_rows steady obliging "doc.pdf" "Summarize."
                     "4096" ["anthropic.claude-v2"] l' st Hrun _)).
    vm_compute in Hrun. injection Hrun as _ <-. discriminate.
Defined.

End ReportFacts.
